(** * bitcore: the threshold-signing session (bitcore-tss/ecdsa/sign.js)
      and the chain parameter registry (bitcore-lib-doge/lib/networks.js)

    A shallow embedding of the two JavaScript modules.  JavaScript values
    are represented by the inductive type [jsval]; a [Buffer] is a
    [list byte]; a string is kept as its UTF-8 byte sequence, a surrogate
    without its pair as the three bytes the general scheme gives it, and
    the two conversions between strings and buffers are the decoder and
    the encoder of [Buffer], which put U+FFFD for what has no UTF-8 form.

    A finite number is the decimal that JavaScript prints for it: an
    integer is a [Z], a number that is not an integer is a sign, its
    digits and the place of the decimal point, and [NaN] is a value of
    its own.  [String(n)] follows Number::toString, with the exponent
    form from 1e21 on and below 1e-6; comparisons convert their operands
    as the relational operators do; [parseInt] reads the printed form,
    skipping the white space of Unicode.  Rounding is left out: an
    integer beyond 2^53 is taken exactly, so that only those [Z] that
    are the printed form of a double stand for a number of the program,
    and a numeral read from a string, by a comparison or by [parseInt],
    stands for its exact value, where the program has the nearest
    double, an infinity for a numeral that is too large and zero for one
    that is too small.  The two infinities are not values.  What is
    stated of a number that the program reads from a string says so by
    a hypothesis ([exact], or arguments that are numbers).

    Methods that read and update [this], or the module-level tables, are
    functions in a small state-and-exception monad: a failed [assert] or a
    thrown error returns [Throw] together with the state reached so far. *)

From Stdlib Require Import ZArith Lia Ascii Strings.Byte.
From Stdlib Require String.
From stdpp Require Import base option list strings gmap.

Local Open Scope Z_scope.

(* ===================================================================== *)
(** ** JavaScript values and the built-in operations the code relies on *)
(* ===================================================================== *)

Module Js.

(** *** Values *)

(** What [parseInt] returns and what the private counters of a session
    hold: [NaN] or an integer. *)
Inductive jsnum : Type :=
| NaN
| Num (z : Z).

(** A decimal digit other than 0. *)
Inductive digit19 : Type := D1 | D2 | D3 | D4 | D5 | D6 | D7 | D8 | D9.

Definition digit19_val (d : digit19) : Z :=
  match d with
  | D1 => 1 | D2 => 2 | D3 => 3 | D4 => 4 | D5 => 5 | D6 => 6 | D7 => 7 | D8 => 8 | D9 => 9
  end.

(** [JFrac neg m d e] is the finite number that is not an integer and
    that JavaScript prints with the digits of [10 * m + d], the last [e]
    of them after the decimal point, and the sign [neg]:
    [JFrac false 4 D5 1] is [4.5] and [JFrac false 0 D9 7] is [9e-7]. *)
Inductive jsval : Type :=
| JUndefined
| JNull
| JBool (b : bool)
| JNum (n : jsnum)
| JStr (s : string)
| JBuf (bytes : list byte)
| JFun (src : string)
| JArr (items : list string)
| JFrac (neg : bool) (m : N) (d : digit19) (e : positive).

#[global] Instance jsnum_eq_dec : EqDecision jsnum.
Proof. solve_decision. Defined.

#[global] Instance digit19_eq_dec : EqDecision digit19.
Proof. solve_decision. Defined.

#[global] Instance byte_eq_dec : EqDecision byte.
Proof. exact Byte.byte_eq_dec. Defined.

#[global] Instance jsval_eq_dec : EqDecision jsval.
Proof. solve_decision. Defined.

(** The digits of a [JFrac] as one integer. *)
Definition frac_mantissa (m : N) (d : digit19) : Z := 10 * Z.of_N m + digit19_val d.

(** [x == null] / [x != null] *)
Definition is_nullish (v : jsval) : bool :=
  match v with JUndefined | JNull => true | _ => false end.

(** ToBoolean *)
Definition truthy (v : jsval) : bool :=
  match v with
  | JUndefined | JNull => false
  | JBool b => b
  | JNum NaN => false
  | JNum (Num z) => negb (z =? 0)
  | JStr s => negb (String.eqb s "")
  | JBuf _ | JFun _ | JArr _ | JFrac _ _ _ _ => true
  end.

(** [a || b] *)
Definition js_or (a b : jsval) : jsval := if truthy a then a else b.

(** [typeof v === 'string'], [typeof v === 'number'], [typeof v !== 'object'] *)
Definition is_string (v : jsval) : bool :=
  match v with JStr _ => true | _ => false end.

Definition is_number (v : jsval) : bool :=
  match v with JNum _ | JFrac _ _ _ _ => true | _ => false end.

Definition typeof_object (v : jsval) : bool :=
  match v with JNull | JBuf _ | JArr _ => true | _ => false end.

(** A value that is not an object: not a buffer, a function or an array. *)
Definition primitive (v : jsval) : bool :=
  match v with JBuf _ | JFun _ | JArr _ => false | _ => true end.

(** [Buffer.isBuffer(v)] *)
Definition isBuffer (v : jsval) : bool :=
  match v with JBuf _ => true | _ => false end.

(** *** Integers and [NaN] *)

(** Relational operators: every comparison with [NaN] is false. *)
Definition num_lt (a b : jsnum) : bool :=
  match a, b with Num x, Num y => x <? y | _, _ => false end.
Definition num_le (a b : jsnum) : bool :=
  match a, b with Num x, Num y => x <=? y | _, _ => false end.
Definition num_gt (a b : jsnum) : bool := num_lt b a.
Definition num_ge (a b : jsnum) : bool := num_le b a.

(** [a === b] on numbers ([NaN] is not equal to itself), [a - b], [a + b]. *)
Definition num_eq (a b : jsnum) : bool :=
  match a, b with Num x, Num y => x =? y | _, _ => false end.
Definition num_sub (a b : jsnum) : jsnum :=
  match a, b with Num x, Num y => Num (x - y) | _, _ => NaN end.
Definition num_add (a b : jsnum) : jsnum :=
  match a, b with Num x, Num y => Num (x + y) | _, _ => NaN end.

(** [v === n] where [n] is an integer or [NaN]: no conversion is applied
    to [v], and a number that is not an integer is not equal to [n]. *)
Definition strict_eq_num (v : jsval) (n : jsnum) : bool :=
  match v with JNum m => num_eq m n | _ => false end.

(** *** UTF-8

    A string is kept as the bytes of its UTF-8 form; a surrogate that is
    not part of a pair, which UTF-8 has no form for, is kept as the three
    bytes [ED A0..BF 80..BF] that the general scheme gives it.  Both
    conversions read the bytes one at a time and keep a small state. *)

Fixpoint run {St : Type} (step : St → byte → list byte * St) (flush : St → list byte)
    (st : St) (l : list byte) : list byte :=
  match l with
  | [] => flush st
  | b :: l' => let '(out, st') := step st b in out ++ run step flush st' l'
  end.

(** U+FFFD, the replacement character *)
Definition replacement : list byte := [Byte.xef; Byte.xbf; Byte.xbd].

Definition in_range (lo hi : N) (b : byte) : bool :=
  ((lo <=? Byte.to_N b) && (Byte.to_N b <=? hi))%N.

(** The range a continuation byte has to be in: [80..BF] in general,
    narrower after the lead bytes [E0], [ED], [F0] and [F4]. *)
Inductive cont_range : Type := Cont | ContE0 | ContED | ContF0 | ContF4.

Definition in_cont (r : cont_range) (b : byte) : bool :=
  match r with
  | Cont => in_range 0x80 0xBF b
  | ContE0 => in_range 0xA0 0xBF b
  | ContED => in_range 0x80 0x9F b
  | ContF0 => in_range 0x90 0xBF b
  | ContF4 => in_range 0x80 0x8F b
  end.

(** [buf.toString('utf8')].  Between two characters the decoder is in
    [DecStart]; inside one it holds the bytes read so far, the number of
    bytes needed after the next one and the range of the next one.  A
    byte that cannot start or continue a character gives U+FFFD. *)
Inductive dec_state : Type :=
| DecStart
| DecSeq (pending : list byte) (more : nat) (r : cont_range).

Definition dec_lead (b : byte) : list byte * dec_state :=
  if in_range 0x00 0x7F b then ([b], DecStart)
  else if in_range 0xC2 0xDF b then ([], DecSeq [b] 0 Cont)
  else if in_range 0xE0 0xEF b then
    ([], DecSeq [b] 1 (if in_range 0xE0 0xE0 b then ContE0
                       else if in_range 0xED 0xED b then ContED else Cont))
  else if in_range 0xF0 0xF4 b then
    ([], DecSeq [b] 2 (if in_range 0xF0 0xF0 b then ContF0
                       else if in_range 0xF4 0xF4 b then ContF4 else Cont))
  else (replacement, DecStart).

Definition dec_step (st : dec_state) (b : byte) : list byte * dec_state :=
  match st with
  | DecStart => dec_lead b
  | DecSeq pending more r =>
      if in_cont r b then
        match more with
        | O => (pending ++ [b], DecStart)
        | S k => ([], DecSeq (pending ++ [b]) k Cont)
        end
      else let '(out, st') := dec_lead b in (replacement ++ out, st')
  end.

Definition dec_flush (st : dec_state) : list byte :=
  match st with DecStart => [] | DecSeq _ _ _ => replacement end.

Definition utf8_decode (b : list byte) : string :=
  String.string_of_list_byte (run dec_step dec_flush DecStart b).

(** [Buffer.from(s, 'utf8')]: a surrogate that is not part of a pair is
    written as U+FFFD. *)
Inductive enc_state : Type :=
| EncStart
| EncLead
| EncSecond (b : byte).

Definition enc_first (b : byte) : list byte * enc_state :=
  if in_range 0xED 0xED b then ([], EncLead) else ([b], EncStart).

Definition enc_step (st : enc_state) (b : byte) : list byte * enc_state :=
  match st with
  | EncStart => enc_first b
  | EncLead =>
      if in_range 0xA0 0xBF b then ([], EncSecond b)
      else let '(out, st') := enc_first b in (Byte.xed :: out, st')
  | EncSecond b2 =>
      if in_range 0x80 0xBF b then (replacement, EncStart)
      else let '(out, st') := enc_first b in (Byte.xed :: b2 :: out, st')
  end.

Definition enc_flush (st : enc_state) : list byte :=
  match st with
  | EncStart => []
  | EncLead => [Byte.xed]
  | EncSecond b2 => [Byte.xed; b2]
  end.

Definition utf8_encode (s : string) : list byte :=
  run enc_step enc_flush EncStart (String.list_byte_of_string s).

(** *** Number.prototype.toString *)

Definition digit_char (d : Z) : ascii := ascii_of_N (48 + Z.to_N d).

Fixpoint digits_fuel (fuel : nat) (n : Z) (acc : list ascii) : list ascii :=
  match fuel with
  | O => acc
  | S f =>
      let acc' := digit_char (n mod 10) :: acc in
      if n / 10 =? 0 then acc' else digits_fuel f (n / 10) acc'
  end.

(** The decimal digits of a natural number. *)
Definition nat_digits (n : Z) : list ascii :=
  digits_fuel (S (Z.to_nat (Z.log2 n))) n [].

Definition zeros (n : Z) : list ascii := replicate (Z.to_nat n) "0"%char.

(** The digits without the zeros at the end. *)
Fixpoint strip_zeros (l : list ascii) : list ascii :=
  match l with
  | [] => []
  | c :: l' =>
      match strip_zeros l' with
      | [] => if Ascii.eqb c "0" then [] else [c]
      | r => c :: r
      end
  end.

(** [d.ddd e±x]: the number [0.ds * 10^n] in exponent form. *)
Definition exponent_form (ds : list ascii) (n : Z) : list ascii :=
  match ds with
  | [] => []
  | first :: rest =>
      first :: match rest with [] => [] | _ :: _ => "."%char :: rest end
      ++ "e"%char :: (if 0 <=? n - 1 then "+"%char else "-"%char)
      :: nat_digits (Z.abs (n - 1))
  end.

(** The number [0.ds * 10^n], where [ds] are its digits without zeros at
    the end: in full when it has at most 21 digits before the point and
    at most six zeros after it, in exponent form otherwise. *)
Definition format_decimal (ds : list ascii) (n : Z) : list ascii :=
  let k := Z.of_nat (length ds) in
  if (k <=? n) && (n <=? 21) then ds ++ zeros (n - k)
  else if (0 <? n) && (n <=? 21) then
    take (Z.to_nat n) ds ++ "."%char :: drop (Z.to_nat n) ds
  else if (-6 <? n) && (n <=? 0) then "0"%char :: "."%char :: zeros (- n) ++ ds
  else exponent_form ds n.

(** [1e21], from which on an integer is printed in exponent form. *)
Definition exponent_from : Z := 1000000000000000000000.

Definition num_to_string (n : jsnum) : string :=
  match n with
  | NaN => "NaN"
  | Num z =>
      if Z.abs z <? exponent_from then
        if z <? 0 then String "-" (String.string_of_list_ascii (nat_digits (- z)))
        else String.string_of_list_ascii (nat_digits z)
      else
        let ds := nat_digits (Z.abs z) in
        String.string_of_list_ascii
          ((if z <? 0 then ["-"%char] else [])
           ++ exponent_form (strip_zeros ds) (Z.of_nat (length ds)))
  end.

Definition frac_to_string (neg : bool) (m : N) (d : digit19) (e : positive) : string :=
  let ds := nat_digits (frac_mantissa m d) in
  String.string_of_list_ascii
    ((if neg then ["-"%char] else [])
     ++ format_decimal ds (Z.of_nat (length ds) - Z.pos e)).

(** *** White space *)

Definition is_space (c : ascii) : bool :=
  let n := N_of_ascii c in ((9 <=? n) && (n <=? 13))%N || (n =? 32)%N.

(** U+00A0 *)
Definition is_space2 (a b : ascii) : bool :=
  ((N_of_ascii a =? 0xC2) && (N_of_ascii b =? 0xA0))%N.

(** U+1680, U+2000 to U+200A, U+2028, U+2029, U+202F, U+205F, U+3000
    and U+FEFF *)
Definition is_space3 (a b c : ascii) : bool :=
  let x := N_of_ascii a in
  let y := N_of_ascii b in
  let z := N_of_ascii c in
  (((x =? 0xE1) && (y =? 0x9A) && (z =? 0x80))
   || ((x =? 0xE2) && (y =? 0x80)
       && (((0x80 <=? z) && (z <=? 0x8A)) || (z =? 0xA8) || (z =? 0xA9) || (z =? 0xAF)))
   || ((x =? 0xE2) && (y =? 0x81) && (z =? 0x9F))
   || ((x =? 0xE3) && (y =? 0x80) && (z =? 0x80))
   || ((x =? 0xEF) && (y =? 0xBB) && (z =? 0xBF)))%N.

(** The string without the white space and line ends it starts with. *)
Fixpoint skip_spaces (l : list ascii) : list ascii :=
  match l with
  | a :: l1 =>
      if is_space a then skip_spaces l1
      else match l1 with
           | b :: l2 =>
               if is_space2 a b then skip_spaces l2
               else match l2 with
                    | c :: l3 => if is_space3 a b c then skip_spaces l3 else l
                    | [] => l
                    end
           | [] => l
           end
  | [] => []
  end.

(** *** parseInt *)

Definition digit_val (radix : Z) (c : ascii) : option Z :=
  let n := Z.of_N (N_of_ascii c) in
  let v := if (48 <=? n) && (n <=? 57) then Some (n - 48)
           else if (97 <=? n) && (n <=? 122) then Some (n - 87)
           else if (65 <=? n) && (n <=? 90) then Some (n - 55)
           else None in
  match v with
  | Some d => if d <? radix then Some d else None
  | None => None
  end.

(** Reads the longest prefix of digits; [None] when there is no digit. *)
Fixpoint read_digits (radix : Z) (l : list ascii) (acc : option Z) : option Z :=
  match l with
  | c :: l' =>
      match digit_val radix c with
      | Some d => read_digits radix l' (Some (radix * default 0 acc + d))
      | None => acc
      end
  | [] => acc
  end.

Definition parseInt_str (s : string) : jsnum :=
  let l := skip_spaces (String.list_ascii_of_string s) in
  let '(neg, l) :=
    match l with
    | "-"%char :: l' => (true, l')
    | "+"%char :: l' => (false, l')
    | _ => (false, l)
    end in
  let '(radix, l) :=
    match l with
    | "0"%char :: "x"%char :: l' => (16, l')
    | "0"%char :: "X"%char :: l' => (16, l')
    | _ => (10, l)
    end in
  match read_digits radix l None with
  | Some v => Num (if neg then - v else v)
  | None => NaN
  end.

(** [parseInt] returns a double: the integer it read, rounded when it is
    beyond 2^53.  The rounding is left out; [exact n] says that [n], as
    [parseInt] returned it, needed none. *)
Definition exact (n : jsnum) : bool :=
  match n with NaN => true | Num z => Z.abs z <=? 2 ^ 53 end.

(** *** ToString, as used by [+] with a string, by [parseInt] and by
    property keys *)

Fixpoint join_comma (l : list string) : string :=
  match l with
  | [] => ""
  | [x] => x
  | x :: l' => x +:+ "," +:+ join_comma l'
  end.

Definition to_string (v : jsval) : string :=
  match v with
  | JUndefined => "undefined"
  | JNull => "null"
  | JBool true => "true"
  | JBool false => "false"
  | JNum n => num_to_string n
  | JStr s => s
  | JBuf b => utf8_decode b
  | JFun src => src
  | JArr l => join_comma l
  | JFrac neg m d e => frac_to_string neg m d e
  end.

Definition parseInt (v : jsval) : jsnum := parseInt_str (to_string v).

(** *** ToNumber and the relational operators *)

(** The value of a primitive as a number: [NaN], an infinity, or the
    decimal [m * 10^e]. *)
Inductive numeric : Type :=
| NNaN
| NInf (neg : bool)
| NDec (m e : Z).

(** Reads the decimal digits the list starts with: their value on top of
    [acc], how many there are, and what follows them. *)
Fixpoint span_digits (radix : Z) (l : list ascii) (acc count : Z) : Z * Z * list ascii :=
  match l with
  | c :: l' =>
      match digit_val radix c with
      | Some d => span_digits radix l' (radix * acc + d) (count + 1)
      | None => (acc, count, l)
      end
  | [] => (acc, count, [])
  end.

Definition only_spaces (l : list ascii) : bool :=
  match skip_spaces l with [] => true | _ :: _ => false end.

Fixpoint strip_prefix (p l : list ascii) : option (list ascii) :=
  match p, l with
  | [], _ => Some l
  | a :: p', b :: l' => if Ascii.eqb a b then strip_prefix p' l' else None
  | _ :: _, [] => None
  end.

(** [0x], [0o] and [0b] literals, which take no sign. *)
Definition non_decimal (l : list ascii) : option numeric :=
  match l with
  | "0"%char :: c :: r =>
      let radix :=
        if Ascii.eqb c "x" || Ascii.eqb c "X" then Some 16
        else if Ascii.eqb c "o" || Ascii.eqb c "O" then Some 8
        else if Ascii.eqb c "b" || Ascii.eqb c "B" then Some 2
        else None in
      match radix with
      | Some rd =>
          let '(v, count, rest) := span_digits rd r 0 0 in
          Some (if (0 <? count) && only_spaces rest then NDec v 0 else NNaN)
      | None => None
      end
  | _ => None
  end.

(** The exponent part, when there is one, and what follows it; [None]
    when an [e] is not followed by digits. *)
Definition exponent_part (l : list ascii) : option (Z * list ascii) :=
  match l with
  | c :: l' =>
      if Ascii.eqb c "e" || Ascii.eqb c "E" then
        let '(neg, l'') :=
          match l' with
          | "-"%char :: r => (true, r)
          | "+"%char :: r => (false, r)
          | _ => (false, l')
          end in
        let '(v, count, rest) := span_digits 10 l'' 0 0 in
        if 0 <? count then Some (if neg then - v else v, rest) else None
      else Some (0, l)
  | [] => Some (0, [])
  end.

(** StringToNumber: white space around a decimal literal with an
    optional sign, fraction and exponent, [Infinity], or a literal in
    radix 16, 8 or 2; the empty string is 0 and anything else is [NaN]. *)
Definition string_to_number (s : string) : numeric :=
  match skip_spaces (String.list_ascii_of_string s) with
  | [] => NDec 0 0
  | l =>
      match non_decimal l with
      | Some r => r
      | None =>
          let '(neg, l) :=
            match l with
            | "-"%char :: r => (true, r)
            | "+"%char :: r => (false, r)
            | _ => (false, l)
            end in
          match strip_prefix (String.list_ascii_of_string "Infinity") l with
          | Some rest => if only_spaces rest then NInf neg else NNaN
          | None =>
              let '(ip, ic, l1) := span_digits 10 l 0 0 in
              let '(fp, fc, l2) :=
                match l1 with
                | "."%char :: r => span_digits 10 r 0 0
                | _ => (0, 0, l1)
                end in
              if (ic =? 0) && (fc =? 0) then NNaN
              else match exponent_part l2 with
                   | Some (ex, rest) =>
                       if only_spaces rest
                       then NDec ((if neg then -1 else 1) * (ip * 10 ^ fc + fp)) (ex - fc)
                       else NNaN
                   | None => NNaN
                   end
          end
      end
  end.

(** ToPrimitive: an object is replaced by what its [toString] returns. *)
Definition to_primitive (v : jsval) : jsval :=
  match v with
  | JBuf b => JStr (utf8_decode b)
  | JFun src => JStr src
  | JArr l => JStr (join_comma l)
  | _ => v
  end.

(** ToNumber *)
Definition to_number (v : jsval) : numeric :=
  match to_primitive v with
  | JUndefined => NNaN
  | JNull => NDec 0 0
  | JBool b => NDec (if b then 1 else 0) 0
  | JNum NaN => NNaN
  | JNum (Num z) => NDec z 0
  | JFrac neg m d e => NDec ((if neg then -1 else 1) * frac_mantissa m d) (- Z.pos e)
  | JStr s => string_to_number s
  | JBuf _ | JFun _ | JArr _ => NNaN
  end.

(** [m1 * 10^e1] against [m2 * 10^e2] *)
Definition dec_compare (m1 e1 m2 e2 : Z) : comparison :=
  let e := Z.min e1 e2 in
  (m1 * 10 ^ (e1 - e)) ?= (m2 * 10 ^ (e2 - e)).

Definition numeric_lt (a b : numeric) : bool :=
  match a, b with
  | NNaN, _ | _, NNaN => false
  | NInf na, NInf nb => na && negb nb
  | NInf na, NDec _ _ => na
  | NDec _ _, NInf nb => negb nb
  | NDec m1 e1, NDec m2 e2 =>
      match dec_compare m1 e1 m2 e2 with Lt => true | _ => false end
  end.

Definition numeric_le (a b : numeric) : bool :=
  match a, b with
  | NNaN, _ | _, NNaN => false
  | _, _ => negb (numeric_lt b a)
  end.

(** The UTF-16 code units of a string: a character beyond U+FFFF is a
    pair of surrogates. *)
Fixpoint code_units (l : list ascii) : list Z :=
  match l with
  | [] => []
  | a :: l1 =>
      let x := Z.of_N (N_of_ascii a) in
      if x <? 0xC0 then x :: code_units l1
      else
        match l1 with
        | [] => [x]
        | b :: l2 =>
            let y := Z.of_N (N_of_ascii b) - 0x80 in
            if x <? 0xE0 then ((x - 0xC0) * 64 + y) :: code_units l2
            else
              match l2 with
              | [] => [x]
              | c :: l3 =>
                  let z := Z.of_N (N_of_ascii c) - 0x80 in
                  if x <? 0xF0 then ((x - 0xE0) * 4096 + y * 64 + z) :: code_units l3
                  else
                    match l3 with
                    | [] => [x]
                    | d :: l4 =>
                        let w := Z.of_N (N_of_ascii d) - 0x80 in
                        let cp := (x - 0xF0) * 262144 + y * 4096 + z * 64 + w - 0x10000 in
                        (0xD800 + cp / 1024) :: (0xDC00 + cp mod 1024) :: code_units l4
                    end
              end
        end
  end.

Fixpoint units_lt (a b : list Z) : bool :=
  match a, b with
  | _, [] => false
  | [], _ :: _ => true
  | x :: a', y :: b' =>
      if x <? y then true else if y <? x then false else units_lt a' b'
  end.

(** Strings are compared code unit by code unit. *)
Definition string_lt (a b : list ascii) : bool :=
  units_lt (code_units a) (code_units b).

(** [a < b], [a <= b], [a > b], [a >= b] on any two values: two strings
    are compared as strings, anything else as numbers. *)
Definition js_lt (a b : jsval) : bool :=
  match to_primitive a, to_primitive b with
  | JStr x, JStr y =>
      string_lt (String.list_ascii_of_string x) (String.list_ascii_of_string y)
  | pa, pb => numeric_lt (to_number pa) (to_number pb)
  end.

Definition js_le (a b : jsval) : bool :=
  match to_primitive a, to_primitive b with
  | JStr x, JStr y =>
      negb (string_lt (String.list_ascii_of_string y) (String.list_ascii_of_string x))
  | pa, pb => numeric_le (to_number pa) (to_number pb)
  end.

Definition js_gt (a b : jsval) : bool := js_lt b a.
Definition js_ge (a b : jsval) : bool := js_le b a.

(** *** String.prototype.split with a one-character separator *)

Fixpoint split (sep : ascii) (s : string) : list string :=
  match s with
  | EmptyString => [EmptyString]
  | String c s' =>
      if Ascii.eqb c sep then EmptyString :: split sep s'
      else match split sep s' with
           | w :: ws => String c w :: ws
           | [] => [String c EmptyString]
           end
  end.

(** [str.startsWith(p)] *)
Definition startsWith (p s : string) : bool := String.prefix p s.

(** Array destructuring: a missing position reads [undefined]. *)
Definition item (l : list string) (i : nat) : jsval :=
  match l !! i with Some s => JStr s | None => JUndefined end.

(** Does the character occur in the string? *)
Fixpoint has_char (c : ascii) (s : string) : bool :=
  match s with
  | EmptyString => false
  | String d s' => Ascii.eqb d c || has_char c s'
  end.

End Js.

Export Js.

(* ===================================================================== *)
(** ** Buffer encodings: [Buffer.from(s, enc)] and [buf.toString(enc)]   *)
(* ===================================================================== *)

Module Encoding.

Definition byte_to_Z (b : byte) : Z := Z.of_N (Byte.to_N b).

Definition Z_to_byte (z : Z) : byte :=
  default Byte.x00 (Byte.of_N (Z.to_N (z mod 256))).

(** *** base64 *)

Definition alphabet : list ascii :=
  String.list_ascii_of_string
    "ABCDEFGHIJKLMNOPQRSTUVWXYZabcdefghijklmnopqrstuvwxyz0123456789+/".

Definition enc_char (n : Z) : ascii := default "="%char (alphabet !! Z.to_nat n).

(** The decoder accepts the standard and the URL-safe alphabet. *)
Definition dec_char (c : ascii) : option Z :=
  let n := Z.of_N (N_of_ascii c) in
  if (65 <=? n) && (n <=? 90) then Some (n - 65)
  else if (97 <=? n) && (n <=? 122) then Some (n - 71)
  else if (48 <=? n) && (n <=? 57) then Some (n + 4)
  else if (n =? 43) || (n =? 45) then Some 62
  else if (n =? 47) || (n =? 95) then Some 63
  else None.

Fixpoint enc_sextets (bs : list byte) : list Z :=
  match bs with
  | a :: b :: c :: rest =>
      let n := (byte_to_Z a * 256 + byte_to_Z b) * 256 + byte_to_Z c in
      n / 262144 :: (n / 4096) mod 64 :: (n / 64) mod 64 :: n mod 64
        :: enc_sextets rest
  | [a; b] =>
      let n := (byte_to_Z a * 256 + byte_to_Z b) * 4 in
      [n / 4096; (n / 64) mod 64; n mod 64]
  | [a] =>
      let n := byte_to_Z a * 16 in
      [n / 64; n mod 64]
  | [] => []
  end.

Definition padding (len : nat) : list ascii :=
  match (len mod 3)%nat with
  | 1%nat => ["="%char; "="%char]
  | 2%nat => ["="%char]
  | _ => []
  end.

(** [buf.toString('base64')] *)
Definition base64_encode (bs : list byte) : string :=
  String.string_of_list_ascii (map enc_char (enc_sextets bs) ++ padding (length bs)).

(** The characters before the first [=] that belong to the alphabet. *)
Fixpoint sextets_of (l : list ascii) : list Z :=
  match l with
  | [] => []
  | c :: l' =>
      if Ascii.eqb c "="%char then []
      else match dec_char c with
           | Some v => v :: sextets_of l'
           | None => sextets_of l'
           end
  end.

Fixpoint dec_groups (l : list Z) : list byte :=
  match l with
  | w :: x :: y :: z :: rest =>
      let n := ((w * 64 + x) * 64 + y) * 64 + z in
      Z_to_byte (n / 65536) :: Z_to_byte (n / 256) :: Z_to_byte n :: dec_groups rest
  | [w; x; y] =>
      let n := (w * 64 + x) * 64 + y in
      [Z_to_byte (n / 1024); Z_to_byte (n / 4)]
  | [w; x] => [Z_to_byte ((w * 64 + x) / 16)]
  | _ => []
  end.

(** [Buffer.from(s, 'base64')]: characters outside the alphabet are
    skipped and decoding stops at the padding. *)
Definition base64_decode (s : string) : list byte :=
  dec_groups (sextets_of (String.list_ascii_of_string s)).

(** *** hex *)

Definition hex_digit (n : Z) : ascii :=
  ascii_of_N (Z.to_N (if n <? 10 then 48 + n else 87 + n)).

(** [buf.toString('hex')] *)
Fixpoint hex_encode (bs : list byte) : string :=
  match bs with
  | [] => ""
  | b :: rest =>
      String (hex_digit (byte_to_Z b / 16))
        (String (hex_digit (byte_to_Z b mod 16)) (hex_encode rest))
  end.

End Encoding.

Export Encoding.

(* ===================================================================== *)
(** ** A state-and-exception monad for methods                           *)
(* ===================================================================== *)

Module Eff.

(** The result of a call: a value, or a thrown error with its message. *)
Inductive outcome (A : Type) : Type :=
| Return (a : A)
| Throw (msg : string).
Arguments Return {A} a.
Arguments Throw {A} msg.

Definition is_Return {A} (o : outcome A) : bool :=
  match o with Return _ => true | Throw _ => false end.

#[global] Instance outcome_ret : MRet outcome := λ A a, Return a.
#[global] Instance outcome_bind : MBind outcome := λ A B f o,
  match o with Return a => f a | Throw msg => Throw msg end.

(** [assert(cond, msg)] *)
Definition check (cond : bool) (msg : string) : outcome unit :=
  if cond then Return () else Throw msg.

(** A call into a collaborator that may throw. *)
Definition orThrow {A} (o : option A) (msg : string) : outcome A :=
  match o with Some a => Return a | None => Throw msg end.

(** A method over a mutable state [S]: the state is returned also when
    the call throws, as it stands at that moment. *)
Definition M (S A : Type) : Type := S → outcome A * S.

Definition ret {S A} (a : A) : M S A := λ s, (Return a, s).

Definition bind {S A B} (m : M S A) (f : A → M S B) : M S B :=
  λ s, match m s with
       | (Return a, s') => f a s'
       | (Throw msg, s') => (Throw msg, s')
       end.

Definition get {S} : M S S := λ s, (Return s, s).
Definition put {S} (s : S) : M S unit := λ _, (Return (), s).
Definition lift {S A} (o : outcome A) : M S A := λ s, (o, s).
Definition assert {S} (cond : bool) (msg : string) : M S unit := lift (check cond msg).

Declare Scope eff_scope.
Delimit Scope eff_scope with eff.
Notation "'let!' x ':=' m 'in' k" := (bind m (λ x, k))
  (at level 10, x name, m at level 100, k at level 200) : eff_scope.
Notation "'do!' m 'in' k" := (bind m (λ _, k))
  (at level 10, m at level 100, k at level 200) : eff_scope.

End Eff.

Export Eff.

(* ===================================================================== *)
(** ** bitcore-tss/ecdsa/sign.js: the [Sign] class                       *)
(* ===================================================================== *)

Module SignModel.

(** The message exchanged between the parties, as built by
    [_formatMessage].  A received message is any object: a field it lacks
    reads [undefined]. *)
Record Envelope (P2P Broadcast : Type) : Type := mkEnvelope {
  env_round : jsval;
  env_partyId : jsval;
  env_publicKey : jsval;
  env_p2pMessages : list P2P;
  env_broadcastMessages : list Broadcast;
}.
Arguments mkEnvelope {P2P Broadcast}.
Arguments env_round {P2P Broadcast}.
Arguments env_partyId {P2P Broadcast}.
Arguments env_publicKey {P2P Broadcast}.
Arguments env_p2pMessages {P2P Broadcast}.
Arguments env_broadcastMessages {P2P Broadcast}.

(** [{ p2pMessages, broadcastMessages }] *)
Record Messages (P2P Broadcast : Type) : Type := mkMessages {
  p2pMessages : list P2P;
  broadcastMessages : list Broadcast;
}.
Arguments mkMessages {P2P Broadcast}.
Arguments p2pMessages {P2P Broadcast}.
Arguments broadcastMessages {P2P Broadcast}.

(** What [sign.js] imports: the engine [DklsDsg.Dsg], the codec
    [DklsTypes], [DklsUtils], the channel [DklsComms] of [./dklsComms.js],
    [encrypt]/[decrypt] of [./utils.js] and [bitcoreLib.PrivateKey].  None
    of them is part of the class; each is taken as given.  A function that
    may throw returns an [option]; an engine method also returns the
    engine state it leaves behind. *)
Class Collaborators : Type := {
  (* bitcoreLib.PrivateKey *)
  PrivateKey : Type;
  PublicKey : Type;
  (** [new bitcoreLib.PrivateKey(authKey)] *)
  PrivateKey_new : jsval → option PrivateKey;
  (** [k.toString('hex') === authKey.toString('hex') || k.toWIF() === authKey] *)
  authKey_recognized : PrivateKey → jsval → bool;
  publicKey : PrivateKey → PublicKey;
  publicKey_toString : PublicKey → string;
  (* ./utils.js *)
  encrypt : list byte → PublicKey → PrivateKey → option (list byte);
  decrypt : list byte → PublicKey → PrivateKey → option (list byte);
  (* DklsDsg.Dsg *)
  Dsg : Type;
  RawBroadcast : Type;
  RawMessages : Type;
  RawSignature : Type;
  (** [new DklsDsg.Dsg(keyShare, partyId, derivationPath, messageHash)]
      records its arguments. *)
  Dsg_new : jsval → jsnum → jsval → jsval → Dsg;
  Dsg_init : Dsg → option RawBroadcast * Dsg;
  Dsg_handleIncomingMessages : Dsg → RawMessages → option RawMessages * Dsg;
  (** [dsg.dsgSessionBytes || dsg.dsgSession?.toBytes()] *)
  Dsg_sessionBytes : Dsg → option (list byte);
  Dsg_setSession : Dsg → list byte → option unit * Dsg;
  Dsg_signature : Dsg → RawSignature;
  (* DklsTypes *)
  SerP2P : Type;
  SerBroadcast : Type;
  serializeBroadcastMessage : RawBroadcast → option SerBroadcast;
  serializeMessages : RawMessages → option (Messages SerP2P SerBroadcast);
  deserializeMessages : Messages SerP2P SerBroadcast → option RawMessages;
  (* DklsComms *)
  AuthP2P : Type;
  AuthBroadcast : Type;
  encryptAndAuthOutgoingMessages :
    Messages SerP2P SerBroadcast → list (jsval * jsval) → PrivateKey →
    option (Messages AuthP2P AuthBroadcast);
  decryptAndVerifyIncomingMessages :
    list (Envelope AuthP2P AuthBroadcast) → PrivateKey →
    option (Messages SerP2P SerBroadcast);
  (* DklsUtils *)
  (** [verifyAndConvertDklsSignature(messageHash, rawSignature,
       commonKeyChainHex, derivationPath, null, false)] *)
  verifyAndConvertDklsSignature :
    jsval → RawSignature → string → jsval → option string;
}.

Section Sign.

Context `{C : Collaborators}.

Abbreviation Env := (Envelope AuthP2P AuthBroadcast).

(** [params.keychain] *)
Record Keychain : Type := mkKeychain {
  privateKeyShare : jsval;
  commonKeyChain : jsval;
}.

(** [{ r, s, v, pubKey }] *)
Record Signature : Type := mkSignature {
  sig_r : string;
  sig_s : string;
  sig_v : jsnum;
  sig_pubKey : jsval;
}.

(** The private fields of a [Sign] instance. *)
Record Sign : Type := mkSign {
  keychain : Keychain;
  partyId : jsnum;
  partySize : jsnum;
  minSigners : jsnum;
  derivationPath : jsval;
  messageHash : jsval;
  round : jsnum;
  authKey : PrivateKey;
  dsg : Dsg;
  signature : option Signature;
}.

Definition set_round (r : jsnum) (t : Sign) : Sign :=
  mkSign (keychain t) (partyId t) (partySize t) (minSigners t) (derivationPath t)
         (messageHash t) r (authKey t) (dsg t) (signature t).

Definition set_dsg (d : Dsg) (t : Sign) : Sign :=
  mkSign (keychain t) (partyId t) (partySize t) (minSigners t) (derivationPath t)
         (messageHash t) (round t) (authKey t) d (signature t).

Definition set_signature (g : Signature) (t : Sign) : Sign :=
  mkSign (keychain t) (partyId t) (partySize t) (minSigners t) (derivationPath t)
         (messageHash t) (round t) (authKey t) (dsg t) (Some g).

(** The argument object of the constructor.  [keychain] is absent
    ([None] stands for [undefined] and [null], which the code does not
    tell apart) or an object with the two properties; the other fields
    are arbitrary values, [JUndefined] when they are left out. *)
Record Params : Type := mkParams {
  p_keychain : option Keychain;
  p_partyId : jsval;
  p_n : jsval;
  p_m : jsval;
  p_derivationPath : jsval;
  p_messageHash : jsval;
  p_authKey : jsval;
  p_round : jsval;
}.

(** [buf.length] *)
Definition buf_length (v : jsval) : jsnum :=
  match v with JBuf b => Num (Z.of_nat (length b)) | _ => NaN end.

(** [parseInt(round) || 0] *)
Definition num_or (a b : jsnum) : jsnum := if truthy (JNum a) then a else b.

(** The message of the assertion on [derivationPath], which has the [m]
    in double quotes. *)
Definition path_message : string :=
  "derivationPath must be a string starting with "
  +:+ String "034" ("m" +:+ String "034" "").

Definition constructor (p : Params) : outcome Sign :=
  kc ← orThrow (p_keychain p) "keychain is required";
  _ ← check (negb (is_nullish (p_partyId p))) "partyId is required";
  _ ← check (negb (is_nullish (p_n p))) "n is required";
  _ ← check (negb (is_nullish (p_m p))) "m is required";
  _ ← check (negb (is_nullish (p_messageHash p))) "messageHash is required";
  _ ← check (negb (is_nullish (p_authKey p))) "authKey is required";
  _ ← check (isBuffer (privateKeyShare kc)) "keychain.privateKeyShare must be a buffer";
  _ ← check (isBuffer (commonKeyChain kc)) "keychain.commonKeyChain must be a buffer";
  _ ← check (js_ge (p_partyId p) (JNum (Num 0)) && js_lt (p_partyId p) (p_n p))
            "partyId must be in the range [0, n-1]";
  let partyId := parseInt (p_partyId p) in
  _ ← check (js_gt (p_n p) (JNum (Num 1))) "n must be at least 2";
  let partySize := parseInt (p_n p) in
  _ ← check (js_gt (p_m p) (JNum (Num 0)) && js_le (p_m p) (JNum partySize))
            "m must be in the range [1, n]";
  let minSigners := parseInt (p_m p) in
  _ ← check (is_nullish (p_derivationPath p)
             || (is_string (p_derivationPath p)
                 && startsWith "m" (to_string (p_derivationPath p))))
            path_message;
  let derivationPath := js_or (p_derivationPath p) (JStr "m") in
  _ ← check (isBuffer (p_messageHash p) && num_eq (buf_length (p_messageHash p)) (Num 32))
            "messageHash must be a 32 byte buffer";
  _ ← check (is_nullish (p_round p)
             || (js_ge (p_round p) (JNum (Num 0)) && js_le (p_round p) (JNum (Num 5))))
            "round must be in the range [0, 5]";
  let round := num_or (parseInt (p_round p)) (Num 0) in
  authKey ← orThrow (PrivateKey_new (p_authKey p)) "Invalid private key";
  _ ← check (authKey_recognized authKey (p_authKey p)) "Unrecognized authKey format";
  let dsg := Dsg_new (privateKeyShare kc) partyId derivationPath (p_messageHash p) in
  mret (mkSign kc partyId partySize minSigners derivationPath (p_messageHash p)
               round authKey dsg None).

(** [isSignatureReady()] *)
Definition isSignatureReady (t : Sign) : bool := num_eq (round t) (Num 5).

(** [buf.toString('base64')], [buf.toString('hex')] on a stored field *)
Definition toString_base64 (v : jsval) : option string :=
  match v with JBuf b => Some (base64_encode b) | _ => None end.

Definition toString_hex (v : jsval) : option string :=
  match v with JBuf b => Some (hex_encode b) | _ => None end.

(** [Buffer.from(x, 'base64')] where [x] comes out of a destructured
    [split]: a string, or [undefined], on which it throws. *)
Definition Buffer_from_base64 (v : jsval) : outcome (list byte) :=
  match v with
  | JStr s => Return (base64_decode s)
  | _ => Throw "The first argument must be of type string or an instance of Buffer"
  end.

Local Open Scope eff_scope.

(** A method call on [this.#dsg]. *)
Definition engine {A} (f : Dsg → option A * Dsg) (msg : string) : M Sign A :=
  λ t, let '(o, d) := f (dsg t) in (orThrow o msg, set_dsg d t).

(** [export()] *)
Definition export : M Sign string :=
  let! t := get in
  do! assert (num_gt (round t) (Num 0))
        "Cannot export a session that has not started" in
  do! assert (negb (isSignatureReady t))
        "Cannot export a completed session. The signature is ready with getSignature()" in
  let! sessionBytes := lift (orThrow (Dsg_sessionBytes (dsg t))
        "The first argument must be of type string or an instance of Buffer") in
  let! hash64 := lift (orThrow (toString_base64 (messageHash t))
        "messageHash is not a buffer") in
  let payload :=
    to_string (JNum (round t)) +:+
    ":" +:+ to_string (JNum (partySize t)) +:+
    ":" +:+ to_string (JNum (minSigners t)) +:+
    ":" +:+ to_string (JNum (partyId t)) +:+
    ":" +:+ to_string (derivationPath t) +:+
    ":" +:+ base64_encode sessionBytes +:+
    ":" +:+ hash64 in
  let! buf := lift (orThrow
        (encrypt (utf8_encode payload) (publicKey (authKey t)) (authKey t))
        "encrypt failed") in
  ret (base64_encode buf).

(** [Sign.restore({ session, keychain, authKey })] *)
Definition restore (session : string) (kc : option Keychain) (authKey : jsval)
  : outcome Sign :=
  _authKey ← orThrow (PrivateKey_new authKey) "Invalid private key";
  _ ← check (authKey_recognized _authKey authKey) "Unrecognized authKey format";
  plain ← orThrow (decrypt (base64_decode session) (publicKey _authKey) _authKey)
            "decrypt failed";
  let fields := split ":"%char (utf8_decode plain) in
  let round := item fields 0 in
  let partySize := item fields 1 in
  let minSigners := item fields 2 in
  let partyId := item fields 3 in
  let derivationPath := item fields 4 in
  let dsgSessionBytes := item fields 5 in
  let messageHash := item fields 6 in
  hash ← Buffer_from_base64 messageHash;
  signer ← constructor {|
    p_keychain := kc;
    p_n := JNum (parseInt partySize);
    p_m := JNum (parseInt minSigners);
    p_partyId := JNum (parseInt partyId);
    p_derivationPath := derivationPath;
    p_messageHash := JBuf hash;
    p_authKey := authKey;
    p_round := JNum (parseInt round) |};
  bytes ← Buffer_from_base64 dsgSessionBytes;
  match Dsg_setSession (dsg signer) bytes with
  | (Some _, d) => Return (set_dsg d signer)
  | (None, _) => Throw "setSession failed"
  end.

(** [_formatMessage(signedMessage)]: [round: this.#round++] reads the
    counter, then increments it. *)
Definition _formatMessage (signedMessage : Messages AuthP2P AuthBroadcast) : M Sign Env :=
  let! t := get in
  do! put (set_round (num_add (round t) (Num 1)) t) in
  ret {| env_round := JNum (round t);
         env_partyId := JNum (partyId t);
         env_publicKey := JStr (publicKey_toString (publicKey (authKey t)));
         env_p2pMessages := p2pMessages signedMessage;
         env_broadcastMessages := broadcastMessages signedMessage |}.

(** [initJoin()] *)
Definition initJoin : M Sign Env :=
  let! t := get in
  do! assert (num_eq (round t) (Num 0)) "initJoin must be called before the rounds " in
  let! unsignedMessageR1 := engine Dsg_init "dsg.init failed" in
  let! serializedMsg := lift (orThrow (serializeBroadcastMessage unsignedMessageR1)
        "serializeBroadcastMessage failed") in
  let! signedMessage := lift (orThrow
        (encryptAndAuthOutgoingMessages
           {| broadcastMessages := [serializedMsg]; p2pMessages := [] |}
           [] (authKey t))
        "encryptAndAuthOutgoingMessages failed") in
  _formatMessage signedMessage.

(** The argument of [nextRound]: an array of message objects, or any other
    value. *)
Inductive MessagesArg : Type :=
| NotAnArray (v : jsval)
| ArrayOf (msgs : list Env).

Definition isArray (a : MessagesArg) : bool :=
  match a with ArrayOf _ => true | NotAnArray _ => false end.

Definition elements (a : MessagesArg) : list Env :=
  match a with ArrayOf l => l | NotAnArray _ => [] end.

(** [nextRound(prevRoundMessages)] *)
Definition nextRound (prevRoundMessages : MessagesArg) : M Sign Env :=
  let! t := get in
  do! assert (num_gt (round t) (Num 0))
        "initJoin must be called before participating in the rounds" in
  do! assert (num_lt (round t) (Num 5)) "Signing rounds are over" in
  do! assert (isArray prevRoundMessages) "prevRoundMessages must be an array" in
  let msgs := elements prevRoundMessages in
  do! assert (num_eq (Num (Z.of_nat (length msgs))) (num_sub (minSigners t) (Num 1)))
        "Not ready to proceed to the next round" in
  do! assert (forallb (λ msg, strict_eq_num (env_round msg) (num_sub (round t) (Num 1))) msgs)
        "All messages must be from the previous round" in
  do! assert (forallb (λ msg, negb (strict_eq_num (env_partyId msg) (partyId t))) msgs)
        "Messages must not be from the yourself" in
  let! prevRndMsg := lift (orThrow (decryptAndVerifyIncomingMessages msgs (authKey t))
        "decryptAndVerifyIncomingMessages failed") in
  let! prevRndMsg := lift (orThrow (deserializeMessages prevRndMsg)
        "deserializeMessages failed") in
  let! thisRoundMsg := engine (λ d, Dsg_handleIncomingMessages d prevRndMsg)
        "dsg.handleIncomingMessages failed" in
  let! thisRoundMessage := lift (orThrow (serializeMessages thisRoundMsg)
        "serializeMessages failed") in
  let partyPubKeys := map (λ m, (env_partyId m, env_publicKey m)) msgs in
  let! signedMessage := lift (orThrow
        (encryptAndAuthOutgoingMessages thisRoundMessage partyPubKeys (authKey t))
        "encryptAndAuthOutgoingMessages failed") in
  _formatMessage signedMessage.

(** The part of [getSignature] that runs when nothing is cached yet: the
    call to the assembler and the conversion of its result. *)
Definition assemble (t : Sign) : outcome Signature :=
  keyHex ← orThrow (toString_hex (commonKeyChain (keychain t)))
             "commonKeyChain is not a buffer";
  convertedSignature ← orThrow
    (verifyAndConvertDklsSignature (messageHash t) (Dsg_signature (dsg t))
                                   keyHex (derivationPath t))
    "verifyAndConvertDklsSignature failed";
  let parts := split ":"%char convertedSignature in
  let recoveryParam := item parts 0 in
  let R := item parts 1 in
  let S := item parts 2 in
  let pubKey := item parts 3 in
  mret {| sig_r := "0x" +:+ to_string R;
          sig_s := "0x" +:+ to_string S;
          sig_v := parseInt recoveryParam;
          sig_pubKey := pubKey |}.

(** [getSignature()], with the assembling step as a parameter so that a
    statement can say which calls run it. *)
Definition getSignatureWith (assembler : Sign → outcome Signature) : M Sign Signature :=
  let! t := get in
  do! assert (isSignatureReady t) "Signature not ready" in
  match signature t with
  | Some cached => ret cached
  | None =>
      let! signature := lift (assembler t) in
      do! put (set_signature signature t) in
      ret signature
  end.

Definition getSignature : M Sign Signature := getSignatureWith assemble.

End Sign.

End SignModel.

(* ===================================================================== *)
(** ** bitcore-lib-doge/lib/networks.js: the registry of networks        *)
(* ===================================================================== *)

Module Networks.

(** The end of a line in the source file. *)
Definition newline : string := String "010" "".

(** The module keeps two tables, [networks] and [networkMaps], and
    exports [add] ([addNetwork]), [get] and [remove] over them.

    A [Network] object.  [net_id] is its identity as an object (two
    objects with equal properties are still two objects); the three last
    properties exist only when [addNetwork] defined them. *)
Record Network : Type := mkNetwork {
  net_id : nat;
  name : jsval;
  alias : jsval;
  is_ : jsval;
  pubkeyhash : jsval;
  privatekey : jsval;
  scripthash : jsval;
  xpubkey : jsval;
  xprivkey : jsval;
  networkMagic : option (list byte);
  port : option jsval;
  dnsSeeds : option jsval;
}.

#[global] Instance Network_eq_dec : EqDecision Network.
Proof. solve_decision. Defined.

(** The argument of [addNetwork]: an object whose properties hold
    primitive values, buffers, functions or arrays of strings, and whose
    [variants] property, kept apart, is absent (or falsy) or an array of
    such objects. *)
#[local] Unset Elimination Schemes.
Inductive NetData : Type :=
| mkData (props : gmap string jsval) (variants : option (list NetData)).
#[local] Set Elimination Schemes.

Definition props (d : NetData) : gmap string jsval :=
  match d with mkData p _ => p end.

Definition variants (d : NetData) : option (list NetData) :=
  match d with mkData _ v => v end.

(** [data.key] *)
Definition prop (p : gmap string jsval) (key : string) : jsval :=
  default JUndefined (p !! key).

(** [{ ...data, variants: undefined, ...variant }] *)
Definition spread (data variant : NetData) : NetData :=
  mkData (props variant ∪ props data) (variants variant).

(** The two module-level tables, and the number of [Network] objects
    created so far. *)
Record Registry : Type := mkRegistry {
  networks : list Network;
  networkMaps : gmap string (list Network);
  created : nat;
}.

Definition empty_registry : Registry := mkRegistry [] ∅ 0.

(** The properties every object inherits from [Object.prototype], with
    the value of their [length] property when they have one.
    [networkMaps] is a plain object, so [networkMaps[key]] finds them. *)
Definition Object_prototype : list (string * option Z) :=
  [ ("constructor", Some 1); ("__defineGetter__", Some 2);
    ("__defineSetter__", Some 2); ("hasOwnProperty", Some 1);
    ("__lookupGetter__", Some 1); ("__lookupSetter__", Some 1);
    ("isPrototypeOf", Some 1); ("propertyIsEnumerable", Some 1);
    ("toString", Some 0); ("valueOf", Some 0); ("__proto__", None);
    ("toLocaleString", Some 0) ].

Definition inherited (key : string) : option (option Z) :=
  (λ e : nat * (string * option Z), e.2.2) <$> list_find (λ e, e.1 = key) Object_prototype.

(** [Object.values(network)], in the order the properties were defined. *)
Definition values (n : Network) : list jsval :=
  [name n; alias n; is_ n; pubkeyhash n; privatekey n; scripthash n;
   xpubkey n; xprivkey n]
  ++ from_option (λ b, [JBuf b]) [] (networkMagic n)
  ++ from_option (λ v, [v]) [] (port n)
  ++ from_option (λ v, [v]) [] (dnsSeeds n).

(** [value != null && typeof value !== 'object'] *)
Definition indexable (value : jsval) : bool :=
  negb (is_nullish value) && negb (typeof_object value).

Section Registry.

(** [BufferUtil.integerAsBuffer] of [./util/buffer], which is not part of
    this module: it is taken as given, and may throw. *)
Variable integerAsBuffer : jsval → option (list byte).

Local Open Scope eff_scope.

(** [new Network()] followed by the [defineImmutable] calls. *)
Definition newNetwork (data : gmap string jsval) : M Registry Network :=
  let! r := get in
  do! put (mkRegistry (networks r) (networkMaps r) (S (created r))) in
  let! magic :=
    if truthy (prop data "networkMagic")
    then let! b := lift (orThrow (integerAsBuffer (prop data "networkMagic"))
                           "Invalid Argument: integer must be a number") in
         ret (Some b)
    else ret None in
  ret {| net_id := created r;
         name := prop data "name";
         alias := prop data "alias";
         is_ := prop data "is";
         pubkeyhash := prop data "pubkeyhash";
         privatekey := prop data "privatekey";
         scripthash := prop data "scripthash";
         xpubkey := prop data "xpubkey";
         xprivkey := prop data "xprivkey";
         networkMagic := magic;
         port := if truthy (prop data "port") then Some (prop data "port") else None;
         dnsSeeds := if truthy (prop data "dnsSeeds") then Some (prop data "dnsSeeds") else None |}.

(** The body of the loop over [Object.values(network)]. *)
Definition indexValue (network : Network) (value : jsval) : M Registry unit :=
  if indexable value then
    let key := to_string value in
    let! r := get in
    match networkMaps r !! key with
    | Some l =>
        put (mkRegistry (networks r) (<[key := l ++ [network]]> (networkMaps r)) (created r))
    | None =>
        match inherited key with
        | Some _ => lift (Throw "networkMaps[value].push is not a function")
        | None =>
            put (mkRegistry (networks r) (<[key := [network]]> (networkMaps r)) (created r))
        end
    end
  else ret ().

Fixpoint forEach {S A} (f : A → M S unit) (l : list A) : M S unit :=
  match l with
  | [] => ret ()
  | x :: l' => do! f x in forEach f l'
  end.

(** [addNetwork(data)] up to and including [networks.push(network)]. *)
Definition register (data : gmap string jsval) : M Registry Network :=
  let! network := newNetwork data in
  do! forEach (indexValue network) (values network) in
  let! r := get in
  do! put (mkRegistry (networks r ++ [network]) (networkMaps r) (created r)) in
  ret network.

(** [addNetwork]: the recursion descends into the variants; [base] holds
    the properties spread in from the enclosing calls, so that
    [addNetworkFrom base variant] is the call
    [addNetwork({ ...data, variants: undefined, ...variant })]. *)
Fixpoint addNetworkFrom (base : gmap string jsval) (data : NetData) : M Registry Network :=
  match data with
  | mkData own vs =>
      let! network := register (own ∪ base) in
      do! match vs with
          | Some l =>
              (fix each (l : list NetData) : M Registry unit :=
                 match l with
                 | [] => ret ()
                 | variant :: l' => do! addNetworkFrom (own ∪ base) variant in each l'
                 end) l
          | None => ret ()
          end in
      ret network
  end.

Definition addNetwork (data : NetData) : M Registry Network := addNetworkFrom ∅ data.

(** *** get *)

Inductive GetArg : Type :=
| ArgNetwork (n : Network)
| ArgValue (v : jsval).

(** The [keys] argument: absent, one property name, or an array of them. *)
Inductive KeysArg : Type :=
| NoKeys
| OneKey (k : string)
| ManyKeys (ks : list string).

(** What [get] can return. *)
Inductive GetResult : Type :=
| Found (n : Network)
| Undefined
| EmptyArray
| Inherited (key : string).

(** [network[key]] *)
Definition netProp (n : Network) (key : string) : jsval :=
  if String.eqb key "name" then name n
  else if String.eqb key "alias" then alias n
  else if String.eqb key "is" then is_ n
  else if String.eqb key "pubkeyhash" then pubkeyhash n
  else if String.eqb key "privatekey" then privatekey n
  else if String.eqb key "scripthash" then scripthash n
  else if String.eqb key "xpubkey" then xpubkey n
  else if String.eqb key "xprivkey" then xprivkey n
  else if String.eqb key "networkMagic" then from_option JBuf JUndefined (networkMagic n)
  else if String.eqb key "port" then default JUndefined (port n)
  else if String.eqb key "dnsSeeds" then default JUndefined (dnsSeeds n)
  else if String.eqb key "toString" then
    JFun ("function toString() {" +:+ newline +:+ "  return this.name;" +:+ newline +:+ "}")
  else match inherited key with
       | Some _ => JFun ("function " +:+ key +:+ "() { [native code] }")
       | None => JUndefined
       end.

(** [a === b] between a property of a network and an argument that is a
    primitive, or an object of the caller's own: two objects are equal
    only when they are the same object, and a value carries no identity
    here, so that an argument which is the very function, buffer or array
    that a network holds is not covered. *)
Definition strict_eq (a b : jsval) : bool :=
  match a, b with
  | JUndefined, JUndefined | JNull, JNull => true
  | JBool x, JBool y => bool_decide (x = y)
  | JNum x, JNum y => num_eq x y
  | JStr x, JStr y => String.eqb x y
  | JFrac n1 m1 d1 e1, JFrac n2 m2 d2 e2 =>
      bool_decide (n1 = n2 ∧ m1 = m2 ∧ d1 = d2 ∧ e1 = e2)
  | _, _ => false
  end.

(** [network[key] === arg] *)
Definition propIs (n : Network) (arg : GetArg) (key : string) : bool :=
  match arg with
  | ArgValue v => strict_eq (netProp n key) v
  | ArgNetwork _ => false
  end.

(** The property key [networkMaps[arg]] looks up: [String(arg)], which
    for a network is its [name] and throws when that is not a primitive. *)
Definition keyOf (arg : GetArg) : outcome string :=
  match arg with
  | ArgValue v => Return (to_string v)
  | ArgNetwork n =>
      match name n with
      | JBuf _ | JFun _ | JArr _ => Throw "Cannot convert object to primitive value"
      | v => Return (to_string v)
      end
  end.

Definition keyList (keys : KeysArg) : option (list string) :=
  match keys with
  | NoKeys => None
  | OneKey k => if String.eqb k "" then None else Some [k]
  | ManyKeys ks => Some ks
  end.

(** [get(arg, keys)] *)
Definition get (r : Registry) (arg : GetArg) (keys : KeysArg) : outcome GetResult :=
  match arg with
  | ArgNetwork n =>
      if bool_decide (n ∈ networks r) then Return (Found n) else
      match keyList keys with
      | Some _ => Return Undefined
      | None =>
          key ← keyOf arg;
          Return (match networkMaps r !! key with
                  | Some (n0 :: _) => Found n0
                  | Some [] => EmptyArray
                  | None => match inherited key with
                            | Some (Some len) => if 1 <=? len then Undefined else Inherited key
                            | Some None => Inherited key
                            | None => Undefined
                            end
                  end)
      end
  | ArgValue v =>
      match keyList keys with
      | Some ks =>
          Return (from_option Found Undefined
                    (snd <$> list_find (λ n, existsb (propIs n arg) ks = true) (networks r)))
      | None =>
          key ← keyOf arg;
          Return (match networkMaps r !! key with
                  | Some (n0 :: _) => Found n0
                  | Some [] => EmptyArray
                  | None => match inherited key with
                            | Some (Some len) => if 1 <=? len then Undefined else Inherited key
                            | Some None => Inherited key
                            | None => Undefined
                            end
                  end)
      end
  end.

(** *** The networks the module registers when it is loaded *)

(** The function [is] of the module; as a property key it is its source
    text. *)
Definition is_source : jsval :=
  JFun ("function is(str) {" +:+ newline
        +:+ "  return this.name == str || this.alias == str;" +:+ newline
        +:+ "}").

Definition object (l : list (string * jsval)) : gmap string jsval := list_to_map l.

Definition livenet_data : NetData :=
  mkData (object
    [ ("name", JStr "livenet"); ("alias", JStr "mainnet"); ("is", is_source);
      ("pubkeyhash", JNum (Num 0x1e)); ("privatekey", JNum (Num 0x9e));
      ("scripthash", JNum (Num 0x16)); ("xpubkey", JNum (Num 0x0488b21e));
      ("xprivkey", JNum (Num 0x0488ade4)); ("networkMagic", JNum (Num 0xc0c0c0c0));
      ("port", JNum (Num 22556));
      ("dnsSeeds", JArr ["seed.multidoge.org"; "seed2.multidoge.org";
                         "veryseed.denarius.pro"; "muchseed.denarius.pro";
                         "suchseed.denarius.pro"; "seed.dogecoin.com";
                         "seed.dogechain.info"; "seed.mophides.com";
                         "seed.dglibrary.org"]) ])
    None.

Definition testnet_data : NetData :=
  mkData (object
    [ ("name", JStr "testnet"); ("alias", JStr "testnet"); ("is", is_source);
      ("pubkeyhash", JNum (Num 0x71)); ("privatekey", JNum (Num 0xf1));
      ("scripthash", JNum (Num 0xc4)); ("xpubkey", JNum (Num 0x043587cf));
      ("xprivkey", JNum (Num 0x04358394)); ("networkMagic", JNum (Num 0xfcc1b7dc));
      ("port", JNum (Num 44556)); ("dnsSeeds", JArr ["testseed.jrn.me.uk"]) ])
    (Some [ mkData (object
              [ ("name", JStr "testnet3"); ("networkMagic", JNum (Num 0xfcc1b7dc));
                ("port", JNum (Num 44556)); ("dnsSeeds", JArr ["testseed.jrn.me.uk"]) ])
              None ]).

Definition regtest_data : NetData :=
  mkData (object
    [ ("name", JStr "regtest"); ("alias", JStr "dev"); ("is", is_source);
      ("pubkeyhash", JNum (Num 0x6f)); ("privatekey", JNum (Num 0xef));
      ("scripthash", JNum (Num 0xc4)); ("xpubkey", JNum (Num 0x043587cf));
      ("xprivkey", JNum (Num 0x04358394)); ("networkMagic", JNum (Num 0xfabfb5da));
      ("port", JNum (Num 18444)); ("dnsSeeds", JArr []) ])
    None.

(** The three top-level [addNetwork] calls of the module. *)
Definition load : M Registry unit :=
  do! addNetwork livenet_data in
  do! addNetwork testnet_data in
  do! addNetwork regtest_data in
  ret ().

End Registry.

(** A four-byte big-endian buffer, the usual [integerAsBuffer]; used to
    run the module on concrete data. *)
Definition integerAsBuffer_be (v : jsval) : option (list byte) :=
  match v with
  | JNum (Num z) =>
      Some [Z_to_byte (z / 16777216); Z_to_byte (z / 65536); Z_to_byte (z / 256); Z_to_byte z]
  | JNum NaN => Some [Byte.x00; Byte.x00; Byte.x00; Byte.x00]
  | _ => None
  end.

Definition loaded : Registry := (load integerAsBuffer_be empty_registry).2.

End Networks.

(* ===================================================================== *)
(** ** A small concrete set of collaborators, to run the class on        *)
(* ===================================================================== *)

Module Toy.
Import SignModel.

(** Keys are 32-byte buffers and the public key is the key itself; the
    cipher reverses the bytes; the engine keeps as its session the bytes
    of the rounds it went through; messages carry nothing. *)
Definition toy : Collaborators := {|
  PrivateKey := list byte;
  PublicKey := list byte;
  PrivateKey_new := λ v,
    match v with
    | JBuf b => if bool_decide (length b = 32%nat) then Some b else None
    | _ => None
    end;
  authKey_recognized := λ k v, bool_decide (v = JBuf k);
  publicKey := λ k, k;
  publicKey_toString := hex_encode;
  encrypt := λ m _ _, Some (rev m);
  decrypt := λ c _ _, Some (rev c);
  Dsg := option (list byte);
  RawBroadcast := unit;
  RawMessages := unit;
  RawSignature := unit;
  Dsg_new := λ _ _ _ _, None;
  Dsg_init := λ _, (Some (), Some [Byte.x01]);
  Dsg_handleIncomingMessages := λ d _,
    match d with
    | Some b => (Some (), Some (b ++ [Byte.x01]))
    | None => (None, None)
    end;
  Dsg_sessionBytes := λ d, d;
  Dsg_setSession := λ _ b, (Some (), Some b);
  Dsg_signature := λ _, ();
  SerP2P := unit;
  SerBroadcast := unit;
  serializeBroadcastMessage := λ _, Some ();
  serializeMessages := λ _, Some (mkMessages [] [()]);
  deserializeMessages := λ _, Some ();
  AuthP2P := unit;
  AuthBroadcast := unit;
  encryptAndAuthOutgoingMessages := λ m _ _,
    Some (mkMessages (p2pMessages m) (broadcastMessages m));
  decryptAndVerifyIncomingMessages := λ _ _, Some (mkMessages [] [()]);
  verifyAndConvertDklsSignature := λ _ _ _ _, Some "1:0a:0b:02cc";
|}.

Definition zeros32 : list byte := replicate 32 Byte.x00.
Definition key32 : list byte := replicate 32 Byte.x07.

Definition toy_keychain : Keychain :=
  mkKeychain (JBuf [Byte.x01; Byte.x02]) (JBuf [Byte.x03]).

(** [new Sign({ keychain, partyId: 0, n: 3, m: 2, derivationPath,
    messageHash, authKey, round })] *)
Definition toy_params (path : jsval) (round : option jsnum) : Params :=
  {| p_keychain := Some toy_keychain;
     p_partyId := JNum (Num 0);
     p_n := JNum (Num 3);
     p_m := JNum (Num 2);
     p_derivationPath := path;
     p_messageHash := JBuf zeros32;
     p_authKey := JBuf key32;
     p_round := from_option JNum JUndefined round |}.

(** The same call with any values for [partyId], [n], [m] and [round]. *)
Definition toy_call (partyId n m round : jsval) : Params :=
  {| p_keychain := Some toy_keychain;
     p_partyId := partyId;
     p_n := n;
     p_m := m;
     p_derivationPath := JStr "m";
     p_messageHash := JBuf zeros32;
     p_authKey := JBuf key32;
     p_round := round |}.

(** The session of party 0 with the given path, round, engine state and
    cached signature. *)
Definition toy_session (path : jsval) (round : Z) (d : option (list byte))
    (g : option Signature) : Sign (C := toy) :=
  mkSign (C := toy) toy_keychain (Num 0) (Num 3) (Num 2) path (JBuf zeros32) (Num round)
         key32 d g.

(** The message of party 1 for the given round. *)
Definition from_party1 (round : Z) : Envelope (@AuthP2P toy) (@AuthBroadcast toy) :=
  mkEnvelope (JNum (Num round)) (JNum (Num 1)) (JStr "02ab") [] [()].

End Toy.

(* ===================================================================== *)
(** * Properties                                                          *)
(* ===================================================================== *)

(** ** Numbers printed and parsed back, [split], and characters          *)

Module JsFacts.

(** A decimal digit character. *)
Definition is_digit (c : ascii) : Prop := ∃ d, 0 <= d < 10 ∧ c = digit_char d.

Lemma digit_cases d : 0 <= d < 10 →
  d = 0 ∨ d = 1 ∨ d = 2 ∨ d = 3 ∨ d = 4 ∨ d = 5 ∨ d = 6 ∨ d = 7 ∨ d = 8 ∨ d = 9.
Proof. lia. Qed.

Ltac each_digit d H :=
  destruct (digit_cases d H) as [->|[->|[->|[->|[->|[->|[->|[->|[->| ->]]]]]]]]].

Ltac eval_digits :=
  repeat match goal with
  | |- context [digit_char ?k] =>
      let c := eval vm_compute in (digit_char k) in change (digit_char k) with c
  end.

Lemma digit_val_char d : 0 <= d < 10 → digit_val 10 (digit_char d) = Some d.
Proof. intros H. each_digit d H; reflexivity. Qed.

Lemma digit_not_space c : is_digit c → is_space c = false.
Proof. intros (d & H & ->). each_digit d H; reflexivity. Qed.

Lemma digit_not_colon c : is_digit c → Ascii.eqb c ":"%char = false.
Proof. intros (d & H & ->). each_digit d H; reflexivity. Qed.

Lemma skip_spaces_digit c l : is_digit c → skip_spaces (c :: l) = c :: l.
Proof.
  intros (d & H & ->).
  each_digit d H; destruct l as [|c1 [|c2 l]]; reflexivity.
Qed.

Lemma digits_fuel_digits f : ∀ n acc,
  0 <= n → Forall is_digit acc → Forall is_digit (digits_fuel f n acc).
Proof.
  induction f as [|f IH]; intros n acc Hn Hacc; simpl; [done|].
  assert (Hd : is_digit (digit_char (n mod 10))).
  { exists (n mod 10). split; [apply Z.mod_pos_bound; lia | done]. }
  destruct (n / 10 =? 0).
  - by constructor.
  - apply IH; [apply Z.div_pos; lia | by constructor].
Qed.

Lemma digits_fuel_nonempty f n acc : digits_fuel (S f) n acc ≠ [].
Proof.
  revert n acc. induction f as [|f IH]; intros n acc.
  - simpl. by destruct (n / 10 =? 0).
  - change (digits_fuel (S (S f)) n acc)
      with (let acc' := digit_char (n mod 10) :: acc in
            if n / 10 =? 0 then acc' else digits_fuel (S f) (n / 10) acc').
    simpl. destruct (n / 10 =? 0); [done | apply IH].
Qed.

Lemma read_digits_fuel f : ∀ n acc,
  0 <= n < 10 ^ Z.of_nat (S f) →
  read_digits 10 (digits_fuel (S f) n acc) None = read_digits 10 acc (Some n).
Proof.
  induction f as [|f IH]; intros n acc Hn.
  - simpl. change (10 ^ Z.of_nat 1) with 10 in Hn.
    rewrite Z.div_small by lia. simpl.
    rewrite digit_val_char by (apply Z.mod_pos_bound; lia).
    simpl. by rewrite Z.mod_small by lia.
  - change (digits_fuel (S (S f)) n acc)
      with (let acc' := digit_char (n mod 10) :: acc in
            if n / 10 =? 0 then acc' else digits_fuel (S f) (n / 10) acc').
    cbv zeta. destruct (Z.eqb_spec (n / 10) 0) as [E|E].
    + simpl. rewrite digit_val_char by (apply Z.mod_pos_bound; lia). simpl.
      do 2 f_equal. pose proof (Z.div_mod n 10). lia.
    + rewrite IH.
      * simpl. rewrite digit_val_char by (apply Z.mod_pos_bound; lia). simpl.
        do 2 f_equal. pose proof (Z.div_mod n 10). lia.
      * split; [apply Z.div_pos; lia|].
        apply Z.div_lt_upper_bound; [lia|].
        replace (Z.of_nat (S (S f))) with (Z.succ (Z.of_nat (S f))) in Hn by lia.
        rewrite Z.pow_succ_r in Hn by lia. lia.
Qed.

Lemma nat_digits_bound n : 0 <= n → n < 10 ^ Z.of_nat (S (Z.to_nat (Z.log2 n))).
Proof.
  intros Hn. destruct (Z.eq_dec n 0) as [->|Hne]; [done|].
  pose proof (Z.log2_nonneg n) as Hl.
  replace (Z.of_nat (S (Z.to_nat (Z.log2 n)))) with (Z.succ (Z.log2 n)) by lia.
  destruct (Z.log2_spec n) as [_ Hlt]; [lia|].
  eapply Z.lt_le_trans; [exact Hlt|].
  apply Z.pow_le_mono_l. lia.
Qed.

Lemma nat_digits_digits n : 0 <= n → Forall is_digit (nat_digits n).
Proof. intros. by apply digits_fuel_digits. Qed.

Lemma nat_digits_read n : 0 <= n → read_digits 10 (nat_digits n) None = Some n.
Proof.
  intros Hn. unfold nat_digits. rewrite read_digits_fuel; [done|].
  split; [done | by apply nat_digits_bound].
Qed.

(** On a non-empty sequence of digits [parseInt] reads the number with
    radix 10, unless the sequence starts with [0] and nothing can follow
    it but digits, where it does so just the same. *)
Lemma parseInt_digits l :
  Forall is_digit l → l ≠ [] →
  parseInt_str (String.string_of_list_ascii l) = from_option Num NaN (read_digits 10 l None).
Proof.
  intros Hl Hne. unfold parseInt_str.
  rewrite String.list_ascii_of_string_of_list_ascii.
  destruct l as [|c l]; [done|]. clear Hne.
  apply Forall_cons in Hl as [Hc Hl].
  rewrite skip_spaces_digit by done.
  destruct Hc as (d & Hd & ->).
  each_digit d Hd; eval_digits; [|cbn; reflexivity..].
  destruct l as [|c' l]; [reflexivity|].
  apply Forall_cons in Hl as [(d' & Hd' & ->) _].
  each_digit d' Hd'; eval_digits; cbn; reflexivity.
Qed.

(** An integer from 0 to below [1e21] is printed in full, and [parseInt]
    reads it back. *)
Lemma parseInt_nonneg z : 0 <= z < exponent_from → parseInt (JNum (Num z)) = Num z.
Proof.
  intros Hz. unfold parseInt. cbn [to_string num_to_string].
  destruct (Z.ltb_spec (Z.abs z) exponent_from); [|lia].
  destruct (Z.ltb_spec z 0); [lia|].
  rewrite parseInt_digits.
  - by rewrite nat_digits_read.
  - by apply nat_digits_digits.
  - apply digits_fuel_nonempty.
Qed.

(** *** Characters of a string *)

Lemma has_char_app c a b : has_char c (a +:+ b) = has_char c a || has_char c b.
Proof. induction a as [|d a IH]; simpl; [done|]. rewrite IH. by destruct (Ascii.eqb d c). Qed.

Lemma has_char_of_list c l :
  has_char c (String.string_of_list_ascii l) = existsb (λ d, Ascii.eqb d c) l.
Proof. induction l as [|d l IH]; simpl; [done|]. by rewrite IH. Qed.

Lemma digits_no_colon l :
  Forall is_digit l → has_char ":"%char (String.string_of_list_ascii l) = false.
Proof.
  intros H. rewrite has_char_of_list. induction H as [|c l Hc _ IH]; [done|].
  simpl. by rewrite digit_not_colon.
Qed.

(** *** The characters of a printed integer *)

(** A character below 128 that is not a colon. *)
Definition plain (c : ascii) : Prop := (N_of_ascii c < 128)%N ∧ c ≠ ":"%char.

Lemma digit_plain c : is_digit c → plain c.
Proof. intros (d & H & ->). each_digit d H; by split. Qed.

Lemma digits_plain l : Forall is_digit l → Forall plain l.
Proof. intros H. eapply Forall_impl; [exact H | apply digit_plain]. Qed.

Lemma strip_zeros_Forall (P : ascii → Prop) l : Forall P l → Forall P (strip_zeros l).
Proof.
  induction 1 as [|c l Hc _ IH]; simpl; [done|].
  destruct (strip_zeros l) as [|c' r].
  - destruct (Ascii.eqb c "0"); by repeat constructor.
  - by constructor.
Qed.

Lemma exponent_form_plain ds n : Forall plain ds → Forall plain (exponent_form ds n).
Proof.
  intros H. destruct ds as [|first rest]; [done|]. apply Forall_cons in H as [Hf Hr].
  unfold exponent_form. constructor; [done|]. apply Forall_app. split.
  - destruct rest; [done|]. constructor; [by split|done].
  - constructor; [by split|]. constructor; [by destruct (0 <=? n - 1)|].
    apply digits_plain, nat_digits_digits. lia.
Qed.

Lemma num_to_string_plain n : Forall plain (String.list_ascii_of_string (num_to_string n)).
Proof.
  destruct n as [|z]; [by repeat constructor|]. cbn [num_to_string].
  destruct (Z.ltb_spec (Z.abs z) exponent_from).
  - destruct (Z.ltb_spec z 0).
    + cbn [String.list_ascii_of_string].
      rewrite String.list_ascii_of_string_of_list_ascii.
      constructor; [by split|]. apply digits_plain, nat_digits_digits. lia.
    + rewrite String.list_ascii_of_string_of_list_ascii.
      apply digits_plain, nat_digits_digits. lia.
  - rewrite String.list_ascii_of_string_of_list_ascii. apply Forall_app. split.
    + destruct (z <? 0); by repeat constructor.
    + apply exponent_form_plain, strip_zeros_Forall, digits_plain, nat_digits_digits. lia.
Qed.

Lemma plain_no_colon s :
  Forall plain (String.list_ascii_of_string s) → has_char ":"%char s = false.
Proof.
  induction s as [|c s IH]; simpl; [done|]. intros [[_ Hc] Hs]%Forall_cons.
  rewrite IH by done. by destruct (Ascii.eqb_spec c ":"%char).
Qed.

Lemma num_to_string_no_colon n : has_char ":"%char (num_to_string n) = false.
Proof. apply plain_no_colon, num_to_string_plain. Qed.

(** *** What [parseInt] makes of a printed number *)










(** *** Integers compared *)

Lemma numeric_lt_int a b : numeric_lt (NDec a 0) (NDec b 0) = (a <? b).
Proof.
  unfold numeric_lt, dec_compare. simpl. rewrite !Z.mul_1_r. reflexivity.
Qed.

Lemma js_lt_int a b : js_lt (JNum (Num a)) (JNum (Num b)) = (a <? b).
Proof. apply numeric_lt_int. Qed.

Lemma js_le_int a b : js_le (JNum (Num a)) (JNum (Num b)) = (a <=? b).
Proof.
  unfold js_le. cbn [to_primitive to_number numeric_le].
  rewrite numeric_lt_int. symmetry. apply Z.leb_antisym.
Qed.

Lemma js_gt_int a b : js_gt (JNum (Num a)) (JNum (Num b)) = (b <? a).
Proof. apply js_lt_int. Qed.

Lemma js_ge_int a b : js_ge (JNum (Num a)) (JNum (Num b)) = (b <=? a).
Proof. apply js_le_int. Qed.


(** *** split *)

Lemma split_whole sep a : has_char sep a = false → split sep a = [a].
Proof.
  induction a as [|c a IH]; simpl; [done|].
  destruct (Ascii.eqb c sep); simpl; [done|]. intros H. by rewrite IH.
Qed.

Lemma split_first sep a b :
  has_char sep a = false → split sep (a +:+ String sep b) = a :: split sep b.
Proof.
  induction a as [|c a IH]; simpl.
  - by rewrite Ascii.eqb_refl.
  - destruct (Ascii.eqb c sep); simpl; [done|]. intros H. by rewrite IH.
Qed.

(** The first field of a string is what precedes the first separator. *)
Lemma split_head_no_sep sep s :
  ∃ w ws, split sep s = w :: ws ∧ has_char sep w = false.
Proof.
  induction s as [|c s (w & ws & E & H)]; simpl.
  - by exists "", [].
  - destruct (Ascii.eqb c sep) eqn:Ec.
    + by exists "", (split sep s).
    + rewrite E. exists (String c w), ws. split; [done|]. simpl. by rewrite Ec.
Qed.

End JsFacts.

(** ** base64: decoding what was encoded, and the characters it uses     *)

Module EncodingFacts.

Definition sextet (s : Z) : Prop := 0 <= s < 64.

Lemma byte_to_Z_range b : 0 <= byte_to_Z b < 256.
Proof. unfold byte_to_Z. pose proof (Byte.to_N_bounded b). lia. Qed.

Lemma Z_to_byte_to_Z b z : z mod 256 = byte_to_Z b → Z_to_byte z = b.
Proof.
  intros E. unfold Z_to_byte. rewrite E. unfold byte_to_Z.
  by rewrite N2Z.id, Byte.of_to_N.
Qed.

Lemma sextet_cases s : sextet s → ∃ k, (k < 64)%nat ∧ s = Z.of_nat k.
Proof. intros H. exists (Z.to_nat s). unfold sextet in H. lia. Qed.

Ltac each_sextet k H :=
  do 64 (destruct k as [|k]; [reflexivity|]); exfalso; lia.

Lemma enc_char_not_pad s : sextet s → Ascii.eqb (enc_char s) "="%char = false.
Proof. intros (k & H & ->)%sextet_cases. each_sextet k H. Qed.

Lemma enc_char_not_colon s : sextet s → Ascii.eqb (enc_char s) ":"%char = false.
Proof. intros (k & H & ->)%sextet_cases. each_sextet k H. Qed.

Lemma dec_enc_char s : sextet s → dec_char (enc_char s) = Some s.
Proof. intros (k & H & ->)%sextet_cases. each_sextet k H. Qed.

(** Bytes are taken three at a time. *)
Lemma bytes_ind3 (P : list byte → Prop) :
  P [] → (∀ a, P [a]) → (∀ a b, P [a; b]) →
  (∀ a b c l, P l → P (a :: b :: c :: l)) → ∀ l, P l.
Proof.
  intros H0 H1 H2 H3.
  assert (H : ∀ l, P l ∧ (∀ a, P (a :: l)) ∧ (∀ a b, P (a :: b :: l))).
  { induction l as [|c l (IH0 & IH1 & IH2)]; [by auto|].
    split; [apply IH1|]. split; [intros a; apply IH2|]. intros a b. by apply H3. }
  intros l. apply H.
Qed.

Lemma enc_sextets_range bs : Forall sextet (enc_sextets bs).
Proof.
  induction bs as [|a|a b|a b c l IH] using bytes_ind3; simpl.
  - constructor.
  - pose proof (byte_to_Z_range a). repeat constructor; unfold sextet;
      try apply Z.mod_pos_bound; try apply Z.div_pos; try lia;
      apply Z.div_lt_upper_bound; lia.
  - pose proof (byte_to_Z_range a). pose proof (byte_to_Z_range b).
    repeat constructor; unfold sextet;
      try apply Z.mod_pos_bound; try apply Z.div_pos; try lia;
      apply Z.div_lt_upper_bound; lia.
  - pose proof (byte_to_Z_range a). pose proof (byte_to_Z_range b).
    pose proof (byte_to_Z_range c).
    repeat (constructor; [unfold sextet;
      first [ apply Z.mod_pos_bound; lia
            | split; [apply Z.div_pos; lia | apply Z.div_lt_upper_bound; lia] ] |]).
    exact IH.
Qed.

Lemma sextets_of_padding n : sextets_of (padding n) = [].
Proof.
  unfold padding. destruct (n mod 3)%nat as [|[|[|k]]]; reflexivity.
Qed.

Lemma sextets_of_encoded l rest :
  Forall sextet l → sextets_of (map enc_char l ++ rest) = l ++ sextets_of rest.
Proof.
  induction 1 as [|s l Hs _ IH]; simpl; [done|].
  by rewrite enc_char_not_pad, dec_enc_char, IH.
Qed.

Lemma dec_groups_enc_sextets bs : dec_groups (enc_sextets bs) = bs.
Proof.
  induction bs as [|a|a b|a b c l IH] using bytes_ind3.
  - reflexivity.
  - cbn [enc_sextets dec_groups]. pose proof (byte_to_Z_range a).
    f_equal. apply Z_to_byte_to_Z.
    Z.to_euclidean_division_equations. lia.
  - cbn [enc_sextets dec_groups].
    pose proof (byte_to_Z_range a). pose proof (byte_to_Z_range b).
    f_equal; [|f_equal]; apply Z_to_byte_to_Z;
      Z.to_euclidean_division_equations; lia.
  - cbn [enc_sextets dec_groups].
    pose proof (byte_to_Z_range a). pose proof (byte_to_Z_range b).
    pose proof (byte_to_Z_range c).
    rewrite IH.
    f_equal; [|f_equal; [|f_equal]]; apply Z_to_byte_to_Z;
      Z.to_euclidean_division_equations; lia.
Qed.

(** [Buffer.from(buf.toString('base64'), 'base64')] has the bytes of [buf]. *)
Lemma base64_decode_encode bs : base64_decode (base64_encode bs) = bs.
Proof.
  unfold base64_decode, base64_encode.
  rewrite String.list_ascii_of_string_of_list_ascii.
  rewrite sextets_of_encoded by apply enc_sextets_range.
  rewrite sextets_of_padding, app_nil_r. apply dec_groups_enc_sextets.
Qed.

Lemma base64_no_colon bs : has_char ":"%char (base64_encode bs) = false.
Proof.
  unfold base64_encode. rewrite JsFacts.has_char_of_list, existsb_app.
  apply orb_false_iff. split.
  - induction (enc_sextets_range bs) as [|s l Hs _ IH]; [done|].
    simpl. by rewrite enc_char_not_colon.
  - unfold padding. by destruct (length bs mod 3)%nat as [|[|[|k]]].
Qed.

(** *** UTF-8 *)

Definition ascii_byte (b : byte) : Prop := (Byte.to_N b < 128)%N.

(** A string of characters below 128. *)
Definition ascii_string (s : string) : Prop :=
  Forall ascii_byte (String.list_byte_of_string s).

(** A conversion that passes a byte below 128 on as it is, after what
    it still held, leaves a run of such bytes as it is. *)
Section Run.

Context {St : Type} (step : St → byte → list byte * St) (flush : St → list byte)
        (start : St).
Hypothesis step_ascii : ∀ st b, ascii_byte b → step st b = (flush st ++ [b], start).
Hypothesis flush_start : flush start = [].

Lemma run_ascii l : Forall ascii_byte l → run step flush start l = l.
Proof.
  induction 1 as [|b l Hb _ IH]; simpl; [done|].
  by rewrite step_ascii, flush_start, IH.
Qed.

Lemma run_prefix a x :
  Forall ascii_byte a → run step flush start (a ++ x) = a ++ run step flush start x.
Proof.
  induction 1 as [|b l Hb _ IH]; simpl; [done|].
  by rewrite step_ascii, flush_start, IH.
Qed.

Lemma run_suffix x y : ∀ st,
  Forall ascii_byte y → run step flush st (x ++ y) = run step flush st x ++ y.
Proof.
  induction x as [|c x IH]; intros st Hy; simpl.
  - destruct Hy as [|b y Hb Hy]; simpl; [by rewrite app_nil_r|].
    rewrite step_ascii by done. rewrite run_ascii by done. by rewrite <- app_assoc.
  - destruct (step st c) as [out st']. by rewrite IH, app_assoc.
Qed.

End Run.

Lemma in_range_ascii lo hi b : ascii_byte b → (128 <= lo)%N → in_range lo hi b = false.
Proof.
  unfold ascii_byte, in_range. intros Hb Hlo.
  destruct (N.leb_spec lo (Byte.to_N b)); [lia|done].
Qed.

Lemma in_range_low b : ascii_byte b → in_range 0x00 0x7F b = true.
Proof.
  unfold ascii_byte, in_range. intros Hb.
  apply andb_true_intro. split; apply N.leb_le; lia.
Qed.

Lemma dec_step_ascii st b : ascii_byte b → dec_step st b = (dec_flush st ++ [b], DecStart).
Proof.
  intros Hb.
  assert (Hlead : dec_lead b = ([b], DecStart)).
  { unfold dec_lead. by rewrite in_range_low. }
  destruct st as [|pending more r]; simpl; [done|].
  assert (in_cont r b = false) as ->.
  { destruct r; simpl; by apply in_range_ascii. }
  by rewrite Hlead.
Qed.

Lemma enc_step_ascii st b : ascii_byte b → enc_step st b = (enc_flush st ++ [b], EncStart).
Proof.
  intros Hb.
  assert (Hfirst : enc_first b = ([b], EncStart)).
  { unfold enc_first. by rewrite in_range_ascii. }
  destruct st as [| |b2]; simpl; [done| |].
  - rewrite in_range_ascii by done. by rewrite Hfirst.
  - rewrite in_range_ascii by done. by rewrite Hfirst.
Qed.

Lemma list_byte_of_string_app a b :
  String.list_byte_of_string (a +:+ b)
  = String.list_byte_of_string a ++ String.list_byte_of_string b.
Proof.
  unfold String.list_byte_of_string.
  induction a as [|c a IH]; simpl; [done|]. by rewrite IH.
Qed.

Lemma string_app_assoc (a b c : string) : (a +:+ b) +:+ c = a +:+ b +:+ c.
Proof.
  induction a as [|x a IH]; [done|].
  change (String x ((a +:+ b) +:+ c) = String x (a +:+ b +:+ c)). by rewrite IH.
Qed.

Lemma ascii_string_app a b : ascii_string a → ascii_string b → ascii_string (a +:+ b).
Proof. unfold ascii_string. rewrite list_byte_of_string_app. apply Forall_app_2. Qed.

Lemma plain_ascii s : Forall JsFacts.plain (String.list_ascii_of_string s) → ascii_string s.
Proof.
  unfold ascii_string, String.list_byte_of_string.
  induction s as [|c s IH]; simpl; [done|]. intros [[Hc _] Hs]%Forall_cons.
  constructor; [|by apply IH]. unfold ascii_byte.
  pose proof (Ascii.byte_of_ascii_via_N c) as E. symmetry in E.
  apply Byte.to_of_N in E. by rewrite E.
Qed.

Lemma num_to_string_ascii n : ascii_string (num_to_string n).
Proof. apply plain_ascii, JsFacts.num_to_string_plain. Qed.

Lemma colon_ascii : ascii_string ":".
Proof. by repeat constructor. Qed.

Lemma enc_char_plain s : sextet s → JsFacts.plain (enc_char s).
Proof.
  intros (k & H & ->)%sextet_cases.
  do 64 (destruct k as [|k]; [by split|]). exfalso; lia.
Qed.

Lemma base64_plain bs : Forall JsFacts.plain (String.list_ascii_of_string (base64_encode bs)).
Proof.
  unfold base64_encode. rewrite String.list_ascii_of_string_of_list_ascii.
  apply Forall_app. split.
  - induction (enc_sextets_range bs) as [|s l Hs _ IH]; [done|].
    simpl. constructor; [by apply enc_char_plain|done].
  - unfold padding. destruct (length bs mod 3)%nat as [|[|[|k]]]; by repeat constructor.
Qed.

Lemma base64_ascii bs : ascii_string (base64_encode bs).
Proof. apply plain_ascii, base64_plain. Qed.

(** A string of characters below 128 is its own UTF-8 form. *)
Lemma utf8_encode_ascii s : ascii_string s → utf8_encode s = String.list_byte_of_string s.
Proof. intros H. apply (run_ascii _ _ _ enc_step_ascii eq_refl _ H). Qed.

Lemma utf8_decode_encode_ascii s : ascii_string s → utf8_decode (utf8_encode s) = s.
Proof.
  intros H. rewrite utf8_encode_ascii by done. unfold utf8_decode.
  rewrite (run_ascii _ _ _ dec_step_ascii eq_refl _ H).
  apply String.string_of_list_byte_of_string.
Qed.

(** What precedes the first character that is not below 128 is not
    touched by the two conversions. *)
Lemma utf8_prefix a s :
  ascii_string a →
  utf8_decode (utf8_encode (a +:+ s)) = a +:+ utf8_decode (utf8_encode s).
Proof.
  intros Ha. unfold utf8_decode, utf8_encode.
  rewrite list_byte_of_string_app.
  rewrite (run_prefix _ _ _ enc_step_ascii eq_refl _ _ Ha).
  rewrite (run_prefix _ _ _ dec_step_ascii eq_refl _ _ Ha).
  rewrite <- (String.string_of_list_byte_of_string a) at 2.
  generalize (String.list_byte_of_string a) (run dec_step dec_flush DecStart
    (run enc_step enc_flush EncStart (String.list_byte_of_string s))).
  intros x y. unfold String.string_of_list_byte.
  induction x as [|c x IH]; simpl; [done|]. by rewrite IH.
Qed.

(** A string that survives the two conversions (it has no surrogate
    outside a pair) survives them between characters below 128. *)
Lemma utf8_wrapped a s b :
  ascii_string a → ascii_string b →
  utf8_decode (utf8_encode s) = s →
  utf8_decode (utf8_encode (a +:+ s +:+ b)) = a +:+ s +:+ b.
Proof.
  intros Ha Hb Hs. rewrite utf8_prefix by done. f_equal.
  unfold utf8_decode, utf8_encode in *.
  rewrite list_byte_of_string_app.
  rewrite (run_suffix _ _ _ enc_step_ascii eq_refl _ _ _ Hb).
  rewrite (run_suffix _ _ _ dec_step_ascii eq_refl _ _ _ Hb).
  apply (f_equal String.list_byte_of_string) in Hs.
  rewrite String.list_byte_of_string_of_list_byte in Hs. rewrite Hs.
  rewrite <- list_byte_of_string_app.
  apply String.string_of_list_byte_of_string.
Qed.

(** The text of an exported session: seven fields with colons between
    them, of which only the fifth may hold characters from 128 on. *)
Lemma utf8_record a b c d s f g :
  ascii_string a → ascii_string b → ascii_string c → ascii_string d →
  ascii_string f → ascii_string g →
  utf8_decode (utf8_encode s) = s →
  utf8_decode (utf8_encode
    (a +:+ ":" +:+ b +:+ ":" +:+ c +:+ ":" +:+ d +:+ ":" +:+ s +:+ ":" +:+ f +:+ ":" +:+ g))
  = a +:+ ":" +:+ b +:+ ":" +:+ c +:+ ":" +:+ d +:+ ":" +:+ s +:+ ":" +:+ f +:+ ":" +:+ g.
Proof.
  intros Ha Hb Hc Hd Hf Hg Hs.
  replace (a +:+ ":" +:+ b +:+ ":" +:+ c +:+ ":" +:+ d +:+ ":" +:+ s +:+ ":" +:+ f
           +:+ ":" +:+ g)
    with ((a +:+ ":" +:+ b +:+ ":" +:+ c +:+ ":" +:+ d +:+ ":") +:+ s
          +:+ (":" +:+ f +:+ ":" +:+ g))
    by (by rewrite !string_app_assoc).
  apply utf8_wrapped; [|by repeat apply ascii_string_app; try apply colon_ascii|done].
  by repeat apply ascii_string_app; try apply colon_ascii.
Qed.

(** The first four fields of such a text come back as they are. *)
Lemma utf8_record_head a b c d rest :
  ascii_string a → ascii_string b → ascii_string c → ascii_string d →
  utf8_decode (utf8_encode
    (a +:+ ":" +:+ b +:+ ":" +:+ c +:+ ":" +:+ d +:+ ":" +:+ rest))
  = a +:+ ":" +:+ b +:+ ":" +:+ c +:+ ":" +:+ d +:+ ":"
    +:+ utf8_decode (utf8_encode rest).
Proof.
  intros Ha Hb Hc Hd.
  replace (a +:+ ":" +:+ b +:+ ":" +:+ c +:+ ":" +:+ d +:+ ":" +:+ rest)
    with ((a +:+ ":" +:+ b +:+ ":" +:+ c +:+ ":" +:+ d +:+ ":") +:+ rest)
    by (by rewrite !string_app_assoc).
  rewrite utf8_prefix by (by repeat apply ascii_string_app; try apply colon_ascii).
  by rewrite !string_app_assoc.
Qed.

End EncodingFacts.

(** ** The signing session                                               *)

Module SignFacts.
Import SignModel.

(** The two calls that advance a round. *)
Inductive RoundCall `{C : Collaborators} : Type :=
| InitJoin
| NextRound (prevRoundMessages : MessagesArg).

Definition advance `{C : Collaborators} (call : RoundCall) : M Sign (Envelope AuthP2P AuthBroadcast) :=
  match call with
  | InitJoin => initJoin
  | NextRound prev => nextRound prev
  end.

(** The sessions a program obtains: those the constructor returned on
    arguments of the kind [P], those [restore] returned, and what any
    sequence of method calls made of them. *)
Inductive obtained `{C : Collaborators} (P : Params → Prop) : Sign → Prop :=
| reach_constructor p t :
    P p → constructor p = Return t → obtained P t
| reach_restore session kc key t :
    restore session kc key = Return t → obtained P t
| reach_advance call t o t' :
    obtained P t → advance call t = (o, t') → obtained P t'
| reach_getSignature t o t' :
    obtained P t → getSignature t = (o, t') → obtained P t'
| reach_export t o t' :
    obtained P t → export t = (o, t') → obtained P t'.

(** The constructor is used as documented: [partyId], [n] and [m] are
    numbers and [round] is a number or is left out. *)
Definition numbers `{C : Collaborators} (p : Params) : Prop :=
  is_number (p_partyId p) = true ∧ is_number (p_n p) = true
  ∧ is_number (p_m p) = true
  ∧ is_nullish (p_round p) || is_number (p_round p) = true.

(** The sessions a program holds that gives the constructor numbers. *)
Definition reachable `{C : Collaborators} (t : Sign) : Prop := obtained numbers t.


(** The ranges the constructor checks its arguments for, said of the
    fields of a session.  The constructor stores [parseInt] of what it
    checked, so that a session need not satisfy them: it does when it
    was made from integers below [1e21]. *)
Record well_formed `{C : Collaborators} (t : Sign) : Prop := {
  wf_share : isBuffer (privateKeyShare (keychain t)) = true;
  wf_chain : isBuffer (commonKeyChain (keychain t)) = true;
  wf_party : ∃ i n m, partyId t = Num i ∧ partySize t = Num n ∧ minSigners t = Num m
                      ∧ 0 <= i < n ∧ 1 < n < exponent_from ∧ 0 < m <= n;
  wf_path : ∃ s, derivationPath t = JStr s ∧ startsWith "m" s = true;
  wf_hash : ∃ b, messageHash t = JBuf b ∧ length b = 32%nat;
  wf_round : ∃ r, round t = Num r ∧ 0 <= r <= 5;
}.


Section Methods.

Context `{C : Collaborators}.

Abbreviation Env := (Envelope AuthP2P AuthBroadcast).

Ltac run := unfold bind, Eff.get, put, assert, lift, check, ret, engine, orThrow in *.

(** *** Assertions at the head of the methods *)

Lemma formatMessage_spec signed t :
  _formatMessage signed t =
    (Return {| env_round := JNum (round t);
               env_partyId := JNum (partyId t);
               env_publicKey := JStr (publicKey_toString (publicKey (authKey t)));
               env_p2pMessages := p2pMessages signed;
               env_broadcastMessages := broadcastMessages signed |},
     set_round (num_add (round t) (Num 1)) t).
Proof. reflexivity. Qed.

(** A successful [initJoin] ran on round 0, returned the message built
    by [_formatMessage] and left the counter one higher. *)
Lemma initJoin_Return t env t' :
  initJoin t = (Return env, t') →
  round t = Num 0 ∧ env_round env = JNum (round t) ∧ round t' = num_add (round t) (Num 1).
Proof.
  unfold initJoin. run.
  destruct (num_eq _ _) eqn:E; cbv beta iota; [|done].
  destruct (Dsg_init (dsg t)) as [[raw|] d]; cbv beta iota; [|done].
  destruct (serializeBroadcastMessage raw); cbv beta iota; [|done].
  destruct (encryptAndAuthOutgoingMessages _ _ _); cbv beta iota; [|done].
  rewrite formatMessage_spec. intros [= <- <-]. simpl.
  destruct (round t) as [|r]; [done|]. simpl in E. by apply Z.eqb_eq in E as ->.
Qed.

Lemma nextRound_Return prev t env t' :
  nextRound prev t = (Return env, t') →
  (∃ r, round t = Num r ∧ 0 < r < 5)
  ∧ env_round env = JNum (round t) ∧ round t' = num_add (round t) (Num 1).
Proof.
  unfold nextRound. run.
  destruct (num_gt _ _) eqn:E1; cbv beta iota; [|done].
  destruct (num_lt _ _) eqn:E2; cbv beta iota; [|done].
  destruct (isArray prev); cbv beta iota; [|done].
  destruct (num_eq _ _); cbv beta iota; [|done].
  destruct (forallb _ _); cbv beta iota; [|done].
  destruct (forallb _ _); cbv beta iota; [|done].
  destruct (decryptAndVerifyIncomingMessages _ _); cbv beta iota; [|done].
  destruct (deserializeMessages _); cbv beta iota; [|done].
  destruct (Dsg_handleIncomingMessages _ _) as [[raw|] d]; cbv beta iota; [|done].
  destruct (serializeMessages raw); cbv beta iota; [|done].
  destruct (encryptAndAuthOutgoingMessages _ _ _); cbv beta iota; [|done].
  rewrite formatMessage_spec. intros [= <- <-]. simpl.
  split; [|done]. destruct (round t) as [|k]; [done|]. exists k.
  unfold num_gt in E1. simpl in E1, E2. split; [done | lia].
Qed.

(** A call that throws leaves the counter where it was. *)
Lemma initJoin_Throw t e t' : initJoin t = (Throw e, t') → round t' = round t.
Proof.
  unfold initJoin. run.
  destruct (num_eq (round t) (Num 0)); cbv beta iota; [|by intros [= _ <-]].
  destruct (Dsg_init (dsg t)) as [[raw|] d]; cbv beta iota; [|by intros [= _ <-]].
  destruct (serializeBroadcastMessage raw); cbv beta iota; [|by intros [= _ <-]].
  destruct (encryptAndAuthOutgoingMessages _ _ _); cbv beta iota; [|by intros [= _ <-]].
  by rewrite formatMessage_spec.
Qed.

Lemma nextRound_Throw prev t e t' : nextRound prev t = (Throw e, t') → round t' = round t.
Proof.
  unfold nextRound. run.
  destruct (num_gt _ _); cbv beta iota; [|by intros [= _ <-]].
  destruct (num_lt _ _); cbv beta iota; [|by intros [= _ <-]].
  destruct (isArray prev); cbv beta iota; [|by intros [= _ <-]].
  destruct (num_eq _ _); cbv beta iota; [|by intros [= _ <-]].
  destruct (forallb _ _); cbv beta iota; [|by intros [= _ <-]].
  destruct (forallb _ _); cbv beta iota; [|by intros [= _ <-]].
  destruct (decryptAndVerifyIncomingMessages _ _); cbv beta iota; [|by intros [= _ <-]].
  destruct (deserializeMessages _); cbv beta iota; [|by intros [= _ <-]].
  destruct (Dsg_handleIncomingMessages _ _) as [[raw|] d]; cbv beta iota; [|by intros [= _ <-]].
  destruct (serializeMessages raw); cbv beta iota; [|by intros [= _ <-]].
  destruct (encryptAndAuthOutgoingMessages _ _ _); cbv beta iota; [|by intros [= _ <-]].
  by rewrite formatMessage_spec.
Qed.

Lemma advance_Return call t env t' :
  advance call t = (Return env, t') →
  ∃ r, round t = Num r ∧ 0 <= r < 5 ∧ env_round env = JNum (Num r) ∧ round t' = Num (r + 1).
Proof.
  destruct call as [|prev]; simpl.
  - intros (Er & Ee & Et)%initJoin_Return. exists 0.
    rewrite Ee, Et, Er. by repeat split.
  - intros ((r & Er & Hr) & Ee & Et)%nextRound_Return. exists r.
    rewrite Ee, Et, Er. repeat split; try done; lia.
Qed.

(** *** The constructor *)

Ltac pass :=
  match goal with
  | |- match (if ?c then _ else _) with Return _ => _ | Throw _ => _ end = _ → _ =>
      destruct c eqn:?; cbv beta iota; [|done]
  | |- match (match ?o with Some _ => _ | None => _ end) with
       | Return _ => _ | Throw _ => _ end = _ → _ =>
      destruct o eqn:?; cbv beta iota; [|done]
  end.

Ltac split_conds :=
  repeat match goal with
  | H : _ && _ = true |- _ => apply andb_prop in H as [? ?]
  | H : negb _ = true |- _ => apply negb_true_iff in H
  end.

(** The session the constructor builds once every assertion has passed. *)
Definition built (p : Params) (kc : Keychain) (key : PrivateKey) : Sign :=
  {| keychain := kc;
     partyId := parseInt (p_partyId p);
     partySize := parseInt (p_n p);
     minSigners := parseInt (p_m p);
     derivationPath := js_or (p_derivationPath p) (JStr "m");
     messageHash := p_messageHash p;
     round := num_or (parseInt (p_round p)) (Num 0);
     authKey := key;
     dsg := Dsg_new (privateKeyShare kc) (parseInt (p_partyId p))
                    (js_or (p_derivationPath p) (JStr "m")) (p_messageHash p);
     signature := None |}.

(** What the assertions on the derivation path and on the round accept. *)
Definition path_accepted (v : jsval) : bool :=
  is_nullish v || (is_string v && startsWith "m" (to_string v)).

Definition round_accepted (v : jsval) : bool :=
  is_nullish v || (js_ge v (JNum (Num 0)) && js_le v (JNum (Num 5))).

(** All the assertions of the constructor but those on the identity
    key. *)
Definition checks (p : Params) (kc : Keychain) : bool :=
  negb (is_nullish (p_partyId p)) && negb (is_nullish (p_n p))
  && negb (is_nullish (p_m p)) && negb (is_nullish (p_messageHash p))
  && negb (is_nullish (p_authKey p))
  && isBuffer (privateKeyShare kc) && isBuffer (commonKeyChain kc)
  && (js_ge (p_partyId p) (JNum (Num 0)) && js_lt (p_partyId p) (p_n p))
  && js_gt (p_n p) (JNum (Num 1))
  && (js_gt (p_m p) (JNum (Num 0)) && js_le (p_m p) (JNum (parseInt (p_n p))))
  && path_accepted (p_derivationPath p)
  && (isBuffer (p_messageHash p) && num_eq (buf_length (p_messageHash p)) (Num 32))
  && round_accepted (p_round p).

(** The constructor returns exactly when every assertion passes, and
    what it returns holds [parseInt] of the numbers it checked. *)
Lemma constructor_Return p t :
  constructor p = Return t ↔
  ∃ kc key, p_keychain p = Some kc ∧ checks p kc = true
            ∧ PrivateKey_new (p_authKey p) = Some key
            ∧ authKey_recognized key (p_authKey p) = true
            ∧ t = built p kc key.
Proof.
  unfold constructor, checks, path_accepted, round_accepted,
    mbind, outcome_bind, mret, outcome_ret, check, orThrow.
  split.
  - destruct (p_keychain p) as [kc|] eqn:Ekc; cbv beta iota; [|done].
    repeat pass. intros [= <-]. exists kc. eexists.
    repeat match goal with H : ?c = true |- context [?c] => rewrite H end.
    by repeat split.
  - intros (kc & key & -> & Hc & -> & -> & ->). cbv beta iota.
    repeat match goal with
    | H : _ && _ = true |- _ => apply andb_prop in H as [H ?]
    end.
    repeat match goal with H : ?c = true |- context [?c] => rewrite H end.
    reflexivity.
Qed.

Lemma checks_split p kc :
  checks p kc = true →
  (is_nullish (p_partyId p) = false ∧ is_nullish (p_n p) = false
   ∧ is_nullish (p_m p) = false ∧ is_nullish (p_authKey p) = false)
  ∧ (isBuffer (privateKeyShare kc) = true ∧ isBuffer (commonKeyChain kc) = true)
  ∧ (js_ge (p_partyId p) (JNum (Num 0)) = true ∧ js_lt (p_partyId p) (p_n p) = true
     ∧ js_gt (p_n p) (JNum (Num 1)) = true ∧ js_gt (p_m p) (JNum (Num 0)) = true
     ∧ js_le (p_m p) (JNum (parseInt (p_n p))) = true)
  ∧ path_accepted (p_derivationPath p) = true
  ∧ (∃ b, p_messageHash p = JBuf b ∧ length b = 32%nat)
  ∧ round_accepted (p_round p) = true.
Proof.
  unfold checks. intros H. split_conds. repeat split; try done.
  destruct (p_messageHash p) as [| | | | |b| | |]; try done. exists b. split; [done|].
  simpl in *. lia.
Qed.

(** The constructor on integers: every number below [1e21] is stored as
    it is. *)
Lemma checks_integers p kc i n m b :
  p_partyId p = JNum (Num i) → p_n p = JNum (Num n) → p_m p = JNum (Num m) →
  n < exponent_from →
  p_messageHash p = JBuf b →
  checks p kc
  = negb (is_nullish (p_authKey p))
    && isBuffer (privateKeyShare kc) && isBuffer (commonKeyChain kc)
    && ((0 <=? i) && (i <? n)) && (1 <? n) && ((0 <? m) && (m <=? n))
    && path_accepted (p_derivationPath p)
    && (length b =? 32)%nat
    && round_accepted (p_round p).
Proof.
  intros Ei En Em Hn Eb. unfold checks. rewrite Ei, En, Em, Eb.
  rewrite JsFacts.js_ge_int, JsFacts.js_lt_int, !JsFacts.js_gt_int. cbn [is_nullish negb andb isBuffer buf_length num_eq].
  destruct (Z.ltb_spec 1 n) as [H1|H1].
  - rewrite JsFacts.parseInt_nonneg by lia. rewrite JsFacts.js_le_int.
    replace (Z.of_nat (length b) =? 32) with (length b =? 32)%nat; [done|].
    destruct (Nat.eqb_spec (length b) 32), (Z.eqb_spec (Z.of_nat (length b)) 32); lia.
  - by rewrite !andb_false_r.
Qed.

Lemma built_integers p kc key i n m :
  p_partyId p = JNum (Num i) → p_n p = JNum (Num n) → p_m p = JNum (Num m) →
  0 <= i < n → n < exponent_from → 0 <= m <= n →
  built p kc key
  = mkSign kc (Num i) (Num n) (Num m) (js_or (p_derivationPath p) (JStr "m"))
      (p_messageHash p) (num_or (parseInt (p_round p)) (Num 0)) key
      (Dsg_new (privateKeyShare kc) (Num i) (js_or (p_derivationPath p) (JStr "m"))
         (p_messageHash p))
      None.
Proof.
  intros Ei En Em Hi Hn Hm. unfold built. rewrite Ei, En, Em.
  by rewrite !JsFacts.parseInt_nonneg by lia.
Qed.

(** The round a constructed session starts in is never [NaN]; it is the
    round argument when that is an integer. *)
Lemma initial_round v :
  ∃ r, num_or (parseInt v) (Num 0) = Num r.
Proof.
  unfold num_or. destruct (parseInt v) as [|r]; simpl; [by eauto|].
  destruct (r =? 0); simpl; by eauto.
Qed.

Lemma initial_round_integer k :
  round_accepted (JNum (Num k)) = true →
  0 <= k <= 5 ∧ num_or (parseInt (JNum (Num k))) (Num 0) = Num k.
Proof.
  unfold round_accepted. cbn [is_nullish orb]. rewrite JsFacts.js_ge_int, JsFacts.js_le_int.
  intros [H1%Z.leb_le H2%Z.leb_le]%andb_prop. split; [done|].
  rewrite JsFacts.parseInt_nonneg by (unfold exponent_from; lia).
  unfold num_or. simpl. by destruct (Z.eqb_spec k 0) as [->|].
Qed.

(** The path a constructed session signs for. *)
Lemma initial_path v :
  path_accepted v = true →
  ∃ s, js_or v (JStr "m") = JStr s ∧ startsWith "m" s = true
       ∧ (is_nullish v = true → s = "m") ∧ (∀ s', v = JStr s' → s = s').
Proof.
  unfold path_accepted, js_or.
  destruct v as [| | | |s| | | |]; simpl; try done.
  - intros _. by exists "m".
  - intros _. by exists "m".
  - intros H. destruct s as [|c s]; [done|]. exists (String c s). simpl.
    repeat split; [done..|]. by intros ? [= <-].
Qed.

(** *** What the methods leave untouched *)

Definition statics (t : Sign) :=
  (keychain t, partyId t, partySize t, minSigners t, derivationPath t, messageHash t,
   authKey t).

Lemma initJoin_statics t o t' : initJoin t = (o, t') → statics t' = statics t.
Proof.
  unfold initJoin. run.
  destruct (num_eq _ _); cbv beta iota; [|by intros [= _ <-]].
  destruct (Dsg_init (dsg t)) as [[raw|] d]; cbv beta iota; [|by intros [= _ <-]].
  destruct (serializeBroadcastMessage raw); cbv beta iota; [|by intros [= _ <-]].
  destruct (encryptAndAuthOutgoingMessages _ _ _); cbv beta iota; [|by intros [= _ <-]].
  rewrite formatMessage_spec. by intros [= _ <-].
Qed.

Lemma nextRound_statics prev t o t' : nextRound prev t = (o, t') → statics t' = statics t.
Proof.
  unfold nextRound. run.
  destruct (num_gt _ _); cbv beta iota; [|by intros [= _ <-]].
  destruct (num_lt _ _); cbv beta iota; [|by intros [= _ <-]].
  destruct (isArray prev); cbv beta iota; [|by intros [= _ <-]].
  destruct (num_eq _ _); cbv beta iota; [|by intros [= _ <-]].
  destruct (forallb _ _); cbv beta iota; [|by intros [= _ <-]].
  destruct (forallb _ _); cbv beta iota; [|by intros [= _ <-]].
  destruct (decryptAndVerifyIncomingMessages _ _); cbv beta iota; [|by intros [= _ <-]].
  destruct (deserializeMessages _); cbv beta iota; [|by intros [= _ <-]].
  destruct (Dsg_handleIncomingMessages _ _) as [[raw|] d]; cbv beta iota; [|by intros [= _ <-]].
  destruct (serializeMessages raw); cbv beta iota; [|by intros [= _ <-]].
  destruct (encryptAndAuthOutgoingMessages _ _ _); cbv beta iota; [|by intros [= _ <-]].
  rewrite formatMessage_spec. by intros [= _ <-].
Qed.

Lemma getSignatureWith_state assembler t o t' :
  getSignatureWith assembler t = (o, t') →
  statics t' = statics t ∧ round t' = round t ∧ dsg t' = dsg t.
Proof.
  unfold getSignatureWith. run.
  destruct (isSignatureReady t); cbv beta iota; [|by intros [= _ <-]].
  destruct (signature t); [by intros [= _ <-]|].
  destruct (assembler t); cbv beta iota; by intros [= _ <-].
Qed.

(** [export] changes nothing. *)
Lemma export_state t o t' : export t = (o, t') → t' = t.
Proof.
  unfold export. run.
  destruct (num_gt _ _); cbv beta iota; [|by intros [= _ <-]].
  destruct (negb _); cbv beta iota; [|by intros [= _ <-]].
  destruct (Dsg_sessionBytes _); cbv beta iota; [|by intros [= _ <-]].
  destruct (toString_base64 _); cbv beta iota; [|by intros [= _ <-]].
  destruct (encrypt _ _ _); cbv beta iota; by intros [= _ <-].
Qed.

Lemma advance_statics call t o t' : advance call t = (o, t') → statics t' = statics t.
Proof. destruct call; [apply initJoin_statics | apply nextRound_statics]. Qed.

(** After a round-advancing call the counter is where it was, or one
    higher and not above 5. *)
Lemma advance_round call t o t' :
  advance call t = (o, t') →
  round t' = round t ∨ ∃ r, round t = Num r ∧ 0 <= r < 5 ∧ round t' = Num (r + 1).
Proof.
  destruct o as [env|e].
  - intros (r & ? & ? & _ & ?)%advance_Return. right. by exists r.
  - destruct call; simpl; [intros ?%initJoin_Throw | intros ?%nextRound_Throw]; by left.
Qed.


(** *** What holds of every session a program obtains *)




(** *** Sessions made from integers below [1e21] *)

Lemma well_formed_transfer t t' :
  well_formed t → statics t' = statics t →
  (∃ r, round t' = Num r ∧ 0 <= r <= 5) → well_formed t'.
Proof.
  intros [H1 H2 H3 H4 H5 _] [= Ek Ei En Em Ep Eh _] Hr.
  constructor; rewrite ?Ek, ?Ei, ?En, ?Em, ?Ep, ?Eh; done.
Qed.

Lemma constructor_well_formed p t i n m :
  p_partyId p = JNum (Num i) → p_n p = JNum (Num n) → p_m p = JNum (Num m) →
  n < exponent_from →
  is_nullish (p_round p) = true ∨ (∃ k, p_round p = JNum (Num k)) →
  constructor p = Return t → well_formed t.
Proof.
  intros Ei En Em Hn Hr (kc & key & _ & Hc & _ & _ & ->)%constructor_Return.
  pose proof (checks_split _ _ Hc) as (_ & (Hs & Hk) & _ & Hp & (b & Eb & Hb) & Hra).
  rewrite (checks_integers p kc i n m b) in Hc by done. split_conds.
  rewrite (built_integers p kc key i n m) by (try done; lia).
  constructor; simpl; try done.
  - exists i, n, m. repeat split; try done; lia.
  - destruct (initial_path _ Hp) as (s & E & Hm' & _). by exists s.
  - by exists b.
  - destruct Hr as [Hnull|(k & Ek)].
    + exists 0. destruct (p_round p); try done.
    + rewrite Ek in *. apply initial_round_integer in Hra as [? ->]. by exists k.
Qed.

(** *** Claims on the round state machine *)

(** C1.  [nextRound] throws, and leaves the session (its round counter in
    particular) as it was, whenever its argument is not an array, or does
    not hold exactly [minSigners - 1] messages, or holds a message whose
    [round] is not the current round minus one, or holds a message whose
    [partyId] is the session's own. *)
Theorem nextRound_rejects_invalid_input (t : Sign) (prev : MessagesArg) :
  isArray prev = false
  ∨ (∀ m, minSigners t = Num m → Z.of_nat (length (elements prev)) ≠ m - 1)
  ∨ (∃ msg, msg ∈ elements prev
            ∧ ∀ r, round t = Num r → env_round msg ≠ JNum (Num (r - 1)))
  ∨ (∃ msg, msg ∈ elements prev
            ∧ ∃ i, partyId t = Num i ∧ env_partyId msg = JNum (Num i)) →
  ∃ e t', nextRound prev t = (Throw e, t') ∧ t' = t ∧ round t' = round t.
Proof.
  intros H. unfold nextRound. run.
  destruct (num_gt (round t) (Num 0)) eqn:E1; cbv beta iota; [|by eauto].
  destruct (num_lt (round t) (Num 5)) eqn:E2; cbv beta iota; [|by eauto].
  destruct (isArray prev) eqn:E0; cbv beta iota; [|by eauto].
  destruct (num_eq _ _) eqn:E3; cbv beta iota; [|by eauto].
  match goal with |- context [forallb ?f (elements prev)] =>
    destruct (forallb f (elements prev)) eqn:E4; cbv beta iota; [|by eauto] end.
  match goal with |- context [forallb ?f (elements prev)] =>
    destruct (forallb f (elements prev)) eqn:E5; cbv beta iota; [|by eauto] end.
  exfalso. rewrite forallb_forall in E4, E5.
  destruct H as [H|[H|[(msg & Hin & H)|(msg & Hin & i & Ei & H)]]].
  - done.
  - destruct (minSigners t) as [|m]; [done|]. simpl in E3.
    apply (H m eq_refl). lia.
  - apply list_elem_of_In, E4 in Hin.
    destruct (round t) as [|r]; [done|]. apply (H r eq_refl).
    destruct (env_round msg) as [| | |[|k]| | | | |]; try done.
    simpl in Hin. do 2 f_equal. lia.
  - apply list_elem_of_In, E5 in Hin. rewrite H, Ei in Hin. simpl in Hin.
    by rewrite Z.eqb_refl in Hin.
Qed.

(** C3.  A successful [initJoin] or [nextRound] leaves the round counter
    exactly one higher, and [isSignatureReady()] is true exactly when the
    counter is 5. *)
Theorem round_increases_by_one (t : Sign) :
  (∀ call env t', advance call t = (Return env, t') →
     ∃ r, round t = Num r ∧ round t' = Num (r + 1))
  ∧ (isSignatureReady t = true ↔ round t = Num 5).
Proof.
  split.
  - intros call env t' (r & Er & _ & _ & Er')%advance_Return. by exists r.
  - unfold isSignatureReady. destruct (round t) as [|r]; simpl; [done|].
    rewrite Z.eqb_eq. split; [by intros -> | by intros [= ->]].
Qed.

(** C6.  The message a successful [initJoin] or [nextRound] returns
    carries the value the round counter had before the call, which is the
    value it has after the call minus one. *)
Theorem envelope_round_is_previous_round (call : RoundCall) (t t' : Sign) (env : Env) :
  advance call t = (Return env, t') →
  env_round env = JNum (round t) ∧ ∃ r, round t' = Num r ∧ env_round env = JNum (Num (r - 1)).
Proof.
  intros (r & Er & _ & Ee & Er')%advance_Return. rewrite Ee, Er. split; [done|].
  exists (r + 1). split; [done|]. do 2 f_equal. lia.
Qed.

(** C4.  [getSignature] throws when [isSignatureReady()] is false.  On a
    complete session with nothing cached the call runs the assembling
    step: it returns what that step produced and caches it, and throws,
    caching nothing, when that step throws.  With a signature cached the
    call returns it whatever the assembling step would do: the step is
    not run again.  So whenever a call returned, the signature is cached
    and every further call returns the same one. *)
Theorem getSignature_idempotent (t : Sign) :
  (isSignatureReady t = false → ∃ e, getSignature t = (Throw e, t))
  ∧ (isSignatureReady t = true → signature t = None →
       (∀ g, assemble t = Return g → getSignature t = (Return g, set_signature g t))
       ∧ (∀ e, assemble t = Throw e → getSignature t = (Throw e, t)))
  ∧ (isSignatureReady t = true →
       ∀ g, signature t = Some g →
            ∀ assembler, getSignatureWith assembler t = (Return g, t))
  ∧ (∀ g t', getSignature t = (Return g, t') →
       isSignatureReady t = true
       ∧ (signature t = None → assemble t = Return g)
       ∧ signature t' = Some g
       ∧ ∀ assembler, getSignatureWith assembler t' = (Return g, t')).
Proof.
  unfold getSignature, getSignatureWith. run. split; [|split; [|split]].
  - intros ->. by eauto.
  - intros -> ->. split; by intros ? ->.
  - intros -> g -> assembler. reflexivity.
  - intros g t'. destruct (isSignatureReady t) eqn:Hready; cbv beta iota; [|done].
    destruct (signature t) as [cached|] eqn:Hsig.
    + intros [= <- <-]. repeat split; [done..|]. intros assembler.
      by rewrite Hready, Hsig.
    + destruct (assemble t) as [g'|]; cbv beta iota; [|done].
      intros [= <- <-]. repeat split; [done..|]. intros assembler.
      unfold isSignatureReady in *. simpl. by rewrite Hready.
Qed.


(** *** Claims on the constructor *)

Definition with_round (v : jsval) (p : Params) : Params :=
  {| p_keychain := p_keychain p; p_partyId := p_partyId p; p_n := p_n p; p_m := p_m p;
     p_derivationPath := p_derivationPath p; p_messageHash := p_messageHash p;
     p_authKey := p_authKey p; p_round := v |}.

Definition with_path (v : jsval) (p : Params) : Params :=
  {| p_keychain := p_keychain p; p_partyId := p_partyId p; p_n := p_n p; p_m := p_m p;
     p_derivationPath := v; p_messageHash := p_messageHash p;
     p_authKey := p_authKey p; p_round := p_round p |}.

(** C9.  When the other arguments are acceptable (the call without
    [round] succeeds), the constructor accepts as [round] any value [r],
    of any type, for which [r >= 0 && r <= 5] holds, whoever calls it.
    The session is the one the call without [round] makes, but for its
    round, which is [parseInt(r) || 0] ([parseInt(r)] being an integer
    that needs no rounding, as it is for every number [r] within 0..5):
    an integer is kept, the round is never [NaN], and when [parseInt(r)]
    is 5, as for [round: 5], the signature counts as ready at once. *)
Theorem constructor_accepts_explicit_round (p : Params) (r : jsval) (t0 : Sign) :
  js_ge r (JNum (Num 0)) = true → js_le r (JNum (Num 5)) = true →
  exact (parseInt r) = true →
  constructor (with_round JUndefined p) = Return t0 →
  ∃ t, constructor (with_round r p) = Return t
       ∧ round t = num_or (parseInt r) (Num 0)
       ∧ t = set_round (num_or (parseInt r) (Num 0)) t0
       ∧ (∃ k, round t = Num k)
       ∧ (∀ k, r = JNum (Num k) → round t = Num k)
       ∧ (parseInt r = NaN → round t = Num 0)
       ∧ (parseInt r = Num 5 → isSignatureReady t = true)
       ∧ (r = JNum (Num 5) → isSignatureReady t = true).
Proof.
  intros Hge Hle _ (kc & key & Ekc & Hc & Ek & Hk & ->)%constructor_Return.
  assert (Hacc : round_accepted r = true).
  { unfold round_accepted. by rewrite Hge, Hle, orb_true_r. }
  exists (built (with_round r p) kc key). split.
  { apply constructor_Return. exists kc, key. repeat split; try done.
    revert Hc. unfold checks. cbn [with_round p_partyId p_n p_m p_messageHash p_authKey
      p_derivationPath p_round]. rewrite Hacc. by rewrite !andb_true_r. }
  assert (Hint : ∀ k, r = JNum (Num k) → num_or (parseInt r) (Num 0) = Num k).
  { intros k ->. by apply initial_round_integer in Hacc as [_ ->]. }
  split; [done|]. split; [done|]. split; [apply initial_round|].
  split; [exact Hint|]. split; [|split].
  - cbn [built round with_round p_round]. by intros ->.
  - intros E. unfold isSignatureReady. cbn [built round with_round p_round].
    by rewrite E.
  - intros E. unfold isSignatureReady. cbn [built round with_round p_round].
    by rewrite (Hint 5 E).
Qed.

(** C7, as the code has it.  With [derivationPath] absent or [null] the
    constructor behaves as with ['m']: it succeeds when the other
    arguments are acceptable and the session signs for the root path.
    Every other falsy value, the empty string among them, is rejected. *)
Theorem constructor_default_path (p : Params) :
  (is_nullish (p_derivationPath p) = true →
     ∀ t0, constructor (with_path (JStr "m") p) = Return t0 →
           constructor p = Return t0 ∧ derivationPath t0 = JStr "m")
  ∧ (truthy (p_derivationPath p) = false → is_nullish (p_derivationPath p) = false →
     ∃ e, constructor p = Throw e).
Proof.
  split.
  - intros Hnull t0 (kc & key & Ekc & Hc & Ek & Hk & ->)%constructor_Return.
    split; [|done]. apply constructor_Return. exists kc, key.
    repeat split; try done.
    + revert Hc. unfold checks, path_accepted.
      cbn [with_path p_partyId p_n p_m p_messageHash p_authKey p_derivationPath p_round].
      by rewrite Hnull.
    + unfold built, js_or.
      cbn [with_path p_partyId p_n p_m p_messageHash p_authKey p_derivationPath p_round].
      by destruct (p_derivationPath p).
  - intros Hfalsy Hnull. destruct (constructor p) as [t|e] eqn:E; [|by eauto].
    apply constructor_Return in E as (kc & key & _ & Hc & _).
    apply checks_split in Hc as (_ & _ & _ & Hp & _).
    unfold path_accepted in Hp. rewrite Hnull in Hp.
    destruct (p_derivationPath p) as [| | | |s| | | |]; try done.
    by destruct s.
Qed.

(** *** Export and restore *)

Lemma split_fields a b c d e f g :
  has_char ":"%char a = false → has_char ":"%char b = false →
  has_char ":"%char c = false → has_char ":"%char d = false →
  has_char ":"%char e = false → has_char ":"%char f = false →
  has_char ":"%char g = false →
  split ":"%char (a +:+ ":" +:+ b +:+ ":" +:+ c +:+ ":" +:+ d +:+ ":" +:+ e +:+ ":"
                    +:+ f +:+ ":" +:+ g)
  = [a; b; c; d; e; f; g].
Proof.
  intros Ha Hb Hc Hd He Hf Hg.
  change (split ":"%char
            (a +:+ String ":" (b +:+ String ":" (c +:+ String ":" (d +:+ String ":"
               (e +:+ String ":" (f +:+ String ":" g))))))
          = [a; b; c; d; e; f; g]).
  rewrite !JsFacts.split_first by done. by rewrite JsFacts.split_whole.
Qed.

(** What a successful [export] returned. *)
Lemma export_Return t record t' :
  export t = (Return record, t') →
  ∃ bytes b buf,
    num_gt (round t) (Num 0) = true ∧ isSignatureReady t = false
    ∧ Dsg_sessionBytes (dsg t) = Some bytes ∧ messageHash t = JBuf b
    ∧ encrypt (utf8_encode
         (to_string (JNum (round t)) +:+ ":" +:+ to_string (JNum (partySize t))
          +:+ ":" +:+ to_string (JNum (minSigners t)) +:+ ":"
          +:+ to_string (JNum (partyId t)) +:+ ":" +:+ to_string (derivationPath t)
          +:+ ":" +:+ base64_encode bytes +:+ ":" +:+ base64_encode b))
         (publicKey (authKey t)) (authKey t) = Some buf
    ∧ record = base64_encode buf ∧ t' = t.
Proof.
  unfold export. run.
  destruct (num_gt _ _) eqn:E1; cbv beta iota; [|done].
  destruct (isSignatureReady t) eqn:E2; simpl negb; cbv beta iota; [done|].
  destruct (Dsg_sessionBytes _) as [bytes|] eqn:E3; cbv beta iota; [|done].
  destruct (messageHash t) as [| | | | |b| | |] eqn:E4; simpl toString_base64;
    cbv beta iota; try done.
  destruct (encrypt _ _ _) as [buf|] eqn:E5; cbv beta iota; [|done].
  intros [= <- <-]. by exists bytes, b, buf.
Qed.

(** C2, as the code has it.  For a session whose numbers are within the
    ranges the constructor checks, and whose derivation path has no
    colon and no surrogate outside a pair (it survives the conversion to
    UTF-8 and back): when [export] returned a record, [restore] on that
    record with the same key share and the same identity key returns a
    session with the same [round], [partyId], [partySize], [minSigners],
    [derivationPath] and [messageHash], provided [decrypt] undoes
    [encrypt] under that key and the engine accepts the exported session
    bytes. *)
Theorem export_restore_round_trip (t t' : Sign) (key : jsval) (record : string) :
  well_formed t →
  has_char ":"%char (to_string (derivationPath t)) = false →
  utf8_decode (utf8_encode (to_string (derivationPath t))) = to_string (derivationPath t) →
  export t = (Return record, t') →
  is_nullish key = false →
  PrivateKey_new key = Some (authKey t) →
  authKey_recognized (authKey t) key = true →
  (∀ m c, encrypt m (publicKey (authKey t)) (authKey t) = Some c →
          decrypt c (publicKey (authKey t)) (authKey t) = Some m) →
  (∀ d bytes, Dsg_sessionBytes (dsg t) = Some bytes →
              (Dsg_setSession d bytes).1 = Some ()) →
  ∃ t2, restore record (Some (keychain t)) key = Return t2
        ∧ round t2 = round t ∧ partyId t2 = partyId t ∧ partySize t2 = partySize t
        ∧ minSigners t2 = minSigners t ∧ derivationPath t2 = derivationPath t
        ∧ messageHash t2 = messageHash t.
Proof.
  intros [Hs Hc (i & n & m & Ei & En & Em & Hi & Hn & Hm) (path & Ep & Hp)
          (hash & Eh & Hh) (r & Er & Hr)]
         Hcolon Hutf (bytes & b & buf & E1 & E2 & E3 & E4 & E5 & -> & ->)%export_Return
         Hnull Hkey Hrec Hdec Hset.
  rewrite Eh in E4. injection E4 as <-.
  rewrite Er, En, Em, Ei, Ep in E5. rewrite Ep in Hcolon, Hutf. simpl in Hcolon, Hutf.
  assert (0 < r) as Hr0 by (rewrite Er in E1; unfold num_gt in E1; simpl in E1; lia).
  apply Hdec in E5.
  unfold restore, mbind, outcome_bind, check, orThrow.
  rewrite Hkey. cbv beta iota. rewrite Hrec. cbv beta iota.
  rewrite EncodingFacts.base64_decode_encode, E5. cbv beta iota.
  cbn [to_string].
  rewrite EncodingFacts.utf8_record;
    try apply EncodingFacts.num_to_string_ascii; try apply EncodingFacts.base64_ascii;
    [|exact Hutf].
  rewrite split_fields;
    try apply JsFacts.num_to_string_no_colon; try apply EncodingFacts.base64_no_colon;
    [|exact Hcolon].
  cbv [item lookup list_lookup Buffer_from_base64].
  rewrite !EncodingFacts.base64_decode_encode. cbv beta iota.
  change (parseInt (JStr (num_to_string (Num r)))) with (parseInt (JNum (Num r))).
  change (parseInt (JStr (num_to_string (Num n)))) with (parseInt (JNum (Num n))).
  change (parseInt (JStr (num_to_string (Num m)))) with (parseInt (JNum (Num m))).
  change (parseInt (JStr (num_to_string (Num i)))) with (parseInt (JNum (Num i))).
  rewrite !JsFacts.parseInt_nonneg by (unfold exponent_from in *; lia).
  match goal with |- context [constructor ?q] =>
    assert (Hq : constructor q = Return (built q (keychain t) (authKey t))) end.
  { apply constructor_Return. exists (keychain t), (authKey t).
    repeat split; try done.
    rewrite (checks_integers _ _ i n m hash) by (try done; lia).
    cbn [p_authKey p_derivationPath p_round].
    rewrite Hnull, Hs, Hc, Hh. unfold path_accepted, round_accepted.
    cbn [is_nullish is_string to_string orb andb negb]. rewrite Hp.
    rewrite JsFacts.js_ge_int, JsFacts.js_le_int.
    replace (0 <=? i) with true by lia. replace (i <? n) with true by lia.
    replace (1 <? n) with true by lia. replace (0 <? m) with true by lia.
    replace (m <=? n) with true by lia. replace (0 <=? r) with true by lia.
    replace (r <=? 5) with true by lia. reflexivity. }
  rewrite Hq. cbv beta iota.
  match goal with |- context [Dsg_setSession ?d bytes] =>
    specialize (Hset d bytes E3); destruct (Dsg_setSession d bytes) as [[[]|] d'] end;
    [|done].
  eexists. split; [reflexivity|].
  rewrite (built_integers _ _ _ i n m) by (try done; lia). simpl.
  rewrite JsFacts.parseInt_nonneg by (unfold exponent_from; lia).
  rewrite Er, Ei, En, Em, Ep, Eh. repeat split.
  - unfold num_or. simpl. by destruct (Z.eqb_spec r 0); [lia|].
  - unfold js_or. simpl. by destruct path.
Qed.

(** A derivation path with a colon does not survive: whatever [restore]
    returns on the exported record has a path without colon. *)
Lemma restore_loses_colon_path (t t' t2 : Sign) (kc : option Keychain) (key : jsval)
    (record : string) :
  has_char ":"%char (to_string (derivationPath t)) = true →
  export t = (Return record, t') →
  PrivateKey_new key = Some (authKey t) →
  (∀ m c, encrypt m (publicKey (authKey t)) (authKey t) = Some c →
          decrypt c (publicKey (authKey t)) (authKey t) = Some m) →
  restore record kc key = Return t2 →
  has_char ":"%char (to_string (derivationPath t2)) = false
  ∧ derivationPath t2 ≠ derivationPath t.
Proof.
  intros Hcolon (bytes & b & buf & E1 & E2 & E3 & E4 & E5 & -> & ->)%export_Return
         Hkey Hdec.
  apply Hdec in E5.
  assert (∀ P : Prop, (P → derivationPath t2 ≠ derivationPath t) → P →
            P ∧ derivationPath t2 ≠ derivationPath t) as Hsplit by tauto.
  intros Hres. apply Hsplit; [intros H E; rewrite E in H; congruence|]. clear Hsplit.
  revert Hres.
  unfold restore, mbind, outcome_bind, check, orThrow.
  rewrite Hkey. cbv beta iota.
  destruct (authKey_recognized _ _); cbv beta iota; [|done].
  rewrite EncodingFacts.base64_decode_encode, E5. cbv beta iota.
  cbn [to_string].
  rewrite EncodingFacts.utf8_record_head by apply EncodingFacts.num_to_string_ascii.
  change (num_to_string (round t) +:+ ":" +:+ num_to_string (partySize t) +:+ ":"
          +:+ num_to_string (minSigners t) +:+ ":" +:+ num_to_string (partyId t)
          +:+ ":" +:+ ?rest)
    with (num_to_string (round t) +:+ String ":" (num_to_string (partySize t)
          +:+ String ":" (num_to_string (minSigners t) +:+ String ":"
            (num_to_string (partyId t) +:+ String ":" rest)))).
  rewrite !JsFacts.split_first by apply JsFacts.num_to_string_no_colon.
  match goal with |- context [split ":"%char ?rest] =>
    destruct (JsFacts.split_head_no_sep ":"%char rest) as (w & ws & -> & Hw) end.
  cbv [item lookup list_lookup].
  destruct (Buffer_from_base64 _); cbv beta iota; [|done].
  match goal with |- context [constructor ?q] => destruct (constructor q) as [t0|] eqn:E end;
    cbv beta iota; [|done].
  destruct (Buffer_from_base64 _); cbv beta iota; [|done].
  destruct (Dsg_setSession _ _) as [[[]|] d]; [|done].
  intros [= <-]. simpl.
  apply constructor_Return in E as (? & ? & _ & _ & _ & _ & ->).
  simpl. unfold js_or. simpl. by destruct (negb _).
Qed.

End Methods.

(** *** The claims at concrete sessions *)

Import Toy.

Example toy_constructor :
  constructor (C := toy) (toy_params (JStr "m/0/1") None)
  = Return (toy_session (JStr "m/0/1") 0 None None).
Proof. reflexivity. Qed.

Example toy_initJoin :
  initJoin (toy_session (JStr "m/0/1") 0 None None)
  = (Return (mkEnvelope (JNum (Num 0)) (JNum (Num 0)) (JStr (hex_encode key32)) [] [()]),
     toy_session (JStr "m/0/1") 1 (Some [Byte.x01]) None).
Proof. reflexivity. Qed.

Example toy_nextRound :
  nextRound (ArrayOf (C := toy) [from_party1 0])
            (toy_session (JStr "m/0/1") 1 (Some [Byte.x01]) None)
  = (Return (mkEnvelope (JNum (Num 1)) (JNum (Num 0)) (JStr (hex_encode key32)) [] [()]),
     toy_session (JStr "m/0/1") 2 (Some [Byte.x01; Byte.x01]) None).
Proof. reflexivity. Qed.

Lemma toy_joined (P : Params → Prop) path :
  P (toy_params path None) → path_accepted path = true →
  obtained P (toy_session (js_or path (JStr "m")) 1 (Some [Byte.x01]) None).
Proof.
  intros HP H.
  eapply (reach_advance _ InitJoin (toy_session (js_or path (JStr "m")) 0 None None)).
  - apply (reach_constructor _ (toy_params path None)); [done|].
    unfold constructor, toy_params. simpl. unfold path_accepted in H. by rewrite H.
  - reflexivity.
Qed.


Lemma toy_joined_reachable path :
  path_accepted path = true →
  reachable (toy_session (js_or path (JStr "m")) 1 (Some [Byte.x01]) None).
Proof. by apply toy_joined. Qed.

Lemma toy_well_formed path r d g :
  startsWith "m" path = true → 0 <= r <= 5 →
  well_formed (toy_session (JStr path) r d g).
Proof.
  intros Hp Hr. constructor; simpl; try done.
  - exists 0, 3, 2. unfold exponent_from. repeat split; try done; lia.
  - by exists path.
  - by exists zeros32.
  - by exists r.
Qed.

Lemma nextRound_rejects_invalid_input_witness :
  ∃ e t', nextRound (ArrayOf (C := toy) [])
                    (toy_session (JStr "m/0/1") 1 (Some [Byte.x01]) None) = (Throw e, t')
          ∧ t' = toy_session (JStr "m/0/1") 1 (Some [Byte.x01]) None
          ∧ round t' = Num 1.
Proof.
  apply (nextRound_rejects_invalid_input (C := toy)
           (toy_session (JStr "m/0/1") 1 (Some [Byte.x01]) None) (ArrayOf [])).
  right. left. intros m [= <-]. simpl. lia.
Defined.

Lemma round_increases_by_one_witness :
  ∃ r, round (toy_session (JStr "m/0/1") 0 None None) = Num r
       ∧ round (toy_session (JStr "m/0/1") 1 (Some [Byte.x01]) None) = Num (r + 1).
Proof.
  eapply (proj1 (round_increases_by_one (C := toy) (toy_session (JStr "m/0/1") 0 None None))
            InitJoin).
  reflexivity.
Defined.

Lemma envelope_round_is_previous_round_witness :
  env_round (mkEnvelope (P2P := unit) (Broadcast := unit)
               (JNum (Num 1)) (JNum (Num 0)) (JStr (hex_encode key32)) [] [()])
    = JNum (Num 1)
  ∧ ∃ r, round (toy_session (JStr "m/0/1") 2 (Some [Byte.x01; Byte.x01]) None) = Num r
         ∧ env_round (mkEnvelope (P2P := unit) (Broadcast := unit)
               (JNum (Num 1)) (JNum (Num 0)) (JStr (hex_encode key32)) [] [()])
           = JNum (Num (r - 1)).
Proof.
  apply (envelope_round_is_previous_round (C := toy)
           (NextRound (ArrayOf (C := toy) [from_party1 0]))
           (toy_session (JStr "m/0/1") 1 (Some [Byte.x01]) None)).
  reflexivity.
Defined.

Lemma getSignature_idempotent_witness :
  (∃ e, getSignature (toy_session (JStr "m") 4 (Some [Byte.x01]) None)
        = (Throw e, toy_session (JStr "m") 4 (Some [Byte.x01]) None))
  ∧ getSignature (toy_session (JStr "m") 5 (Some [Byte.x01]) None)
    = (Return (mkSignature "0x0a" "0x0b" (Num 1) (JStr "02cc")),
       toy_session (JStr "m") 5 (Some [Byte.x01])
         (Some (mkSignature "0x0a" "0x0b" (Num 1) (JStr "02cc"))))
  ∧ ∀ assembler,
      getSignatureWith assembler
        (toy_session (JStr "m") 5 (Some [Byte.x01])
           (Some (mkSignature "0x0a" "0x0b" (Num 1) (JStr "02cc"))))
      = (Return (mkSignature "0x0a" "0x0b" (Num 1) (JStr "02cc")),
         toy_session (JStr "m") 5 (Some [Byte.x01])
           (Some (mkSignature "0x0a" "0x0b" (Num 1) (JStr "02cc")))).
Proof.
  split; [|split].
  - apply (proj1 (getSignature_idempotent (C := toy) _)). reflexivity.
  - apply (proj1 (proj2 (getSignature_idempotent (C := toy)
                    (toy_session (JStr "m") 5 (Some [Byte.x01]) None)))).
    + reflexivity.
    + reflexivity.
    + reflexivity.
  - apply (proj1 (proj2 (proj2 (getSignature_idempotent (C := toy)
             (toy_session (JStr "m") 5 (Some [Byte.x01])
                (Some (mkSignature "0x0a" "0x0b" (Num 1) (JStr "02cc")))))))).
    + reflexivity.
    + reflexivity.
Defined.


(** The round argument [9e-7] is within 0..5; the session starts in
    round 9, where both assertions of [export] pass and [export] throws
    only because the engine, never run, has no session. *)
Example round_above_five :
  constructor (C := toy)
    (toy_call (JNum (Num 0)) (JNum (Num 3)) (JNum (Num 2)) (JFrac false 0 D9 7))
  = Return (toy_session (JStr "m") 9 None None)
  ∧ num_gt (round (toy_session (JStr "m") 9 None None)) (Num 0) = true
  ∧ isSignatureReady (toy_session (JStr "m") 9 None None) = false
  ∧ export (toy_session (JStr "m") 9 None None)
    = (Throw "The first argument must be of type string or an instance of Buffer",
       toy_session (JStr "m") 9 None None).
Proof. repeat split; by vm_compute. Qed.

Lemma constructor_accepts_explicit_round_witness :
  ∃ t, constructor (C := toy)
         (toy_call (JNum (Num 0)) (JNum (Num 3)) (JNum (Num 2)) (JFrac false 4 D5 1))
       = Return t
       ∧ round t = Num 4
       ∧ t = toy_session (JStr "m") 4 None None.
Proof.
  destruct (constructor_accepts_explicit_round (C := toy)
              (toy_call (JNum (Num 0)) (JNum (Num 3)) (JNum (Num 2)) JUndefined)
              (JFrac false 4 D5 1) (toy_session (JStr "m") 0 None None))
    as (t & E & Er & Et & _).
  - reflexivity.
  - reflexivity.
  - reflexivity.
  - reflexivity.
  - exists t. split; [exact E|]. split; [exact Er | exact Et].
Defined.

(** What the constructor makes of other rounds: the string ['5'] gives
    a session that is ready at once, [true] gives round 0 and [9e-7]
    gives round 9. *)
Example rounds_of_other_kinds :
  constructor (C := toy)
    (toy_call (JNum (Num 0)) (JNum (Num 3)) (JNum (Num 2)) (JStr "5"))
  = Return (toy_session (JStr "m") 5 None None)
  ∧ isSignatureReady (toy_session (JStr "m") 5 None None) = true
  ∧ constructor (C := toy)
      (toy_call (JNum (Num 0)) (JNum (Num 3)) (JNum (Num 2)) (JBool true))
    = Return (toy_session (JStr "m") 0 None None)
  ∧ constructor (C := toy)
      (toy_call (JNum (Num 0)) (JNum (Num 3)) (JNum (Num 2)) (JFrac false 0 D9 7))
    = Return (toy_session (JStr "m") 9 None None)
  ∧ constructor (C := toy)
      (toy_call (JNum (Num 0)) (JNum (Num 3)) (JNum (Num 2)) (JFrac false 5 D1 1))
    = Throw "round must be in the range [0, 5]".
Proof. repeat split; by vm_compute. Qed.

(** C7 fails for the empty string: it is falsy, and the constructor
    throws on it where it accepts an absent path. *)
Lemma empty_path_is_rejected :
  truthy (JStr "") = false
  ∧ constructor (C := toy) (toy_params (JStr "") None) = Throw path_message
  ∧ constructor (C := toy) (toy_params JUndefined None)
    = Return (toy_session (JStr "m") 0 None None).
Proof. repeat split. Qed.

Lemma constructor_default_path_witness :
  constructor (C := toy) (toy_params JUndefined None)
  = Return (toy_session (JStr "m") 0 None None)
  ∧ derivationPath (toy_session (JStr "m") 0 None None) = JStr "m".
Proof.
  apply (proj1 (constructor_default_path (C := toy) (toy_params JUndefined None))).
  - reflexivity.
  - reflexivity.
Defined.

(** C2 fails for a path with a colon: the constructor accepts ["m:0"],
    the session joins and exports, and [restore] on the record throws,
    having read the session bytes where the message hash should be. *)
Lemma colon_path_is_not_restored :
  constructor (C := toy) (toy_params (JStr "m:0") None)
  = Return (toy_session (JStr "m:0") 0 None None)
  ∧ (initJoin (toy_session (JStr "m:0") 0 None None)).2
    = toy_session (JStr "m:0") 1 (Some [Byte.x01]) None
  ∧ ∃ record,
      export (toy_session (JStr "m:0") 1 (Some [Byte.x01]) None)
      = (Return record, toy_session (JStr "m:0") 1 (Some [Byte.x01]) None)
      ∧ restore (C := toy) record (Some toy_keychain) (JBuf key32)
        = Throw "messageHash must be a 32 byte buffer".
Proof.
  split; [reflexivity|]. split; [reflexivity|].
  eexists. split; [reflexivity|]. vm_compute. reflexivity.
Qed.

Lemma export_restore_round_trip_witness :
  ∃ t2, restore (C := toy)
          "PUFBQUFBQUFBQUFBQUFBQUFBQUFBQUFBQUFBQUFBQUFBQUFBQUFBQUFBQUE6PT1RQToxLzAvbTowOjI6Mzox"
          (Some toy_keychain) (JBuf key32) = Return t2
        ∧ round t2 = Num 1 ∧ partyId t2 = Num 0 ∧ partySize t2 = Num 3
        ∧ minSigners t2 = Num 2 ∧ derivationPath t2 = JStr "m/0/1"
        ∧ messageHash t2 = JBuf zeros32.
Proof.
  apply (export_restore_round_trip (C := toy)
           (toy_session (JStr "m/0/1") 1 (Some [Byte.x01]) None)
           (toy_session (JStr "m/0/1") 1 (Some [Byte.x01]) None) (JBuf key32)).
  - apply toy_well_formed; [reflexivity | lia].
  - reflexivity.
  - by vm_compute.
  - vm_compute. reflexivity.
  - reflexivity.
  - reflexivity.
  - reflexivity.
  - intros m c [= <-]. simpl. by rewrite rev_involutive.
  - reflexivity.
Defined.

(** The round trip needs the ranges: with [partyId: 5, n: 1e21, m: 1]
    the constructor stores the party size 1, the session joins and
    exports, and [restore] throws on the record. *)
Example large_party_size_is_not_restored :
  ∃ t1 record,
    constructor (C := toy)
      (toy_call (JNum (Num 5)) (JNum (Num exponent_from)) (JNum (Num 1)) JUndefined)
    = Return (mkSign (C := toy) toy_keychain (Num 5) (Num 1) (Num 1) (JStr "m")
                (JBuf zeros32) (Num 0) key32 None None)
    ∧ (initJoin (mkSign (C := toy) toy_keychain (Num 5) (Num 1) (Num 1) (JStr "m")
                   (JBuf zeros32) (Num 0) key32 None None)).2 = t1
    ∧ export t1 = (Return record, t1)
    ∧ restore (C := toy) record (Some toy_keychain) (JBuf key32)
      = Throw "partyId must be in the range [0, n-1]".
Proof. do 2 eexists. repeat split; by vm_compute. Qed.

(** It needs a path that UTF-8 can hold: a path that ends in a
    surrogate without its pair comes back with U+FFFD in its place. *)
Example lone_surrogate_is_not_restored :
  let path := String.string_of_list_byte [Byte.x6d; Byte.xed; Byte.xa0; Byte.x80] in
  let back := String.string_of_list_byte [Byte.x6d; Byte.xef; Byte.xbf; Byte.xbd] in
  constructor (C := toy) (toy_params (JStr path) None)
  = Return (toy_session (JStr path) 0 None None)
  ∧ ∃ record t2,
      export (toy_session (JStr path) 1 (Some [Byte.x01]) None)
      = (Return record, toy_session (JStr path) 1 (Some [Byte.x01]) None)
      ∧ restore (C := toy) record (Some toy_keychain) (JBuf key32) = Return t2
      ∧ derivationPath t2 = JStr back.
Proof.
  split; [by vm_compute|]. do 2 eexists.
  split; [by vm_compute|]. split; by vm_compute.
Qed.

End SignFacts.

(** ** The registry of networks                                          *)

Module NetworksFacts.
Import Networks.

(** Induction on the tree of variants. *)
Fixpoint NetData_tree_ind (P : NetData → Prop)
    (Hleaf : ∀ own, P (mkData own None))
    (Hnode : ∀ own vs, Forall P vs → P (mkData own (Some vs)))
    (d : NetData) {struct d} : P d :=
  match d with
  | mkData own None => Hleaf own
  | mkData own (Some vs) =>
      Hnode own vs
        ((fix all (l : list NetData) {struct l} : Forall P l :=
            match l with
            | [] => Forall_nil_2 P
            | v :: l' => Forall_cons_2 P v l' (NetData_tree_ind P Hleaf Hnode v) (all l')
            end) vs)
  end.

(** The property objects of the calls one [addNetwork] call makes, in
    order: the call itself, then for each variant in turn the calls of
    [addNetwork({ ...data, variants: undefined, ...variant })]. *)
Fixpoint calls (base : gmap string jsval) (d : NetData) : list (gmap string jsval) :=
  match d with
  | mkData own vs =>
      (own ∪ base) ::
      match vs with
      | Some l => flat_map (calls (own ∪ base)) l
      | None => []
      end
  end.

(** [{ key: value }] appended to the list [networkMaps[key]]. *)
Definition push (key : string) (n : Network) (maps : gmap string (list Network))
  : gmap string (list Network) :=
  <[key := default [] (maps !! key) ++ [n]]> maps.

Definition indexUnder (n : Network) (maps : gmap string (list Network)) (value : jsval)
  : gmap string (list Network) :=
  if indexable value then push (to_string value) n maps else maps.

(** The keys a network is indexed under, one for each indexable value. *)
Definition keys (n : Network) : list string :=
  to_string <$> filter (λ v, indexable v = true) (values n).

Section Registry.

Variable integerAsBuffer : jsval → option (list byte).

(** The object [addNetwork] builds from the properties it is given. *)
Definition network_of (id : nat) (data : gmap string jsval) : option Network :=
  magic ← (if truthy (prop data "networkMagic")
           then Some <$> integerAsBuffer (prop data "networkMagic")
           else Some None);
  Some {| net_id := id;
          name := prop data "name";
          alias := prop data "alias";
          is_ := prop data "is";
          pubkeyhash := prop data "pubkeyhash";
          privatekey := prop data "privatekey";
          scripthash := prop data "scripthash";
          xpubkey := prop data "xpubkey";
          xprivkey := prop data "xprivkey";
          networkMagic := magic;
          port := if truthy (prop data "port") then Some (prop data "port") else None;
          dnsSeeds := if truthy (prop data "dnsSeeds")
                      then Some (prop data "dnsSeeds") else None |}.

(** The networks [nets] are the objects built, with consecutive
    identities from [id] on, from the property objects [datas]. *)
Fixpoint built_from (id : nat) (datas : list (gmap string jsval)) (nets : list Network)
  : Prop :=
  match datas, nets with
  | [], [] => True
  | d :: ds, n :: ns => network_of id d = Some n ∧ built_from (S id) ds ns
  | _, _ => False
  end.

(** What a successful sequence of registrations did to the registry. *)
Record extends (r r' : Registry) (datas : list (gmap string jsval)) (nets : list Network)
  : Prop := {
  ext_networks : networks r' = networks r ++ nets;
  ext_created : created r' = (created r + length nets)%nat;
  ext_built : built_from (created r) datas nets;
  ext_maps : networkMaps r' =
             foldl (λ maps n, foldl (indexUnder n) maps (values n)) (networkMaps r) nets;
}.

Ltac run := unfold bind, Eff.get, put, assert, lift, check, ret, orThrow in *.

Lemma newNetwork_Return data r n r' :
  newNetwork integerAsBuffer data r = (Return n, r') →
  network_of (created r) data = Some n
  ∧ r' = mkRegistry (networks r) (networkMaps r) (S (created r)).
Proof.
  unfold newNetwork, network_of. run.
  destruct (truthy (prop data "networkMagic")); simpl.
  - destruct (integerAsBuffer _); simpl; [|done]. by intros [= <- <-].
  - by intros [= <- <-].
Qed.

Lemma indexValue_Return n value r r' :
  indexValue n value r = (Return (), r') →
  r' = mkRegistry (networks r) (indexUnder n (networkMaps r) value) (created r).
Proof.
  unfold indexValue, indexUnder, push. run.
  destruct (indexable value); [|by intros [= <-]; destruct r].
  destruct (networkMaps r !! to_string value) as [l|] eqn:E; simpl.
  - by intros [= <-].
  - destruct (inherited _); [done|]. by intros [= <-].
Qed.

Lemma forEach_index_Return n vals : ∀ r r',
  forEach (indexValue n) vals r = (Return (), r') →
  r' = mkRegistry (networks r) (foldl (indexUnder n) (networkMaps r) vals) (created r).
Proof.
  induction vals as [|v vals IH]; intros r r'; simpl.
  - intros [= <-]. by destruct r.
  - unfold bind at 1.
    destruct (indexValue n v r) as [[[]|e] r1] eqn:E; [|done].
    apply indexValue_Return in E as ->. intros ->%IH. done.
Qed.

Lemma register_Return data r n r' :
  register integerAsBuffer data r = (Return n, r') →
  extends r r' [data] [n].
Proof.
  unfold register. unfold bind at 1.
  destruct (newNetwork _ data r) as [[n0|e] r1] eqn:E1; [|done].
  apply newNetwork_Return in E1 as [Hn ->].
  unfold bind at 1.
  destruct (forEach _ _ _) as [[[]|e] r2] eqn:E2; [|done].
  apply forEach_index_Return in E2 as ->. simpl.
  intros [= <- <-]. constructor; simpl; [done|lia|done|done].
Qed.

Lemma built_from_app id ds1 ns1 ds2 ns2 :
  built_from id ds1 ns1 → built_from (id + length ns1) ds2 ns2 →
  built_from id (ds1 ++ ds2) (ns1 ++ ns2).
Proof.
  revert id ns1. induction ds1 as [|d ds1 IH]; intros id [|n ns1]; simpl; try done.
  - by rewrite Nat.add_0_r.
  - intros [H1 H2] H3. split; [done|]. apply IH; [done|].
    by replace (S id + length ns1)%nat with (id + S (length ns1))%nat by lia.
Qed.

Lemma built_from_length id ds ns : built_from id ds ns → length ns = length ds.
Proof.
  revert id ns. induction ds as [|d ds IH]; intros id [|n ns]; simpl; try done.
  intros [_ H]. f_equal. by eapply IH.
Qed.

Lemma extends_refl r : extends r r [] [].
Proof. constructor; simpl; [by rewrite app_nil_r|lia|done|done]. Qed.

Lemma extends_trans r1 r2 r3 ds1 ns1 ds2 ns2 :
  extends r1 r2 ds1 ns1 → extends r2 r3 ds2 ns2 →
  extends r1 r3 (ds1 ++ ds2) (ns1 ++ ns2).
Proof.
  intros [A1 A2 A3 A4] [B1 B2 B3 B4]. constructor.
  - by rewrite B1, A1, app_assoc.
  - rewrite B2, A2, length_app. lia.
  - apply built_from_app; [done|]. by rewrite <- A2.
  - by rewrite B4, A4, foldl_app.
Qed.

(** The loop over the variants. *)
Definition eachVariant (base : gmap string jsval) : list NetData → M Registry unit :=
  fix each (l : list NetData) : M Registry unit :=
    match l with
    | [] => ret ()
    | variant :: l' =>
        bind (addNetworkFrom integerAsBuffer base variant) (λ _, each l')
    end.

Lemma addNetworkFrom_eq base own vs :
  addNetworkFrom integerAsBuffer base (mkData own vs) =
  bind (register integerAsBuffer (own ∪ base)) (λ network,
    bind (match vs with Some l => eachVariant (own ∪ base) l | None => ret () end)
         (λ _, ret network)).
Proof. reflexivity. Qed.

(** A successful [addNetwork] registered one network for each call of
    [calls], in that order, and returned the first. *)
Lemma addNetworkFrom_Return d : ∀ base r n r',
  addNetworkFrom integerAsBuffer base d r = (Return n, r') →
  ∃ nets, extends r r' (calls base d) (n :: nets).
Proof.
  induction d as [own|own vs IH] using NetData_tree_ind; intros base r n r';
    rewrite addNetworkFrom_eq; unfold bind at 1;
    (destruct (register _ _ r) as [[n0|e] r1] eqn:E; [|done]);
    apply register_Return in E.
  - unfold bind, ret. intros [= <- <-]. by exists [].
  - assert (Hloop : ∀ l, Forall (λ d, ∀ base r n r',
                           addNetworkFrom integerAsBuffer base d r = (Return n, r') →
                           ∃ nets, extends r r' (calls base d) (n :: nets)) l →
              ∀ r r', eachVariant (own ∪ base) l r = (Return (), r') →
              ∃ nets, extends r r' (flat_map (calls (own ∪ base)) l) nets).
    { clear. induction 1 as [|v l Hv _ IHl]; intros r r'; simpl.
      - intros [= <-]. exists []. apply extends_refl.
      - unfold bind at 1.
        destruct (addNetworkFrom _ _ v r) as [[n1|e] r1] eqn:E; [|done].
        apply Hv in E as [ns1 E]. intros [ns2 E2]%IHl.
        eexists. eapply extends_trans; eauto. }
    unfold bind at 1.
    destruct (eachVariant _ vs r1) as [[[]|e] r2] eqn:E2; [|done].
    apply (Hloop vs IH) in E2 as [nets E2]. unfold ret. intros [= <- <-].
    exists nets. apply (extends_trans _ _ _ [own ∪ base] [n0] _ _ E E2).
Qed.

(** *** The index agrees with the list of networks *)

(** The entries network [n] contributes to [networkMaps[k]]. *)
Definition occurrences (k : string) (n : Network) : list Network :=
  flat_map (λ v, if indexable v && bool_decide (to_string v = k) then [n] else [])
           (values n).

(** [networkMaps[k]] lists, in the order of [networks], each network once
    for each of its indexable values whose key is [k]; no list is empty. *)
Record indexed (r : Registry) : Prop := {
  idx_lists : ∀ k, default [] (networkMaps r !! k) = flat_map (occurrences k) (networks r);
  idx_nonempty : ∀ k, networkMaps r !! k ≠ Some [];
}.

Lemma lookup_indexUnder n maps v k :
  default [] (indexUnder n maps v !! k)
  = default [] (maps !! k)
    ++ (if indexable v && bool_decide (to_string v = k) then [n] else []).
Proof.
  unfold indexUnder, push. destruct (indexable v); simpl; [|by rewrite app_nil_r].
  case_bool_decide as E.
  - subst k. by rewrite lookup_insert_eq.
  - rewrite lookup_insert_ne by done. by rewrite app_nil_r.
Qed.

Lemma lookup_index_values n k vals : ∀ maps,
  default [] (foldl (indexUnder n) maps vals !! k)
  = default [] (maps !! k)
    ++ flat_map (λ v, if indexable v && bool_decide (to_string v = k) then [n] else []) vals.
Proof.
  induction vals as [|v vals IH]; intros maps; simpl; [by rewrite app_nil_r|].
  by rewrite IH, lookup_indexUnder, app_assoc.
Qed.

Lemma lookup_index_networks k nets : ∀ maps,
  default [] (foldl (λ maps n, foldl (indexUnder n) maps (values n)) maps nets !! k)
  = default [] (maps !! k) ++ flat_map (occurrences k) nets.
Proof.
  induction nets as [|n nets IH]; intros maps; cbn [foldl flat_map];
    [by rewrite app_nil_r|].
  by rewrite IH, lookup_index_values, app_assoc.
Qed.

Lemma indexUnder_nonempty n maps v :
  (∀ k, maps !! k ≠ Some []) → ∀ k, indexUnder n maps v !! k ≠ Some [].
Proof.
  intros H k. unfold indexUnder, push. destruct (indexable v); [|done].
  destruct (decide (to_string v = k)) as [<-|].
  - rewrite lookup_insert_eq. intros [= E]. by destruct (default [] _).
  - by rewrite lookup_insert_ne.
Qed.

Lemma index_networks_nonempty nets : ∀ maps,
  (∀ k, maps !! k ≠ Some []) →
  ∀ k, foldl (λ maps n, foldl (indexUnder n) maps (values n)) maps nets !! k ≠ Some [].
Proof.
  induction nets as [|n nets IH]; intros maps H; cbn [foldl]; [done|].
  apply IH. generalize (values n). intros vals. revert maps H.
  induction vals as [|v vals IHv]; intros maps H; simpl; [done|].
  apply IHv. by apply indexUnder_nonempty.
Qed.

Lemma extends_indexed r r' ds ns : extends r r' ds ns → indexed r → indexed r'.
Proof.
  intros [E1 _ _ E2] [H1 H2]. constructor.
  - intros k. by rewrite E2, E1, lookup_index_networks, H1, flat_map_app.
  - rewrite E2. by apply index_networks_nonempty.
Qed.

(** The registries built by successful calls of [addNetwork]. *)
Inductive registered : Registry → Prop :=
| registered_empty : registered empty_registry
| registered_add r data n r' :
    registered r → addNetwork integerAsBuffer data r = (Return n, r') → registered r'.

Lemma registered_indexed r : registered r → indexed r.
Proof.
  induction 1 as [|r data n r' _ IH E].
  - by constructor.
  - apply addNetworkFrom_Return in E as [nets E]. by eapply extends_indexed.
Qed.

Lemma occurrences_nil k n : occurrences k n = [] ↔ k ∉ keys n.
Proof.
  unfold occurrences, keys. induction (values n) as [|v vals IH]; simpl.
  - split; [intros _; apply not_elem_of_nil | done].
  - rewrite filter_cons. destruct (indexable v) eqn:Ev; simpl; [|exact IH].
    rewrite not_elem_of_cons. case_bool_decide as E; simpl.
    + split; [done | by intros [? _]].
    + split.
      * intros H. split; [congruence | by apply IH].
      * intros [_ H]. by apply IH.
Qed.

Lemma occurrences_same k n x : x ∈ occurrences k n → x = n.
Proof.
  unfold occurrences. intros (v & _ & H)%list_elem_of_In%in_flat_map.
  destruct (_ && _); [|done]. destruct H as [<-|[]]. done.
Qed.

(** The first element of a concatenation comes from the first list that
    is not empty. *)
Lemma flat_map_first {A B} (f : A → list B) l x rest :
  flat_map f l = x :: rest →
  ∃ before y after tl, l = before ++ y :: after
    ∧ (∀ z, z ∈ before → f z = []) ∧ f y = x :: tl.
Proof.
  induction l as [|a l IH]; simpl; [done|].
  destruct (f a) as [|b tl] eqn:E; simpl.
  - intros (before & y & after & tl & -> & H1 & H2)%IH.
    exists (a :: before), y, after, tl. split; [done|]. split; [|done].
    intros z [->|?]%elem_of_cons; auto.
  - intros [= -> _]. exists [], a, l, tl. split; [done|]. split; [|done].
    intros z []%elem_of_nil.
Qed.

(** Where a property holds of an element and of none before it. *)
Lemma first_unique {A} (P : A → Prop) (l1 l2 l1' l2' : list A) x y :
  l1 ++ x :: l2 = l1' ++ y :: l2' →
  (∀ z, z ∈ l1 → ¬ P z) → P x → (∀ z, z ∈ l1' → ¬ P z) → P y → x = y.
Proof.
  revert l1'. induction l1 as [|a l1 IH]; intros [|b l1']; simpl.
  - by intros [= -> _].
  - intros [= -> _] _ Hx H. exfalso. apply (H b); [left | done].
  - intros [= -> _] H _ _ Hy. exfalso. apply (H y); [left | done].
  - intros [= -> E] H1 Hx H2 Hy. apply (IH l1' E); auto.
    + intros z Hz. apply H1. by right.
    + intros z Hz. apply H2. by right.
Qed.

(** The fields the lookup is meant to distinguish networks by. *)
Definition distinguishing (n : Network) : list (string * jsval) :=
  [ ("name", name n); ("alias", alias n); ("pubkeyhash", pubkeyhash n);
    ("privatekey", privatekey n); ("scripthash", scripthash n);
    ("xpubkey", xpubkey n); ("xprivkey", xprivkey n) ]
  ++ from_option (λ v, [("port", v)]) [] (port n).

Lemma distinguishing_value n field v :
  (field, v) ∈ distinguishing n → v ∈ values n ∧ netProp n field = v.
Proof.
  unfold distinguishing, values. rewrite elem_of_app, !elem_of_cons.
  intros [[[= -> ->]|[[= -> ->]|[[= -> ->]|[[= -> ->]|[[= -> ->]|[[= -> ->]|[[= -> ->]
          |[]%elem_of_nil]]]]]]]|H].
  1-7: split; [set_solver | reflexivity].
  destruct (port n) as [w|] eqn:E; simpl in H; [|by apply elem_of_nil in H].
  apply list_elem_of_singleton in H as [= -> ->]. split.
  - rewrite !elem_of_app. right. right. left. simpl. set_solver.
  - unfold netProp. simpl. by rewrite E.
Qed.

(** C8, as the code has it.  In a registry built by successful [add]
    calls, for a registered network and a value [v] of one of its
    distinguishing fields that is defined and not an object, the keyless
    [get(v)] returns the earliest-added network that was indexed under the
    key [String(v)], through whichever of its properties.  This is the
    network itself, whose field is [v], when no network added before it
    was indexed under that key. *)
Theorem get_returns_earliest_indexed (r : Registry) (n : Network) (field : string)
    (v : jsval) :
  registered r → n ∈ networks r → (field, v) ∈ distinguishing n → indexable v = true →
  ∃ n0 before after,
    get r (ArgValue v) NoKeys = Return (Found n0)
    ∧ networks r = before ++ n0 :: after
    ∧ to_string v ∈ keys n0
    ∧ (∀ n', n' ∈ before → to_string v ∉ keys n')
    ∧ (∀ pre post, networks r = pre ++ n :: post →
         (∀ n', n' ∈ pre → to_string v ∉ keys n') →
         n0 = n ∧ netProp n0 field = v).
Proof.
  intros [Hl Hne]%registered_indexed Hn [Hv Hf]%distinguishing_value Hi.
  assert (Hk : to_string v ∈ keys n).
  { unfold keys. apply list_elem_of_fmap. exists v. split; [done|].
    by apply list_elem_of_filter. }
  specialize (Hl (to_string v)). specialize (Hne (to_string v)).
  destruct (flat_map (occurrences (to_string v)) (networks r)) as [|n0 rest] eqn:E.
  { exfalso. apply list_elem_of_In in Hn.
    assert (occurrences (to_string v) n = []) as Ho.
    { destruct (occurrences (to_string v) n) as [|x l] eqn:Eo; [done|].
      assert (In x (flat_map (occurrences (to_string v)) (networks r))) as Hx.
      { apply in_flat_map. exists n. split; [done|]. rewrite Eo. by left. }
      by rewrite E in Hx. }
    by apply occurrences_nil in Ho. }
  destruct (flat_map_first _ _ _ _ E) as (before & y & after & tl & Enet & Hbefore & Hy).
  assert (y = n0) as ->.
  { symmetry. apply (occurrences_same (to_string v)). rewrite Hy. by left. }
  assert (Hk0 : to_string v ∈ keys n0).
  { destruct (decide (to_string v ∈ keys n0)) as [|Hno]; [done|].
    apply occurrences_nil in Hno. by rewrite Hno in Hy. }
  exists n0, before, after. split; [|split; [done|split; [done|split]]].
  - unfold get. simpl.
    destruct (networkMaps r !! to_string v) as [[|x l]|]; simpl in Hl; try done.
    by injection Hl as -> _.
  - intros n' Hn'. by apply occurrences_nil, Hbefore.
  - intros pre post Epre Hpre.
    assert (n0 = n) as ->; [|done].
    rewrite Enet in Epre.
    apply (first_unique (λ z, to_string v ∈ keys z) _ _ _ _ _ _ Epre); try done.
    intros z Hz. by apply occurrences_nil, Hbefore.
Qed.

(** *** Variants *)

(** The number of objects in the tree of variants, the root included. *)
Fixpoint nodes (d : NetData) : nat :=
  match d with
  | mkData _ vs =>
      S (match vs with
         | Some l => list_sum (map nodes l)
         | None => 0
         end)
  end.

Lemma calls_length d : ∀ base, length (calls base d) = nodes d.
Proof.
  induction d as [own|own vs IH] using NetData_tree_ind; intros base; simpl; [done|].
  f_equal. generalize (own ∪ base). intros b.
  induction IH as [|v l Hv _ IHl]; simpl; [done|].
  by rewrite length_app, Hv, IHl.
Qed.

Lemma calls_leaves own vs :
  Forall (λ v, variants v = None) vs →
  calls ∅ (mkData own (Some vs))
  = own :: map (λ v, props (spread (mkData own (Some vs)) v)) vs.
Proof.
  intros H. simpl. rewrite (right_id_L ∅ (∪)). f_equal.
  induction H as [|[p o] l Hv _ IH]; simpl; [done|].
  simpl in Hv. subst o. simpl. by rewrite IH.
Qed.

Lemma built_from_ids id ds ns :
  built_from id ds ns → ∀ k n, ns !! k = Some n → net_id n = (id + k)%nat.
Proof.
  revert id ns. induction ds as [|d ds IH]; intros id [|n ns]; simpl; try done.
  intros [Hn H] [|k] n'; simpl.
  - intros [= <-]. unfold network_of in Hn.
    apply bind_Some in Hn as (magic & _ & [= <-]). simpl. lia.
  - intros Hk. rewrite (IH _ _ H k n' Hk). lia.
Qed.

(** C10, as the code has it.  A successful [add] registers one network
    for each object of the tree of variants: the network of the call, and
    for each variant, recursively, a new object built from the parent's
    properties overridden by the variant's, the parent's [variants] being
    dropped and the variant's own [variants] kept.  When no variant has
    variants of its own that makes 1 + (number of variants) networks.
    Each is a separate object and is listed in the index under the key of
    each of its indexable values. *)
Theorem addNetwork_registers_variant_tree (r r' : Registry) (data : NetData) (n : Network) :
  addNetwork integerAsBuffer data r = (Return n, r') →
  ∃ nets,
    networks r' = networks r ++ n :: nets
    ∧ built_from (created r) (calls ∅ data) (n :: nets)
    ∧ length (n :: nets) = nodes data
    ∧ (∀ vs, variants data = Some vs → Forall (λ v, variants v = None) vs →
         calls ∅ data = props data :: map (λ v, props (spread data v)) vs
         ∧ length (n :: nets) = (1 + length vs)%nat)
    ∧ (∀ k n', (n :: nets) !! k = Some n' → net_id n' = (created r + k)%nat)
    ∧ (∀ n' v, n' ∈ n :: nets → v ∈ values n' → indexable v = true →
         n' ∈ default [] (networkMaps r' !! to_string v)).
Proof.
  intros [nets [E1 E2 E3 E4]]%addNetworkFrom_Return. exists nets.
  pose proof (built_from_length _ _ _ E3) as Hlen. rewrite calls_length in Hlen.
  split; [done|]. split; [done|]. split; [done|]. split; [|split].
  - intros vs Hvs Hleaves. destruct data as [own o]. simpl in Hvs. subst o.
    split; [by apply calls_leaves|].
    rewrite Hlen. simpl. f_equal. clear -Hleaves.
    induction Hleaves as [|[p o] l Hv _ IH]; simpl; [done|].
    simpl in Hv. subst o. simpl. by rewrite IH.
  - by eapply built_from_ids.
  - intros n' v Hn' Hv Hi. rewrite E4, lookup_index_networks.
    apply elem_of_app. right. apply list_elem_of_In, in_flat_map.
    exists n'. split; [by apply list_elem_of_In|].
    unfold occurrences. apply in_flat_map. exists v.
    split; [by apply list_elem_of_In|].
    rewrite Hi, bool_decide_eq_true_2 by done. by left.
Qed.

End Registry.

(** *** The claims on concrete registries *)

Lemma loaded_registered : registered integerAsBuffer_be loaded.
Proof.
  eapply (registered_add _ _ regtest_data);
    [eapply (registered_add _ _ testnet_data);
       [eapply (registered_add _ _ livenet_data); [apply registered_empty|]|]|].
  - vm_compute. reflexivity.
  - vm_compute. reflexivity.
  - vm_compute. reflexivity.
Qed.

(** A network whose address prefix is the script prefix of livenet. *)
Definition custom_data : NetData :=
  mkData (object
    [ ("name", JStr "custom"); ("alias", JStr "custom");
      ("pubkeyhash", JNum (Num 0x16)); ("privatekey", JNum (Num 0xb0));
      ("scripthash", JNum (Num 0x05)); ("xpubkey", JNum (Num 0x019da462));
      ("xprivkey", JNum (Num 0x019d9cfe)) ])
    None.

Definition livenet : Network :=
  default (mkNetwork 0 JUndefined JUndefined JUndefined JUndefined JUndefined JUndefined
             JUndefined JUndefined None None None)
          (networks loaded !! 0%nat).

(** C8 fails when a value is also a value of another property of an
    earlier network: after [add] of a network with [pubkeyhash: 0x16] to
    the registry of the module, [get(0x16)] returns livenet, whose
    [scripthash] is [0x16] and whose [pubkeyhash] is [0x1e]. *)
Lemma get_returns_network_with_other_field :
  ∃ n r', addNetwork integerAsBuffer_be custom_data loaded = (Return n, r')
    ∧ n ∈ networks r'
    ∧ pubkeyhash n = JNum (Num 0x16)
    ∧ get r' (ArgValue (JNum (Num 0x16))) NoKeys = Return (Found livenet)
    ∧ name livenet = JStr "livenet"
    ∧ pubkeyhash livenet = JNum (Num 0x1e)
    ∧ pubkeyhash livenet ≠ JNum (Num 0x16).
Proof.
  eexists. eexists. split; [by vm_compute|].
  split; [|by vm_compute]. apply list_elem_of_lookup. exists 4%nat. by vm_compute.
Qed.

Lemma get_returns_earliest_indexed_witness :
  ∃ n0 before after,
    get loaded (ArgValue (JStr "mainnet")) NoKeys = Return (Found n0)
    ∧ networks loaded = before ++ n0 :: after
    ∧ "mainnet" ∈ keys n0
    ∧ (∀ n', n' ∈ before → "mainnet" ∉ keys n')
    ∧ (∀ pre post, networks loaded = pre ++ livenet :: post →
         (∀ n', n' ∈ pre → "mainnet" ∉ keys n') →
         n0 = livenet ∧ netProp n0 "alias" = JStr "mainnet").
Proof.
  apply (get_returns_earliest_indexed integerAsBuffer_be loaded livenet "alias"
           (JStr "mainnet")).
  - apply loaded_registered.
  - apply list_elem_of_lookup. exists 0%nat. by vm_compute.
  - vm_compute. set_solver.
  - reflexivity.
Defined.

(** A network with a variant that has a variant of its own. *)
Definition nested_data : NetData :=
  mkData (object [("name", JStr "a"); ("alias", JStr "a")])
    (Some [ mkData (object [("name", JStr "b")])
              (Some [ mkData (object [("name", JStr "c")]) None ]) ]).

(** C10 fails when a variant carries variants: one [add] call on an
    object with a single variant registers three networks. *)
Lemma nested_variants_register_more :
  ∃ n r', addNetwork integerAsBuffer_be nested_data empty_registry = (Return n, r')
    ∧ (length <$> variants nested_data) = Some 1%nat
    ∧ name <$> networks r' = [JStr "a"; JStr "b"; JStr "c"]
    ∧ alias <$> networks r' = [JStr "a"; JStr "a"; JStr "a"]
    ∧ length (networks r') ≠ (1 + 1)%nat.
Proof. eexists. eexists. split; [by vm_compute|]. by vm_compute. Qed.

Lemma addNetwork_registers_variant_tree_witness :
  ∃ n r' nets,
    addNetwork integerAsBuffer_be testnet_data empty_registry = (Return n, r')
    ∧ networks r' = n :: nets
    ∧ length (n :: nets) = 2%nat
    ∧ name <$> (n :: nets) = [JStr "testnet"; JStr "testnet3"].
Proof.
  destruct (addNetwork integerAsBuffer_be testnet_data empty_registry) as [[n|e] r'] eqn:E;
    [|by vm_compute in E].
  destruct (addNetwork_registers_variant_tree integerAsBuffer_be _ _ _ _ E)
    as (nets & E1 & E2 & E3 & _).
  exists n, r', nets. split; [done|]. split; [exact E1|]. split; [exact E3|].
  change (n :: nets) with (networks empty_registry ++ n :: nets).
  rewrite <- E1. vm_compute in E. by injection E as <- <-.
Defined.

End NetworksFacts.

(* ===================================================================== *)
(** * Further properties of the signing session                           *)
(* ===================================================================== *)

Module SignMore.
Import SignModel SignFacts.

(** A sequence of round-advancing calls that all returned. *)
Inductive runs `{C : Collaborators} : list RoundCall → Sign → Sign → Prop :=
| runs_nil t : runs [] t t
| runs_cons call calls t env t1 t2 :
    advance call t = (Return env, t1) → runs calls t1 t2 → runs (call :: calls) t t2.

(** A call of one of the four methods that work on an existing session. *)
Inductive Method `{C : Collaborators} : Type :=
| CallAdvance (call : RoundCall)
| CallGetSignature
| CallExport.

(** The session after the call, whether it returned or threw. *)
Definition after `{C : Collaborators} (m : Method) (t : Sign) : Sign :=
  match m with
  | CallAdvance call => (advance call t).2
  | CallGetSignature => (getSignature t).2
  | CallExport => (export t).2
  end.

Section Methods.

Context `{C : Collaborators}.

Ltac run := unfold bind, Eff.get, put, assert, lift, check, ret, engine, orThrow in *.

(** X1.  On integers as [partyId], [n] and [m], with [n] below [1e21],
    and with [round] left out or a number, the constructor returns
    exactly when every assertion holds: the key share has two buffers,
    [0 <= partyId < n], [n > 1] and [1 <= m <= n], the path is absent or
    a string starting with [m], the hash is a 32-byte buffer, [round] is
    absent or [round >= 0 && round <= 5], and the identity key is given
    and recognised.  The session then holds the three integers unchanged,
    the path or ['m'], the round [parseInt(round) || 0], a new engine and
    no signature. *)
Theorem constructor_returns_iff (p : Params) (t : Sign) (i n m : Z) :
  p_partyId p = JNum (Num i) → p_n p = JNum (Num n) → p_m p = JNum (Num m) →
  n < exponent_from →
  is_nullish (p_round p) || is_number (p_round p) = true →
  constructor p = Return t ↔
  ∃ kc key,
    p_keychain p = Some kc
    ∧ isBuffer (privateKeyShare kc) = true ∧ isBuffer (commonKeyChain kc) = true
    ∧ 0 <= i < n ∧ 1 < n ∧ 0 < m <= n
    ∧ path_accepted (p_derivationPath p) = true
    ∧ (∃ b, p_messageHash p = JBuf b ∧ length b = 32%nat)
    ∧ round_accepted (p_round p) = true
    ∧ is_nullish (p_authKey p) = false
    ∧ PrivateKey_new (p_authKey p) = Some key
    ∧ authKey_recognized key (p_authKey p) = true
    ∧ t = mkSign kc (Num i) (Num n) (Num m)
            (js_or (p_derivationPath p) (JStr "m")) (p_messageHash p)
            (num_or (parseInt (p_round p)) (Num 0)) key
            (Dsg_new (privateKeyShare kc) (Num i)
               (js_or (p_derivationPath p) (JStr "m")) (p_messageHash p))
            None.
Proof.
  intros Ei En Em Hn _. rewrite constructor_Return. split.
  - intros (kc & key & Ekc & Hc & Ek & Hk & ->). exists kc, key.
    pose proof (checks_split _ _ Hc) as ((_ & _ & _ & Ha) & _ & _ & _ & (b & Eb & Hb) & _).
    rewrite (checks_integers p kc i n m b) in Hc by done.
    repeat match goal with
    | H : _ && _ = true |- _ => apply andb_prop in H as [H ?]
    end.
    rewrite (built_integers p kc key i n m) by (try done; lia).
    repeat split; try done; try lia. by exists b.
  - intros (kc & key & Ekc & Hs & Hc & Hi & H1 & Hm & Hp & (b & Eb & Hb) & Hr & Ha & Ek
            & Hk & ->).
    exists kc, key. rewrite (checks_integers p kc i n m b) by done.
    rewrite (built_integers p kc key i n m) by (try done; lia).
    rewrite Ha, Hs, Hc, Hp, Hr, Hb.
    replace (0 <=? i) with true by lia. replace (i <? n) with true by lia.
    replace (1 <? n) with true by lia. replace (0 <? m) with true by lia.
    replace (m <=? n) with true by lia. by repeat split.
Qed.

(** X2.  [initJoin] works once: after a call that returned, a second call
    throws and leaves the session as it is. *)
Theorem initJoin_only_once (t t' : Sign) (env : Envelope AuthP2P AuthBroadcast) :
  initJoin t = (Return env, t') → ∃ e, initJoin t' = (Throw e, t').
Proof.
  intros (E0 & _ & E1)%initJoin_Return. rewrite E0 in E1. simpl in E1.
  unfold initJoin. run. rewrite E1. simpl. by eauto.
Qed.

(** X3.  [nextRound] is refused outside the rounds 1 to 4: in round 0
    (before [initJoin]) and in round 5 (signature ready) it throws and
    leaves the session as it is, whatever it is given; when it returns,
    the round it ran in was 1, 2, 3 or 4. *)
Theorem nextRound_only_between_rounds (t : Sign) (prev : MessagesArg) :
  (round t = Num 0 → ∃ e, nextRound prev t = (Throw e, t))
  ∧ (isSignatureReady t = true → ∃ e, nextRound prev t = (Throw e, t))
  ∧ (∀ env t', nextRound prev t = (Return env, t') → ∃ r, round t = Num r ∧ 0 < r < 5).
Proof.
  split; [|split].
  - intros E. unfold nextRound. run. rewrite E. simpl. by eauto.
  - unfold isSignatureReady. intros E. destruct (round t) as [|r] eqn:Er; [done|].
    simpl in E. apply Z.eqb_eq in E as ->.
    unfold nextRound. run. rewrite Er. simpl. by eauto.
  - intros env t' [H _]%nextRound_Return. exact H.
Qed.

Lemma runs_round calls : ∀ t t' k,
  runs calls t t' → round t = Num k → 0 <= k <= 5 →
  round t' = Num (k + Z.of_nat (length calls)) ∧ k + Z.of_nat (length calls) <= 5
  ∧ (∀ call rest, calls = call :: rest →
       (call = InitJoin ↔ k = 0) ∧ Forall (λ c, c ≠ InitJoin) rest).
Proof.
  induction calls as [|call calls IH]; intros t t' k Hruns Ek Hk.
  - inversion Hruns; subst. simpl. rewrite Z.add_0_r.
    split; [done|]. split; [lia|done].
  - inversion Hruns as [|? ? ? env t1 ? Hcall Hrest]; subst.
    pose proof Hcall as (r & Er & Hr & _ & Er1)%advance_Return.
    rewrite Ek in Er. injection Er as <-.
    destruct (IH _ _ (k + 1) Hrest Er1) as (E' & Hle & Hshape); [lia|].
    split; [rewrite E'; f_equal; simpl length; lia|].
    split; [simpl length; lia|].
    intros ? ? [= <- <-]. split.
    + destruct call as [|prev]; simpl in Hcall.
      * apply initJoin_Return in Hcall as (E0 & _). rewrite Ek in E0.
        injection E0 as ->. done.
      * apply nextRound_Return in Hcall as ((r & Er & Hr') & _).
        rewrite Ek in Er. injection Er as <-. split; [done | lia].
    + destruct calls as [|c rest]; [constructor|].
      destruct (Hshape c rest eq_refl) as [Hc Hrest']. constructor; [|done].
      intros ->. assert (k + 1 = 0) by by apply Hc. lia.
Qed.

(** X4.  The protocol has five steps.  A sequence of calls that all
    returned, started on a session in round 0, is [initJoin] followed by
    [nextRound] calls, has at most five calls, leaves the round equal to
    the number of calls, and makes the signature ready exactly when there
    were five. *)
Theorem five_calls_complete_the_protocol (calls : list RoundCall) (t t' : Sign) :
  runs calls t t' → round t = Num 0 →
  round t' = Num (Z.of_nat (length calls))
  ∧ (length calls <= 5)%nat
  ∧ (isSignatureReady t' = true ↔ length calls = 5%nat)
  ∧ (∀ call rest, calls = call :: rest →
       call = InitJoin ∧ Forall (λ c, c ≠ InitJoin) rest).
Proof.
  intros Hruns E0. destruct (runs_round _ _ _ 0 Hruns E0) as (E & Hle & Hshape); [lia|].
  rewrite Z.add_0_l in E. repeat split.
  - done.
  - lia.
  - unfold isSignatureReady. rewrite E. simpl. rewrite Z.eqb_eq. lia.
  - unfold isSignatureReady. rewrite E. simpl. rewrite Z.eqb_eq. lia.
  - destruct (Hshape _ _ H) as [Hc _]. by apply Hc.
  - by destruct (Hshape _ _ H).
Qed.

(** X5.  No method changes the key share, [partyId], [partySize],
    [minSigners], the derivation path, the message hash or the identity
    key; the round never goes down and goes up by at most one; a cached
    signature is never replaced. *)
Theorem methods_keep_the_session_identity (m : Method) (t : Sign) :
  keychain (after m t) = keychain t ∧ partyId (after m t) = partyId t
  ∧ partySize (after m t) = partySize t ∧ minSigners (after m t) = minSigners t
  ∧ derivationPath (after m t) = derivationPath t
  ∧ messageHash (after m t) = messageHash t ∧ authKey (after m t) = authKey t
  ∧ (round (after m t) = round t ∨ round (after m t) = num_add (round t) (Num 1))
  ∧ (∀ g, signature t = Some g → signature (after m t) = Some g).
Proof.
  assert (Hst : statics (after m t) = statics t
                ∧ (round (after m t) = round t
                   ∨ round (after m t) = num_add (round t) (Num 1))
                ∧ (∀ g, signature t = Some g → signature (after m t) = Some g)).
  { destruct m as [call| |]; simpl.
    - destruct (advance call t) as [o t'] eqn:E. simpl. split; [|split].
      + by eapply advance_statics.
      + destruct (advance_round _ _ _ _ E) as [?|(r & Er & _ & Er')]; [by left|].
        right. by rewrite Er, Er'.
      + revert E. destruct call as [|prev]; simpl.
        * unfold initJoin. run.
          destruct (num_eq _ _); cbv beta iota; [|by intros [= _ <-]].
          destruct (Dsg_init (dsg t)) as [[raw|] d]; cbv beta iota; [|by intros [= _ <-]].
          destruct (serializeBroadcastMessage raw); cbv beta iota; [|by intros [= _ <-]].
          destruct (encryptAndAuthOutgoingMessages _ _ _); cbv beta iota;
            [|by intros [= _ <-]].
          rewrite formatMessage_spec. by intros [= _ <-].
        * unfold nextRound. run.
          destruct (num_gt _ _); cbv beta iota; [|by intros [= _ <-]].
          destruct (num_lt _ _); cbv beta iota; [|by intros [= _ <-]].
          destruct (isArray prev); cbv beta iota; [|by intros [= _ <-]].
          destruct (num_eq _ _); cbv beta iota; [|by intros [= _ <-]].
          destruct (forallb _ _); cbv beta iota; [|by intros [= _ <-]].
          destruct (forallb _ _); cbv beta iota; [|by intros [= _ <-]].
          destruct (decryptAndVerifyIncomingMessages _ _); cbv beta iota;
            [|by intros [= _ <-]].
          destruct (deserializeMessages _); cbv beta iota; [|by intros [= _ <-]].
          destruct (Dsg_handleIncomingMessages _ _) as [[raw|] d]; cbv beta iota;
            [|by intros [= _ <-]].
          destruct (serializeMessages raw); cbv beta iota; [|by intros [= _ <-]].
          destruct (encryptAndAuthOutgoingMessages _ _ _); cbv beta iota;
            [|by intros [= _ <-]].
          rewrite formatMessage_spec. by intros [= _ <-].
    - destruct (getSignature t) as [o t'] eqn:E. simpl.
      pose proof E as (Es & Er & _)%getSignatureWith_state.
      split; [done|]. split; [by left|]. intros g Hg. revert E.
      unfold getSignature, getSignatureWith. run.
      destruct (isSignatureReady t); cbv beta iota; [|by intros [= _ <-]].
      rewrite Hg. by intros [= _ <-].
    - destruct (export t) as [o t'] eqn:E. simpl. apply export_state in E as ->.
      split; [done|]. split; [by left|done]. }
  destruct Hst as ([= ? ? ? ? ? ? ?] & ? & ?). by repeat split.
Qed.




(** X7.  [nextRound] returns when the session is in round 1 to 4, the
    array holds [minSigners - 1] messages, all of the previous round and
    none with the own [partyId], and no collaborator throws.  The message
    it returns carries the round it ran in, the own [partyId] and public
    key and the payloads the channel produced; the round goes up by one
    and the engine is in the state the handler left. *)
Theorem nextRound_accepts (t : Sign) (msgs : list (Envelope AuthP2P AuthBroadcast))
    (r m : Z) verified incoming outgoing d serialized signed :
  round t = Num r → 0 < r < 5 →
  minSigners t = Num m → Z.of_nat (length msgs) = m - 1 →
  Forall (λ msg, env_round msg = JNum (Num (r - 1))) msgs →
  Forall (λ msg, env_partyId msg ≠ JNum (partyId t)) msgs →
  decryptAndVerifyIncomingMessages msgs (authKey t) = Some verified →
  deserializeMessages verified = Some incoming →
  Dsg_handleIncomingMessages (dsg t) incoming = (Some outgoing, d) →
  serializeMessages outgoing = Some serialized →
  encryptAndAuthOutgoingMessages serialized
    (map (λ msg, (env_partyId msg, env_publicKey msg)) msgs) (authKey t) = Some signed →
  nextRound (ArrayOf msgs) t
  = (Return {| env_round := JNum (Num r);
               env_partyId := JNum (partyId t);
               env_publicKey := JStr (publicKey_toString (publicKey (authKey t)));
               env_p2pMessages := p2pMessages signed;
               env_broadcastMessages := broadcastMessages signed |},
     set_round (Num (r + 1)) (set_dsg d t)).
Proof.
  intros Er Hr Em Hlen Hround Hparty E1 E2 E3 E4 E5.
  unfold nextRound. run. rewrite Er, Em. unfold num_gt, num_lt, num_eq, num_sub.
  replace (0 <? r) with true by lia. replace (r <? 5) with true by lia.
  simpl isArray. simpl elements. cbv beta iota.
  replace (Z.of_nat (length msgs) =? m - 1) with true by lia. cbv beta iota.
  assert (forallb (λ msg, strict_eq_num (env_round msg) (Num (r - 1))) msgs = true) as ->.
  { apply forallb_forall. intros msg Hin%list_elem_of_In.
    rewrite Forall_forall in Hround. rewrite (Hround msg Hin). simpl. lia. }
  cbv beta iota.
  assert (forallb (λ msg, negb (strict_eq_num (env_partyId msg) (partyId t))) msgs = true)
    as ->.
  { apply forallb_forall. intros msg Hin%list_elem_of_In.
    rewrite Forall_forall in Hparty. specialize (Hparty msg Hin).
    destruct (env_partyId msg) as [| | |[|j]| | | | |]; try done.
    destruct (partyId t) as [|i]; [done|]. simpl.
    destruct (Z.eqb_spec j i) as [->|]; [done|done]. }
  cbv beta iota. rewrite E1. cbv beta iota. rewrite E2. cbv beta iota.
  rewrite E3. cbv beta iota. rewrite E4. cbv beta iota.
  simpl authKey. rewrite E5. cbv beta iota.
  rewrite formatMessage_spec. simpl. by rewrite Er.
Qed.

(** X8.  [restore] on an exported record builds the session anew, when
    the session's numbers are within the ranges the constructor checks
    and its path has no colon and survives the conversion to UTF-8 and
    back: the new session has the exported numbers, path and hash, the
    key share and identity key it was given, no cached signature, and an
    engine created from these arguments and then given exactly the
    exported session bytes. *)
Theorem restore_rebuilds_the_engine (t t' : Sign) (key : jsval) (record : string) :
  well_formed t →
  has_char ":"%char (to_string (derivationPath t)) = false →
  utf8_decode (utf8_encode (to_string (derivationPath t))) = to_string (derivationPath t) →
  export t = (Return record, t') →
  is_nullish key = false →
  PrivateKey_new key = Some (authKey t) →
  authKey_recognized (authKey t) key = true →
  (∀ m c, encrypt m (publicKey (authKey t)) (authKey t) = Some c →
          decrypt c (publicKey (authKey t)) (authKey t) = Some m) →
  (∀ d bytes, Dsg_sessionBytes (dsg t) = Some bytes →
              (Dsg_setSession d bytes).1 = Some ()) →
  ∃ bytes,
    Dsg_sessionBytes (dsg t) = Some bytes
    ∧ restore record (Some (keychain t)) key
      = Return (mkSign (keychain t) (partyId t) (partySize t) (minSigners t)
                  (derivationPath t) (messageHash t) (round t) (authKey t)
                  (Dsg_setSession
                     (Dsg_new (privateKeyShare (keychain t)) (partyId t)
                        (derivationPath t) (messageHash t)) bytes).2
                  None).
Proof.
  intros [Hs Hc (i & n & m & Ei & En & Em & Hi & Hn & Hm) (path & Ep & Hp)
          (hash & Eh & Hh) (r & Er & Hr)]
         Hcolon Hutf (bytes & b & buf & E1 & E2 & E3 & E4 & E5 & -> & ->)%export_Return
         Hnull Hkey Hrec Hdec Hset.
  exists bytes. split; [done|].
  rewrite Eh in E4. injection E4 as <-.
  rewrite Er, En, Em, Ei, Ep in E5. rewrite Ep in Hcolon, Hutf. simpl in Hcolon, Hutf.
  assert (0 < r) as Hr0 by (rewrite Er in E1; unfold num_gt in E1; simpl in E1; lia).
  apply Hdec in E5.
  unfold restore, mbind, outcome_bind, check, orThrow.
  rewrite Hkey. cbv beta iota. rewrite Hrec. cbv beta iota.
  rewrite EncodingFacts.base64_decode_encode, E5. cbv beta iota.
  cbn [to_string].
  rewrite EncodingFacts.utf8_record;
    try apply EncodingFacts.num_to_string_ascii; try apply EncodingFacts.base64_ascii;
    [|exact Hutf].
  rewrite split_fields;
    try apply JsFacts.num_to_string_no_colon; try apply EncodingFacts.base64_no_colon;
    [|exact Hcolon].
  cbv [item lookup list_lookup Buffer_from_base64].
  rewrite !EncodingFacts.base64_decode_encode. cbv beta iota.
  change (parseInt (JStr (num_to_string (Num r)))) with (parseInt (JNum (Num r))).
  change (parseInt (JStr (num_to_string (Num n)))) with (parseInt (JNum (Num n))).
  change (parseInt (JStr (num_to_string (Num m)))) with (parseInt (JNum (Num m))).
  change (parseInt (JStr (num_to_string (Num i)))) with (parseInt (JNum (Num i))).
  rewrite !JsFacts.parseInt_nonneg by (unfold exponent_from in *; lia).
  match goal with |- context [constructor ?q] =>
    assert (Hq : constructor q = Return (built q (keychain t) (authKey t))) end.
  { apply constructor_Return. exists (keychain t), (authKey t).
    repeat split; try done.
    rewrite (checks_integers _ _ i n m hash) by (try done; lia).
    cbn [p_authKey p_derivationPath p_round].
    rewrite Hnull, Hs, Hc, Hh. unfold path_accepted, round_accepted.
    cbn [is_nullish is_string to_string orb andb negb]. rewrite Hp.
    rewrite JsFacts.js_ge_int, JsFacts.js_le_int.
    replace (0 <=? i) with true by lia. replace (i <? n) with true by lia.
    replace (1 <? n) with true by lia. replace (0 <? m) with true by lia.
    replace (m <=? n) with true by lia. replace (0 <=? r) with true by lia.
    replace (r <=? 5) with true by lia. reflexivity. }
  rewrite Hq. cbv beta iota.
  rewrite (built_integers _ _ _ i n m) by (try done; lia).
  cbn [dsg p_derivationPath p_messageHash p_round].
  assert (js_or (JStr path) (JStr "m") = JStr path) as ->.
  { unfold js_or. simpl. by destruct path. }
  rewrite JsFacts.parseInt_nonneg by (unfold exponent_from; lia).
  assert (num_or (Num r) (Num 0) = Num r) as ->.
  { unfold num_or. simpl. by destruct (Z.eqb_spec r 0); [lia|]. }
  rewrite Ei, Ep, Eh, En, Em, Er.
  match goal with |- context [Dsg_setSession ?d bytes] =>
    specialize (Hset d bytes E3); destruct (Dsg_setSession d bytes) as [[[]|] d'] end;
    [|done].
  reflexivity.
Qed.

(** X9.  [restore] throws when the record cannot be decrypted, and when
    the decrypted text has fewer than seven fields separated by colons:
    the missing message hash is [undefined], on which [Buffer.from]
    throws before the constructor is reached. *)
Theorem restore_rejects_short_record (session : string) (kc : option Keychain)
    (key : jsval) (k : PrivateKey) :
  PrivateKey_new key = Some k →
  (decrypt (base64_decode session) (publicKey k) k = None
   ∨ ∃ plain, decrypt (base64_decode session) (publicKey k) k = Some plain
              ∧ (length (split ":"%char (utf8_decode plain)) < 7)%nat) →
  ∃ e, restore session kc key = Throw e.
Proof.
  intros Hk H. unfold restore, mbind, outcome_bind, check, orThrow. rewrite Hk.
  cbv beta iota. destruct (authKey_recognized k key); cbv beta iota; [|by eauto].
  destruct H as [->|(plain & -> & Hlen)]; cbv beta iota; [by eauto|].
  assert (item (split ":"%char (utf8_decode plain)) 6 = JUndefined) as ->.
  { unfold item. by rewrite lookup_ge_None_2 by lia. }
  simpl. by eauto.
Qed.

(** X10.  On a completed session with nothing cached, when the assembler
    returns the text [v:R:S:P], [getSignature] returns and caches
    [{ r: '0x' + R, s: '0x' + S, v: parseInt(v), pubKey: P }]. *)
Theorem getSignature_converts_the_assembled_text (t : Sign) (chain : list byte)
    (v R S P : string) :
  isSignatureReady t = true → signature t = None →
  commonKeyChain (keychain t) = JBuf chain →
  has_char ":"%char v = false → has_char ":"%char R = false →
  has_char ":"%char S = false → has_char ":"%char P = false →
  verifyAndConvertDklsSignature (messageHash t) (Dsg_signature (dsg t))
    (hex_encode chain) (derivationPath t)
  = Some (v +:+ ":" +:+ R +:+ ":" +:+ S +:+ ":" +:+ P) →
  getSignature t
  = (Return (mkSignature ("0x" +:+ R) ("0x" +:+ S) (parseInt_str v) (JStr P)),
     set_signature (mkSignature ("0x" +:+ R) ("0x" +:+ S) (parseInt_str v) (JStr P)) t).
Proof.
  intros Hready Hsig Hchain Hv HR HS HP Hasm.
  unfold getSignature, getSignatureWith. run. rewrite Hready, Hsig. cbv beta iota.
  unfold assemble, mbind, outcome_bind, mret, outcome_ret, orThrow.
  rewrite Hchain. simpl toString_hex. cbv beta iota. rewrite Hasm. cbv beta iota.
  change (v +:+ ":" +:+ R +:+ ":" +:+ S +:+ ":" +:+ P)
    with (v +:+ String ":" (R +:+ String ":" (S +:+ String ":" P))).
  rewrite !JsFacts.split_first by done. rewrite JsFacts.split_whole by done.
  reflexivity.
Qed.

(** X11.  A session that the constructor made from integers below
    [1e21] ([round] left out or an integer) has, after any sequence of
    method calls, whether they returned or threw, two buffers as key
    share, [0 <= partyId < partySize], [partySize > 1],
    [1 <= minSigners <= partySize], a path that is a string starting with
    [m], a 32-byte message hash and a round within 0..5. *)
Theorem sessions_stay_well_formed (p : Params) (t : Sign) (i n m : Z)
    (calls : list Method) :
  p_partyId p = JNum (Num i) → p_n p = JNum (Num n) → p_m p = JNum (Num m) →
  n < exponent_from →
  is_nullish (p_round p) = true ∨ (∃ k, p_round p = JNum (Num k)) →
  constructor p = Return t →
  well_formed (foldl (λ s c, after c s) t calls).
Proof.
  intros Ei En Em Hn Hr E.
  pose proof (constructor_well_formed p t i n m Ei En Em Hn Hr E) as Hwf. clear E.
  revert t Hwf. induction calls as [|c calls IH]; intros t Hwf; [done|].
  simpl. apply IH. destruct c as [call| |]; simpl.
  - destruct (advance call t) as [o t1] eqn:E. simpl.
    eapply well_formed_transfer; [exact Hwf|by eapply advance_statics|].
    destruct (wf_round _ Hwf) as (r & Er & Hr').
    destruct (advance_round _ _ _ _ E) as [E'|(k & Ek & Hk & E')].
    + exists r. by rewrite E'.
    + exists (k + 1). split; [done | lia].
  - destruct (getSignature t) as [o t1] eqn:E. simpl.
    apply getSignatureWith_state in E as (Es & Er & _).
    eapply well_formed_transfer; [exact Hwf|done|]. rewrite Er. apply (wf_round _ Hwf).
  - destruct (export t) as [o t1] eqn:E. simpl. by apply export_state in E as ->.
Qed.

End Methods.

(** *** The properties at concrete sessions *)

Import Toy.

Lemma constructor_returns_iff_witness :
  constructor (C := toy) (toy_params (JStr "m/0/1") None)
  = Return (toy_session (JStr "m/0/1") 0 None None).
Proof.
  apply (proj2 (constructor_returns_iff (C := toy) (toy_params (JStr "m/0/1") None) _
                  0 3 2 eq_refl eq_refl eq_refl eq_refl eq_refl)).
  exists toy_keychain, key32.
  repeat split; try reflexivity; try lia. by exists zeros32.
Defined.

Lemma initJoin_only_once_witness :
  ∃ e, initJoin (toy_session (JStr "m/0/1") 1 (Some [Byte.x01]) None)
       = (Throw e, toy_session (JStr "m/0/1") 1 (Some [Byte.x01]) None).
Proof.
  eapply (initJoin_only_once (C := toy) (toy_session (JStr "m/0/1") 0 None None)).
  reflexivity.
Defined.

Lemma nextRound_only_between_rounds_witness :
  ∃ e, nextRound (ArrayOf (C := toy) [from_party1 0]) (toy_session (JStr "m/0/1") 0 None None)
       = (Throw e, toy_session (JStr "m/0/1") 0 None None).
Proof.
  apply (proj1 (nextRound_only_between_rounds (C := toy) _ _)). reflexivity.
Defined.

Lemma five_calls_complete_the_protocol_witness :
  round (toy_session (JStr "m/0/1") 2 (Some [Byte.x01; Byte.x01]) None) = Num 2
  ∧ (2 <= 5)%nat
  ∧ (isSignatureReady (toy_session (JStr "m/0/1") 2 (Some [Byte.x01; Byte.x01]) None) = true
     ↔ 2%nat = 5%nat)
  ∧ (∀ call rest,
       [InitJoin; NextRound (ArrayOf (C := toy) [from_party1 0])] = call :: rest →
       call = InitJoin ∧ Forall (λ c, c ≠ InitJoin) rest).
Proof.
  apply (five_calls_complete_the_protocol (C := toy)
           [InitJoin; NextRound (ArrayOf (C := toy) [from_party1 0])]
           (toy_session (JStr "m/0/1") 0 None None)).
  - apply (runs_cons (C := toy) InitJoin _ _
             (mkEnvelope (JNum (Num 0)) (JNum (Num 0)) (JStr (hex_encode key32)) [] [()])
             (toy_session (JStr "m/0/1") 1 (Some [Byte.x01]) None)); [reflexivity|].
    apply (runs_cons (C := toy) _ _ _
             (mkEnvelope (JNum (Num 1)) (JNum (Num 0)) (JStr (hex_encode key32)) [] [()])
             (toy_session (JStr "m/0/1") 2 (Some [Byte.x01; Byte.x01]) None));
      [reflexivity|].
    apply runs_nil.
  - reflexivity.
Defined.

Lemma methods_keep_the_session_identity_witness :
  partyId (after (CallAdvance InitJoin) (toy_session (JStr "m/0/1") 0 None None)) = Num 0
  ∧ round (after (CallAdvance InitJoin) (toy_session (JStr "m/0/1") 0 None None)) = Num 1.
Proof.
  destruct (methods_keep_the_session_identity (C := toy) (CallAdvance InitJoin)
              (toy_session (JStr "m/0/1") 0 None None))
    as (_ & E & _ & _ & _ & _ & _ & _ & _).
  split; [exact E | reflexivity].
Defined.


Lemma nextRound_accepts_witness :
  nextRound (ArrayOf (C := toy) [from_party1 0])
            (toy_session (JStr "m/0/1") 1 (Some [Byte.x01]) None)
  = (Return (mkEnvelope (JNum (Num 1)) (JNum (Num 0)) (JStr (hex_encode key32)) [] [()]),
     toy_session (JStr "m/0/1") 2 (Some [Byte.x01; Byte.x01]) None).
Proof.
  apply (nextRound_accepts (C := toy)
           (toy_session (JStr "m/0/1") 1 (Some [Byte.x01]) None)
           [from_party1 0] 1 2 (mkMessages [] [()]) () ()
           (Some [Byte.x01; Byte.x01]) (mkMessages [] [()]) (mkMessages [] [()])).
  - reflexivity.
  - lia.
  - reflexivity.
  - reflexivity.
  - repeat constructor.
  - repeat constructor. simpl. discriminate.
  - reflexivity.
  - reflexivity.
  - reflexivity.
  - reflexivity.
  - reflexivity.
Defined.

Lemma restore_rebuilds_the_engine_witness :
  ∃ bytes,
    Some [Byte.x01] = Some bytes
    ∧ restore (C := toy)
        "PUFBQUFBQUFBQUFBQUFBQUFBQUFBQUFBQUFBQUFBQUFBQUFBQUFBQUFBQUE6PT1RQToxLzAvbTowOjI6Mzox"
        (Some toy_keychain) (JBuf key32)
      = Return (toy_session (JStr "m/0/1") 1 (Some bytes) None).
Proof.
  apply (restore_rebuilds_the_engine (C := toy)
           (toy_session (JStr "m/0/1") 1 (Some [Byte.x01]) None)
           (toy_session (JStr "m/0/1") 1 (Some [Byte.x01]) None) (JBuf key32)).
  - apply toy_well_formed; [reflexivity | lia].
  - reflexivity.
  - by vm_compute.
  - vm_compute. reflexivity.
  - reflexivity.
  - reflexivity.
  - reflexivity.
  - intros m c [= <-]. simpl. by rewrite rev_involutive.
  - reflexivity.
Defined.

Lemma restore_rejects_short_record_witness :
  ∃ e, restore (C := toy) "MTozOjI6MA==" (Some toy_keychain) (JBuf key32) = Throw e.
Proof.
  apply (restore_rejects_short_record (C := toy) _ _ _ key32).
  - reflexivity.
  - right. eexists. split; [reflexivity|]. vm_compute. lia.
Defined.

Lemma getSignature_converts_the_assembled_text_witness :
  getSignature (toy_session (JStr "m") 5 (Some [Byte.x01]) None)
  = (Return (mkSignature "0x0a" "0x0b" (Num 1) (JStr "02cc")),
     toy_session (JStr "m") 5 (Some [Byte.x01])
       (Some (mkSignature "0x0a" "0x0b" (Num 1) (JStr "02cc")))).
Proof.
  apply (getSignature_converts_the_assembled_text (C := toy)
           (toy_session (JStr "m") 5 (Some [Byte.x01]) None) [Byte.x03] "1" "0a" "0b" "02cc");
    reflexivity.
Defined.

Lemma sessions_stay_well_formed_witness :
  well_formed (toy_session (JStr "m/0/1") 1 (Some [Byte.x01]) None).
Proof.
  apply (sessions_stay_well_formed (C := toy) (toy_params (JStr "m/0/1") None)
           (toy_session (JStr "m/0/1") 0 None None) 0 3 2
           [CallAdvance InitJoin; CallExport; CallGetSignature]).
  - reflexivity.
  - reflexivity.
  - reflexivity.
  - reflexivity.
  - by left.
  - reflexivity.
Defined.

End SignMore.


(* ===================================================================== *)
(** * Further properties of the registry of networks                      *)
(* ===================================================================== *)

Module NetworksMore.
Import Networks NetworksFacts.

(** ** removeNetwork *)

(** What [network] holds once [removeNetwork] has looked its argument
    up: a network object, the empty array [networkMaps[key]] that [get]
    hands back as it is, or something that is neither. *)
Inductive Target : Type :=
| TNetwork (n : Network)
| TEmptyArray (key : string)
| TOther.

(** [if (typeof network !== 'object') { network = get(network); }] *)
Definition target (r : Registry) (arg : GetArg) : Target :=
  match arg with
  | ArgNetwork n => TNetwork n
  | ArgValue v =>
      if typeof_object v then TOther
      else match get r arg NoKeys with
           | Return (Found n) => TNetwork n
           | Return EmptyArray => TEmptyArray (to_string v)
           | _ => TOther
           end
  end.

(** The loop over [networks]: [splice(i, 1)] where [networks[i] ===
    network]; the element that moves into place [i] is passed over by
    [i++]. *)
Fixpoint spliceOut (n : Network) (l : list Network) : list Network :=
  match l with
  | [] => []
  | x :: l' =>
      if decide (x = n)
      then match l' with
           | [] => []
           | y :: l'' => y :: spliceOut n l''
           end
      else x :: spliceOut n l'
  end.

(** [indexOf(network)] followed by [splice(index, 1)] when found. *)
Fixpoint removeFirst (n : Network) (l : list Network) : list Network :=
  match l with
  | [] => []
  | x :: l' => if decide (x = n) then l' else x :: removeFirst n l'
  end.

(** The body of the loop over the keys of [networkMaps]; [None] stands
    for [delete networkMaps[key]]. *)
Definition unindex (network : Target) (key : string) (l : list Network)
  : option (list Network) :=
  match l with
  | [] =>
      match network with
      | TEmptyArray k => if decide (k = key) then None else Some []
      | _ => Some []
      end
  | _ :: _ =>
      let l' := match network with TNetwork n => removeFirst n l | _ => l end in
      match l' with [] => None | _ :: _ => Some l' end
  end.

Local Open Scope eff_scope.

(** [removeNetwork(network)] *)
Definition removeNetwork (arg : GetArg) : M Registry unit :=
  let! r := Eff.get in
  let network := target r arg in
  do! put (mkRegistry
             (match network with TNetwork n => spliceOut n (networks r) | _ => networks r end)
             (networkMaps r) (created r)) in
  let! r := Eff.get in
  put (mkRegistry (networks r) (map_imap (unindex network) (networkMaps r)) (created r)).

(** The registry [removeNetwork] leaves; the call itself returns nothing
    and never throws. *)
Definition removed (arg : GetArg) (r : Registry) : Registry := (removeNetwork arg r).2.

(** ** What registries built by [add] have in common *)

(** Beside the agreement of index and list: every network was created
    before the counter reached its present value, no two networks are the
    same object, and no key of the index is the name of a property of
    [Object.prototype]. *)
Record sound (r : Registry) : Prop := {
  snd_indexed : indexed r;
  snd_ids : ∀ n, n ∈ networks r → (net_id n < created r)%nat;
  snd_nodup : NoDup (net_id <$> networks r);
  snd_own : ∀ k, is_Some (networkMaps r !! k) → inherited k = None;
}.

Section Registry.

Variable integerAsBuffer : jsval → option (list byte).

Ltac run := unfold bind, Eff.get, put, assert, lift, check, ret, orThrow in *.

(** A property of the registry that every run of the first part of
    [addNetwork] keeps, whatever its outcome, is kept by [addNetwork]. *)
Lemma addNetworkFrom_keeps (P : Registry → Prop) :
  (∀ data r o r', P r → register integerAsBuffer data r = (o, r') → P r') →
  ∀ d base r o r', P r → addNetworkFrom integerAsBuffer base d r = (o, r') → P r'.
Proof.
  intros Hreg.
  assert (Hloop : ∀ b l, Forall (λ d, ∀ base r o r', P r →
                            addNetworkFrom integerAsBuffer base d r = (o, r') → P r') l →
            ∀ r o r', P r → eachVariant integerAsBuffer b l r = (o, r') → P r').
  { intros b l. induction 1 as [|v l Hv _ IHl]; intros r o r' Hr; simpl.
    - by intros [= _ <-].
    - unfold bind at 1.
      destruct (addNetworkFrom _ _ v r) as [[n1|e] r1] eqn:E.
      + apply IHl. by eapply Hv.
      + intros [= _ <-]. by eapply Hv. }
  induction d as [own|own vs IH] using NetData_tree_ind; intros base r o r' Hr;
    rewrite addNetworkFrom_eq; unfold bind at 1;
    destruct (register _ _ r) as [[n0|e] r1] eqn:E.
  - unfold bind, ret. intros [= _ <-]. by eapply Hreg.
  - intros [= _ <-]. by eapply Hreg.
  - unfold bind at 1.
    destruct (eachVariant _ _ vs r1) as [[[]|e] r2] eqn:E2.
    + unfold ret. intros [= _ <-]. eapply Hloop; [exact IH| |exact E2]. by eapply Hreg.
    + intros [= _ <-]. eapply Hloop; [exact IH| |exact E2]. by eapply Hreg.
  - intros [= _ <-]. by eapply Hreg.
Qed.

(** The stages of [register], whatever the outcome. *)
Lemma newNetwork_tables data r o r' :
  newNetwork integerAsBuffer data r = (o, r') →
  networks r' = networks r ∧ networkMaps r' = networkMaps r.
Proof.
  unfold newNetwork. run.
  destruct (truthy _); simpl; [|by intros [= _ <-]].
  destruct (integerAsBuffer _); simpl; by intros [= _ <-].
Qed.

Lemma indexValue_tables n value r o r' :
  indexValue n value r = (o, r') →
  networks r' = networks r
  ∧ (networkMaps r' = networkMaps r
     ∨ ∃ l, networkMaps r' = <[to_string value := l ++ [n]]> (networkMaps r)
            ∧ (networkMaps r !! to_string value = Some l
               ∨ networkMaps r !! to_string value = None ∧ l = []
                 ∧ inherited (to_string value) = None)).
Proof.
  unfold indexValue. run.
  destruct (indexable value); [|intros [= _ <-]; by auto].
  destruct (networkMaps r !! to_string value) as [l|] eqn:E; simpl.
  - intros [= _ <-]. simpl. split; [done|]. right. exists l. by auto.
  - destruct (inherited _) eqn:Ei; intros [= _ <-]; simpl; [by auto|].
    split; [done|]. right. exists []. by auto.
Qed.

Lemma forEach_index_networks n vals : ∀ r o r',
  forEach (indexValue n) vals r = (o, r') → networks r' = networks r.
Proof.
  induction vals as [|v vals IH]; intros r o r'; simpl.
  - by intros [= _ <-].
  - unfold bind at 1. destruct (indexValue n v r) as [[[]|e] r1] eqn:E.
    + apply indexValue_tables in E as [E _]. intros ->%IH. done.
    + apply indexValue_tables in E as [E _]. by intros [= _ <-].
Qed.

Lemma forEach_index_own n vals : ∀ r o r',
  (∀ k, is_Some (networkMaps r !! k) → inherited k = None) →
  forEach (indexValue n) vals r = (o, r') →
  ∀ k, is_Some (networkMaps r' !! k) → inherited k = None.
Proof.
  assert (Hstep : ∀ v r o r',
            (∀ k, is_Some (networkMaps r !! k) → inherited k = None) →
            indexValue n v r = (o, r') →
            ∀ k, is_Some (networkMaps r' !! k) → inherited k = None).
  { intros v r o r' H (_ & [->|(l & -> & Hl)])%indexValue_tables k; [by apply H|].
    destruct (decide (to_string v = k)) as [<-|Hne].
    - intros _. destruct Hl as [Hl|(_ & _ & Hl)]; [|done]. apply H. by rewrite Hl.
    - rewrite lookup_insert_ne by done. apply H. }
  induction vals as [|v vals IH]; intros r o r' H; simpl.
  - by intros [= _ <-].
  - unfold bind at 1. destruct (indexValue n v r) as [[[]|e] r1] eqn:E.
    + apply IH. by eapply Hstep.
    + intros [= _ <-]. by eapply Hstep.
Qed.

Lemma register_networks data r o r' :
  register integerAsBuffer data r = (o, r') →
  networks r' = networks r ∨ ∃ n, o = Return n ∧ networks r' = networks r ++ [n].
Proof.
  unfold register. unfold bind at 1.
  destruct (newNetwork _ data r) as [[n0|e] r1] eqn:E1.
  - apply newNetwork_tables in E1 as [E1 _]. unfold bind at 1.
    destruct (forEach _ _ r1) as [[[]|e] r2] eqn:E2.
    + apply forEach_index_networks in E2. run. intros [= <- <-]. simpl.
      right. exists n0. by rewrite E2, E1.
    + apply forEach_index_networks in E2. intros [= _ <-]. left. by rewrite E2.
  - apply newNetwork_tables in E1 as [E1 _]. intros [= _ <-]. by left.
Qed.

Lemma register_own data r o r' :
  (∀ k, is_Some (networkMaps r !! k) → inherited k = None) →
  register integerAsBuffer data r = (o, r') →
  ∀ k, is_Some (networkMaps r' !! k) → inherited k = None.
Proof.
  intros H. unfold register. unfold bind at 1.
  destruct (newNetwork _ data r) as [[n0|e] r1] eqn:E1;
    apply newNetwork_tables in E1 as [_ E1]; rewrite <- E1 in H.
  - unfold bind at 1.
    destruct (forEach _ _ r1) as [[[]|e] r2] eqn:E2.
    + run. intros [= _ <-]. simpl. by eapply forEach_index_own.
    + intros [= _ <-]. by eapply forEach_index_own.
  - by intros [= _ <-].
Qed.

Lemma built_from_In id ds ns n :
  built_from integerAsBuffer id ds ns → n ∈ ns →
  (id <= net_id n < id + length ns)%nat.
Proof.
  intros H (k & Hk)%list_elem_of_lookup.
  rewrite (built_from_ids _ _ _ _ H k n Hk). apply lookup_lt_Some in Hk. lia.
Qed.

Lemma built_from_NoDup id ds ns :
  built_from integerAsBuffer id ds ns → NoDup (net_id <$> ns).
Proof.
  revert id ns. induction ds as [|d ds IH]; intros id [|n ns]; simpl; try done.
  - intros _. constructor.
  - intros [Hn H]. constructor; [|by eapply IH].
    intros (n' & E & Hn')%list_elem_of_fmap.
    pose proof (built_from_In _ _ _ _ H Hn').
    assert (net_id n = id).
    { pose proof (built_from_ids integerAsBuffer id (d :: ds) (n :: ns)
                    (conj Hn H) 0%nat n eq_refl). lia. }
    lia.
Qed.

Lemma registered_sound r : registered integerAsBuffer r → sound r.
Proof.
  induction 1 as [|r data n r' Hreg IH E].
  - constructor; simpl.
    + by constructor.
    + by intros n []%elem_of_nil.
    + constructor.
    + intros k [x Hx]. by rewrite lookup_empty in Hx.
  - destruct IH as [Hidx Hids Hnodup Hown].
    pose proof E as [nets Hext]%addNetworkFrom_Return.
    destruct Hext as [E1 E2 E3 E4]. constructor.
    + eapply extends_indexed; [|exact Hidx]. by constructor.
    + rewrite E1, E2. intros n' [Hn'|Hn']%elem_of_app.
      * apply Hids in Hn'. lia.
      * pose proof (built_from_In _ _ _ _ E3 Hn'). lia.
    + rewrite E1, fmap_app. apply NoDup_app. split; [done|]. split.
      * intros i (n1 & -> & H1)%list_elem_of_fmap (n2 & E' & H2)%list_elem_of_fmap.
        apply Hids in H1. pose proof (built_from_In _ _ _ _ E3 H2). lia.
      * by eapply built_from_NoDup.
    + eapply (addNetworkFrom_keeps
                (λ r, ∀ k, is_Some (networkMaps r !! k) → inherited k = None));
        [|exact Hown|exact E].
      intros data' r0 o r0' H0 E0. by eapply register_own.
Qed.

(** ** Lookup *)

(** What a registry whose index agrees with its list holds under a key. *)
Lemma indexed_lookup r k :
  indexed r →
  networkMaps r !! k
  = match flat_map (occurrences k) (networks r) with [] => None | l => Some l end.
Proof.
  intros [Hl Hne]. specialize (Hl k). specialize (Hne k).
  destruct (networkMaps r !! k) as [[|x l]|]; simpl in Hl; try done; by rewrite <- Hl.
Qed.

Lemma occurrences_registered r k n :
  n ∈ flat_map (occurrences k) (networks r) → n ∈ networks r ∧ k ∈ keys n.
Proof.
  intros (y & Hy & Hn)%list_elem_of_In%in_flat_map.
  apply list_elem_of_In in Hy, Hn.
  pose proof (occurrences_same _ _ _ Hn) as ->. split; [done|].
  destruct (decide (k ∈ keys y)) as [|Hno]; [done|].
  apply occurrences_nil in Hno. rewrite Hno in Hn. by apply elem_of_nil in Hn.
Qed.

Lemma get_keyless r v :
  get r (ArgValue v) NoKeys
  = Return (match networkMaps r !! to_string v with
            | Some (n0 :: _) => Found n0
            | Some [] => EmptyArray
            | None => match inherited (to_string v) with
                      | Some (Some len) =>
                          if 1 <=? len then Undefined else Inherited (to_string v)
                      | Some None => Inherited (to_string v)
                      | None => Undefined
                      end
            end).
Proof. reflexivity. Qed.


(** On a primitive, [===] is true exactly of the value itself, but for
    [NaN], which is equal to nothing. *)
Lemma strict_eq_primitive a :
  primitive a = true → a ≠ JNum NaN → strict_eq a a = true.
Proof.
  destruct a as [| |x|[|x]|x| | | |n1 m1 d1 e1]; simpl; try done; intros _ _.
  - by apply bool_decide_eq_true.
  - apply Z.eqb_refl.
  - apply String.eqb_refl.
  - by apply bool_decide_eq_true.
Qed.

(** X12.  In a registry built by [add], whatever [get] returns as a
    network is a registered network, for every argument and every
    [keys]. *)
Theorem get_returns_only_registered (r : Registry) (arg : GetArg) (ks : KeysArg)
    (n : Network) :
  registered integerAsBuffer r → get r arg ks = Return (Found n) → n ∈ networks r.
Proof.
  intros Hidx%registered_indexed.
  assert (Hkey : ∀ key, match networkMaps r !! key with
                        | Some (n0 :: _) => Found n0
                        | Some [] => EmptyArray
                        | None => match inherited key with
                                  | Some (Some len) =>
                                      if 1 <=? len then Undefined else Inherited key
                                  | Some None => Inherited key
                                  | None => Undefined
                                  end
                        end = Found n → n ∈ networks r).
  { intros key. rewrite (indexed_lookup _ _ Hidx).
    destruct (flat_map _ _) as [|x l] eqn:E.
    - destruct (inherited key) as [[len|]|]; [by destruct (1 <=? len)|done|done].
    - intros [= ->]. apply (occurrences_registered r key). rewrite E. by left. }
  assert (Hfind : ∀ P `{∀ x, Decision (P x)},
            from_option Found Undefined (snd <$> list_find P (networks r)) = Found n →
            n ∈ networks r).
  { intros P ?. destruct (list_find P (networks r)) as [[i x]|] eqn:E; [|done].
    simpl. intros [= ->]. apply list_find_Some in E as [E _].
    by eapply list_elem_of_lookup_2. }
  unfold get. destruct arg as [n'|v].
  - case_bool_decide as Hin; [by intros [= <-]|].
    destruct (keyList ks); [done|].
    destruct (keyOf (ArgNetwork n')) as [key|e]; [|done]. simpl.
    intros [= E]. by apply (Hkey key).
  - destruct (keyList ks) as [l|].
    + intros [= E]. by eapply Hfind.
    + simpl. intros [= E]. by apply (Hkey (to_string v)).
Qed.

(** X13.  In a registry built by [add], the keyless [get] of a value no
    registered network is indexed under never returns a network; it
    returns [undefined], unless the value is the name of a property of
    [Object.prototype], which [networkMaps] then answers for. *)
Theorem get_of_unknown_value (r : Registry) (v : jsval) :
  registered integerAsBuffer r →
  (∀ n, n ∈ networks r → to_string v ∉ keys n) →
  (∀ n, get r (ArgValue v) NoKeys ≠ Return (Found n))
  ∧ (inherited (to_string v) = None → get r (ArgValue v) NoKeys = Return Undefined).
Proof.
  intros Hidx%registered_indexed Hnone.
  rewrite get_keyless, (indexed_lookup _ _ Hidx).
  destruct (flat_map _ _) as [|x l] eqn:E.
  - split; [|by intros ->].
    intros n. destruct (inherited _) as [[len|]|]; [by destruct (1 <=? len)|done|done].
  - exfalso. destruct (occurrences_registered r (to_string v) x) as [Hx Hk].
    { rewrite E. by left. }
    by apply (Hnone x).
Qed.


(** ** add *)

Lemma network_of_name id data n :
  network_of integerAsBuffer id data = Some n → name n = prop data "name".
Proof. unfold network_of. by intros (magic & _ & [= <-])%bind_Some. Qed.

Lemma indexValue_inherited n v r :
  indexable v = true → networkMaps r !! to_string v = None →
  is_Some (inherited (to_string v)) →
  indexValue n v r = (Throw "networkMaps[value].push is not a function", r).
Proof.
  intros Hi Hnone [len Hinh]. unfold indexValue. rewrite Hi.
  unfold bind, Eff.get. by rewrite Hnone, Hinh.
Qed.

Lemma forEach_first_inherited n v vals r :
  indexable v = true → networkMaps r !! to_string v = None →
  is_Some (inherited (to_string v)) →
  forEach (indexValue n) (v :: vals) r
  = (Throw "networkMaps[value].push is not a function", r).
Proof.
  intros Hi Hnone Hinh. cbn [forEach]. unfold bind.
  by rewrite indexValue_inherited.
Qed.

(** X15.  [add] of an object whose [name] is the name of a property of
    [Object.prototype] (['constructor'], ['toString'], ['valueOf'], ...)
    throws, in any registry built by [add]: [networkMaps[name]] finds the
    inherited property, which has no [push].  Neither table is changed. *)
Theorem add_rejects_inherited_name (r : Registry) (own : gmap string jsval)
    (vs : option (list NetData)) (key : string) :
  registered integerAsBuffer r →
  prop own "name" = JStr key → is_Some (inherited key) →
  ∃ e r', addNetwork integerAsBuffer (mkData own vs) r = (Throw e, r')
          ∧ networks r' = networks r ∧ networkMaps r' = networkMaps r.
Proof.
  intros [Hidx _ _ Hown]%registered_sound Hname [len Hinh].
  assert (Hnone : networkMaps r !! key = None).
  { destruct (networkMaps r !! key) eqn:E; [|done].
    rewrite Hown in Hinh; [done | by rewrite E]. }
  unfold addNetwork. rewrite addNetworkFrom_eq, (right_id_L ∅ (∪)).
  unfold bind at 1. unfold register. unfold bind at 1.
  destruct (newNetwork _ own r) as [[n|e] r1] eqn:E.
  - apply newNetwork_Return in E as [Hn ->].
    apply network_of_name in Hn. rewrite Hname in Hn.
    unfold bind at 1. unfold values. rewrite Hn. cbn [app].
    rewrite forEach_first_inherited; [by eauto|done|done|by exists len].
  - apply newNetwork_tables in E as [E1 E2]. by eauto.
Qed.

(** X16.  [add] never removes or reorders anything, also when it throws:
    afterwards [networks] is the old list with networks appended and each
    list of the index is the old list with entries appended.  There is no
    rollback: once the object of the call itself is registered it stays
    registered even when a variant fails. *)
Theorem add_only_appends (r r' : Registry) (data : NetData) (o : outcome Network) :
  addNetwork integerAsBuffer data r = (o, r') →
  (∃ nets, networks r' = networks r ++ nets)
  ∧ (∀ k, ∃ l, default [] (networkMaps r' !! k) = default [] (networkMaps r !! k) ++ l)
  ∧ (∀ n r1, register integerAsBuffer (props data) r = (Return n, r1) → n ∈ networks r').
Proof.
  intros E.
  assert (Hnets : ∀ r0 d base r o r',
            addNetworkFrom integerAsBuffer base d r = (o, r') →
            (∃ nets, networks r = networks r0 ++ nets) →
            ∃ nets, networks r' = networks r0 ++ nets).
  { intros r0 d base r1 o1 r1' E1 H1.
    eapply (addNetworkFrom_keeps
              (λ r', ∃ nets, networks r' = networks r0 ++ nets)); [|exact H1|exact E1].
    intros data' ra oa ra' [nets Ha] [->|(n & _ & ->)]%register_networks.
    - by exists nets.
    - exists (nets ++ [n]). by rewrite Ha, app_assoc. }
  split; [|split].
  - eapply Hnets; [exact E|]. exists []. by rewrite app_nil_r.
  - eapply (addNetworkFrom_keeps
              (λ r', ∀ k, ∃ l, default [] (networkMaps r' !! k)
                               = default [] (networkMaps r !! k) ++ l));
      [| |exact E].
    + intros data' ra oa ra' Ha. unfold register. unfold bind at 1.
      destruct (newNetwork _ data' ra) as [[n0|e] r1] eqn:E1;
        apply newNetwork_tables in E1 as [_ E1]; rewrite <- E1 in Ha;
        [|by intros [= _ <-]].
      assert (Hloop : ∀ vals rb ob rb',
                (∀ k, ∃ l, default [] (networkMaps rb !! k)
                           = default [] (networkMaps r !! k) ++ l) →
                forEach (indexValue n0) vals rb = (ob, rb') →
                ∀ k, ∃ l, default [] (networkMaps rb' !! k)
                          = default [] (networkMaps r !! k) ++ l).
      { assert (Hstep : ∀ v rb ob rc,
                  (∀ k, ∃ l, default [] (networkMaps rb !! k)
                             = default [] (networkMaps r !! k) ++ l) →
                  indexValue n0 v rb = (ob, rc) →
                  ∀ k, ∃ l, default [] (networkMaps rc !! k)
                            = default [] (networkMaps r !! k) ++ l).
        { intros v rb ob rc Hb (_ & [->|(l & -> & Hl)])%indexValue_tables k;
            [by apply Hb|].
          destruct (Hb k) as [l0 Hk].
          destruct (decide (to_string v = k)) as [<-|Hne].
          - rewrite lookup_insert_eq. simpl.
            destruct Hl as [Hl|(Hl & -> & _)]; rewrite Hl in Hk; simpl in Hk.
            + exists (l0 ++ [n0]). by rewrite Hk, app_assoc.
            + exists (l0 ++ [n0]). by rewrite app_assoc, <- Hk.
          - rewrite lookup_insert_ne by done. by exists l0. }
        induction vals as [|v vals IH]; intros rb ob rb' Hb; simpl.
        - by intros [= _ <-].
        - unfold bind at 1. destruct (indexValue n0 v rb) as [[[]|e] rc] eqn:Ec.
          + intros Hrest. eapply IH; [|exact Hrest]. by eapply Hstep.
          + intros [= _ <-]. by eapply Hstep. }
      unfold bind at 1. destruct (forEach _ _ r1) as [[[]|e] r2] eqn:E2.
      * unfold bind, Eff.get, put, ret. intros [= _ <-]. simpl. by eapply Hloop.
      * intros [= _ <-]. by eapply Hloop.
    + intros k. exists []. by rewrite app_nil_r.
  - intros n r1 Hreg. revert E. unfold addNetwork. destruct data as [own vs].
    rewrite addNetworkFrom_eq, (right_id_L ∅ (∪)). simpl in Hreg.
    unfold bind at 1. rewrite Hreg.
    pose proof Hreg as [?|(n' & [= <-] & E1)]%register_networks.
    { apply register_Return in Hreg as [Hreg _ _ _]. rewrite Hreg in H.
      apply (f_equal length) in H. rewrite length_app in H. simpl in H. lia. }
    unfold bind at 1. destruct vs as [l|].
    + assert (Hin : ∀ l r1 ob rb, n ∈ networks r1 →
                eachVariant integerAsBuffer own l r1 = (ob, rb) → n ∈ networks rb).
      { clear -Hnets. induction l as [|v l IH]; intros r1 ob rb Hn; simpl.
        - by intros [= _ <-].
        - unfold bind at 1. destruct (addNetworkFrom _ _ v r1) as [[n1|e] rc] eqn:Ec.
          + apply IH. destruct (Hnets r1 _ _ _ _ _ Ec) as [nets1 ->];
              [exists []; by rewrite app_nil_r | set_solver].
          + intros [= _ <-]. destruct (Hnets r1 _ _ _ _ _ Ec) as [nets1 ->];
              [exists []; by rewrite app_nil_r | set_solver]. }
      destruct (eachVariant _ own l r1) as [[[]|e] r2] eqn:E2.
      * unfold ret. intros [= _ <-]. eapply Hin; [|exact E2]. rewrite E1. set_solver.
      * intros [= _ <-]. eapply Hin; [|exact E2]. rewrite E1. set_solver.
    + unfold ret. intros [= _ <-]. rewrite E1. set_solver.
Qed.

Lemma registered_NoDup r : registered integerAsBuffer r → NoDup (networks r).
Proof. intros [_ _ Hnodup _]%registered_sound. by eapply NoDup_fmap_1. Qed.

(** X17.  Every network [add] registers is a new object: in a registry
    built by [add] no network is listed twice, no two listed networks
    have the same identity, and every identity is below the count of
    objects created. *)
Theorem registered_networks_are_distinct (r : Registry) :
  registered integerAsBuffer r →
  NoDup (networks r) ∧ NoDup (net_id <$> networks r)
  ∧ ∀ n, n ∈ networks r → (net_id n < created r)%nat.
Proof.
  intros Hreg. split; [by apply registered_NoDup|].
  by destruct (registered_sound _ Hreg) as [_ Hids Hnodup _].
Qed.

(** X18.  After a successful [add], [get] of any indexable value of the
    new network (its name, say) that no earlier network was indexed under
    returns the new network. *)
Theorem add_then_get (r r' : Registry) (data : NetData) (n : Network) (v : jsval) :
  registered integerAsBuffer r →
  addNetwork integerAsBuffer data r = (Return n, r') →
  v ∈ values n → indexable v = true →
  (∀ n', n' ∈ networks r → to_string v ∉ keys n') →
  get r' (ArgValue v) NoKeys = Return (Found n).
Proof.
  intros Hreg E Hv Hi Hfresh.
  assert (Hidx' : indexed r').
  { apply (registered_indexed integerAsBuffer). by eapply registered_add. }
  apply addNetworkFrom_Return in E as [nets [E1 _ _ _]].
  rewrite get_keyless, (indexed_lookup _ _ Hidx'), E1, flat_map_app.
  assert (flat_map (occurrences (to_string v)) (networks r) = []) as ->.
  { destruct (flat_map _ _) as [|x l] eqn:E; [done|]. exfalso.
    destruct (occurrences_registered r (to_string v) x) as [Hx Hk];
      [rewrite E; by left|].
    by apply (Hfresh x). }
  simpl. destruct (occurrences (to_string v) n) as [|x l] eqn:Eo.
  - exfalso. apply occurrences_nil in Eo. apply Eo. unfold keys.
    apply list_elem_of_fmap. exists v. split; [done|]. by apply list_elem_of_filter.
  - simpl. do 2 f_equal. apply (occurrences_same (to_string v)). rewrite Eo. by left.
Qed.

(** ** remove *)

Lemma spliceOut_absent n l : n ∉ l → spliceOut n l = l.
Proof.
  induction l as [|x l IH]; simpl; [done|].
  intros [Hx Hl]%not_elem_of_cons. rewrite decide_False by done. by rewrite IH.
Qed.

Lemma spliceOut_once n l : NoDup l → spliceOut n l = filter (λ x, x ≠ n) l.
Proof.
  induction 1 as [|x l Hx Hl IH]; simpl; [done|].
  rewrite filter_cons. destruct (decide (x = n)) as [->|Hne].
  - rewrite decide_False by (by intros ?).
    assert (filter (λ x, x ≠ n) l = l) as ->.
    { clear -Hx. induction l as [|y l IH]; [done|].
      apply not_elem_of_cons in Hx as [? ?].
      rewrite filter_cons, decide_True by done. by rewrite IH. }
    destruct l as [|y l']; [done|]. apply not_elem_of_cons in Hx as [? ?].
    by rewrite spliceOut_absent.
  - rewrite decide_True by done. by rewrite IH.
Qed.

Lemma removeFirst_absent n l : n ∉ l → removeFirst n l = l.
Proof.
  induction l as [|x l IH]; simpl; [done|].
  intros [Hx Hl]%not_elem_of_cons. rewrite decide_False by done. by rewrite IH.
Qed.

Lemma removeFirst_app_absent n l1 l2 :
  n ∉ l1 → removeFirst n (l1 ++ l2) = l1 ++ removeFirst n l2.
Proof.
  induction l1 as [|x l IH]; simpl; [done|].
  intros [Hx Hl]%not_elem_of_cons. rewrite decide_False by done. by rewrite IH.
Qed.

(** The index after the second loop of [removeNetwork]. *)
Lemma lookup_unindex n maps k :
  (∀ k, maps !! k ≠ Some []) →
  default [] (map_imap (unindex (TNetwork n)) maps !! k)
  = removeFirst n (default [] (maps !! k))
  ∧ map_imap (unindex (TNetwork n)) maps !! k ≠ Some [].
Proof.
  intros Hne. rewrite map_lookup_imap. specialize (Hne k).
  destruct (maps !! k) as [[|x l]|]; simpl; [done| |done].
  destruct (decide (x = n)) as [->|]; [by destruct l|done].
Qed.

Lemma lookup_unindex_other tg maps k :
  (∀ n, tg ≠ TNetwork n) → (∀ k, maps !! k ≠ Some []) →
  map_imap (unindex tg) maps !! k = maps !! k.
Proof.
  intros Htg Hne. rewrite map_lookup_imap. specialize (Hne k).
  destruct (maps !! k) as [[|x l]|]; simpl; [done| |done].
  destruct tg as [n| |]; [by destruct (Htg n)|done|done].
Qed.

Lemma removeNetwork_tables arg r :
  removeNetwork arg r
  = (Return (),
     mkRegistry
       (match target r arg with TNetwork n => spliceOut n (networks r) | _ => networks r end)
       (map_imap (unindex (target r arg)) (networkMaps r)) (created r)).
Proof. reflexivity. Qed.

(** The entries of one network under one key when its keys are distinct. *)
Lemma occurrences_distinct k n :
  NoDup (keys n) → occurrences k n = [] ∨ occurrences k n = [n].
Proof.
  unfold keys, occurrences. induction (values n) as [|v vals IH]; simpl; [by left|].
  rewrite filter_cons. destruct (indexable v) eqn:Ev; simpl; [|exact IH].
  intros [Hv Hvals]%NoDup_cons. case_bool_decide as E; simpl.
  - right. f_equal. subst k.
    assert (Hnil : ∀ l, to_string v ∉ to_string <$> filter (λ v, indexable v = true) l →
              flat_map (λ v0, if indexable v0 && bool_decide (to_string v0 = to_string v)
                              then [n] else []) l = []).
    { clear. induction l as [|w l IHl]; simpl; [done|].
      rewrite filter_cons. destruct (indexable w) eqn:Ew; simpl; [|exact IHl].
      intros [? ?]%not_elem_of_cons. rewrite bool_decide_eq_false_2 by done.
      simpl. by apply IHl. }
    by apply Hnil.
  - by apply IH.
Qed.

Lemma removeFirst_occurrences k n l :
  NoDup l → (occurrences k n = [] ∨ occurrences k n = [n]) →
  removeFirst n (flat_map (occurrences k) l)
  = flat_map (occurrences k) (filter (λ x, x ≠ n) l).
Proof.
  intros Hl Hn.
  assert (Habsent : ∀ l, n ∉ l → n ∉ flat_map (occurrences k) l).
  { intros l' Hno (y & Hy & Hin)%list_elem_of_In%in_flat_map.
    apply list_elem_of_In in Hy, Hin. apply occurrences_same in Hin as <-. done. }
  induction Hl as [|x l Hx Hl IH]; simpl; [done|].
  rewrite filter_cons. destruct (decide (x = n)) as [->|Hne].
  - rewrite decide_False by (by intros ?).
    assert (filter (λ x, x ≠ n) l = l) as ->.
    { clear -Hx. induction l as [|y l IH']; [done|].
      apply not_elem_of_cons in Hx as [? ?].
      rewrite filter_cons, decide_True by done. by rewrite IH'. }
    destruct Hn as [->| ->]; simpl.
    + by apply removeFirst_absent, Habsent.
    + by rewrite decide_True by done.
  - rewrite decide_True by done. simpl. rewrite removeFirst_app_absent; [by rewrite IH|].
    intros Hin%occurrences_same. done.
Qed.

(** X19.  In a registry built by [add], [remove] of a registered network
    takes it out of [networks] and leaves the other networks, in their
    order; [remove] of a value does what [remove] of the network that
    [get] returns for it does. *)
Theorem remove_unregisters (r : Registry) (n : Network) :
  registered integerAsBuffer r → n ∈ networks r →
  networks (removed (ArgNetwork n) r) = filter (λ x, x ≠ n) (networks r)
  ∧ (n ∉ networks (removed (ArgNetwork n) r))
  ∧ (∀ v, typeof_object v = false → get r (ArgValue v) NoKeys = Return (Found n) →
       removeNetwork (ArgValue v) r = removeNetwork (ArgNetwork n) r).
Proof.
  intros Hnodup%registered_NoDup Hn.
  unfold removed. split; [|split].
  - rewrite removeNetwork_tables. simpl. by rewrite spliceOut_once.
  - rewrite removeNetwork_tables. simpl. rewrite spliceOut_once by done.
    intros [Hne _]%list_elem_of_filter. by apply Hne.
  - intros v Hv Hget. rewrite !removeNetwork_tables. unfold target.
    by rewrite Hv, Hget.
Qed.

(** X20.  [remove] keeps the index in step with the list when the
    indexable values of the removed network have distinct keys: afterwards
    [networkMaps] again lists, under each key, exactly the remaining
    networks indexed under it, in their order, and has no empty list. *)
Theorem remove_keeps_the_index (r : Registry) (n : Network) :
  registered integerAsBuffer r → NoDup (keys n) →
  indexed (removed (ArgNetwork n) r).
Proof.
  intros Hreg Hkeys. unfold removed.
  pose proof (registered_NoDup _ Hreg) as Hnodup.
  apply registered_indexed in Hreg as [Hl Hne].
  rewrite removeNetwork_tables. simpl. constructor; simpl.
  - intros k. rewrite (proj1 (lookup_unindex n _ k Hne)), Hl, spliceOut_once by done.
    apply removeFirst_occurrences; [done|]. by apply occurrences_distinct.
  - intros k. by apply lookup_unindex.
Qed.

Lemma option_list_eq (a b : option (list Network)) :
  a ≠ Some [] → b ≠ Some [] → default [] a = default [] b → a = b.
Proof. destruct a as [[|x l]|], b as [[|y l']|]; simpl; try done; by intros _ _ ->. Qed.

(** X21.  [add] and then [remove] of the network it returned restore both
    tables, for an object without variants whose indexable values have
    distinct keys: [networks] and [networkMaps] are as before the [add]. *)
Theorem add_then_remove (r r' : Registry) (own : gmap string jsval) (n : Network) :
  registered integerAsBuffer r →
  addNetwork integerAsBuffer (mkData own None) r = (Return n, r') →
  NoDup (keys n) →
  networks (removed (ArgNetwork n) r') = networks r
  ∧ networkMaps (removed (ArgNetwork n) r') = networkMaps r.
Proof.
  intros Hreg E Hkeys.
  assert (Hreg' : registered integerAsBuffer r') by by eapply registered_add.
  pose proof (registered_sound _ Hreg) as [[Hl Hne] Hids _ _].
  pose proof (registered_indexed _ _ Hreg') as [Hl' Hne'].
  apply addNetworkFrom_Return in E as [nets [E1 E2 E3 E4]].
  assert (nets = []) as ->.
  { apply built_from_length in E3. simpl in E3. destruct nets; [done|]. simpl in E3. lia. }
  assert (Hfresh : n ∉ networks r).
  { intros Hin%Hids. simpl in E3. destruct E3 as [E3 _].
    unfold network_of in E3. apply bind_Some in E3 as (magic & _ & [= <-]).
    simpl in Hin. lia. }
  unfold removed. rewrite removeNetwork_tables. simpl. split.
  - rewrite E1. clear -Hfresh. induction (networks r) as [|x l IH]; simpl.
    + by rewrite decide_True.
    + apply not_elem_of_cons in Hfresh as [? ?]. rewrite decide_False by done.
      by rewrite IH.
  - apply map_eq. intros k. apply option_list_eq.
    + by apply lookup_unindex.
    + apply Hne.
    + rewrite (proj1 (lookup_unindex n _ k Hne')), E4, lookup_index_networks.
      simpl. rewrite app_nil_r. rewrite removeFirst_app_absent.
      * destruct (occurrences_distinct k n Hkeys) as [->| ->]; simpl.
        -- by rewrite app_nil_r.
        -- rewrite decide_True by done. by rewrite app_nil_r.
      * rewrite Hl. intros [? _]%occurrences_registered. done.
Qed.

(** X22.  [remove] takes only the first entry of the removed network out
    of each list of the index.  A network indexed twice under one key,
    because its alias is equal to its name, that [get(name)] returns, is
    gone from [networks] after [remove] and is still what [get(name)]
    returns. *)
Theorem remove_leaves_second_entry (r : Registry) (n : Network) :
  registered integerAsBuffer r →
  indexable (name n) = true → alias n = name n →
  get r (ArgValue (name n)) NoKeys = Return (Found n) →
  (n ∉ networks (removed (ArgNetwork n) r))
  ∧ get (removed (ArgNetwork n) r) (ArgValue (name n)) NoKeys = Return (Found n).
Proof.
  intros Hreg Hi Halias Hget.
  pose proof (registered_NoDup _ Hreg) as Hnodup.
  pose proof (registered_indexed _ _ Hreg) as Hidx.
  pose proof Hidx as [Hl Hne].
  unfold removed. rewrite removeNetwork_tables. simpl networks. split.
  { rewrite spliceOut_once by done. intros [H _]%list_elem_of_filter. by apply H. }
  rewrite get_keyless in Hget. rewrite get_keyless. simpl networkMaps.
  set (k := to_string (name n)) in *.
  pose proof (lookup_unindex n (networkMaps r) k Hne) as [Hk Hk'].
  rewrite (indexed_lookup _ _ Hidx) in Hget. rewrite Hl in Hk.
  destruct (flat_map (occurrences k) (networks r)) as [|x rest] eqn:E.
  { destruct (inherited k) as [[len|]|]; [by destruct (1 <=? len)|done|done]. }
  injection Hget as ->.
  destruct (flat_map_first _ _ _ _ E) as (before & y & after & tl & _ & _ & Hy).
  assert (y = n) as ->.
  { symmetry. apply (occurrences_same k). rewrite Hy. by left. }
  assert (∃ tl', tl = n :: tl') as [tl' ->].
  { revert Hy. unfold occurrences, values. rewrite Halias. simpl. fold k.
    rewrite Hi. simpl. rewrite bool_decide_eq_true_2 by done. simpl.
    intros [= <-]. by eauto. }
  assert (∃ rest', rest = n :: rest') as [rest' ->].
  { revert E. clear -Hy.
    induction (networks r) as [|a l IH]; simpl; [done|].
    destruct (occurrences k a) as [|b bs] eqn:Ea; simpl; [exact IH|].
    intros [= -> <-].
    destruct (decide (a = n)) as [->|Hne].
    - rewrite Hy in Ea. injection Ea as <-. simpl. by eauto.
    - exfalso. apply Hne. symmetry. apply (occurrences_same k). rewrite Ea. by left. }
  simpl in Hk. rewrite decide_True in Hk by done.
  destruct (map_imap _ _ !! k) as [[|z zs]|]; simpl in Hk; try done.
  by injection Hk as -> _.
Qed.

(** X23.  [remove] of something that is not registered changes neither
    table, in a registry built by [add]: a value [get] finds no network
    for, an object that is not a network, or a network that is not (or no
    longer) in [networks]. *)
Theorem remove_of_unregistered (r : Registry) (arg : GetArg) :
  registered integerAsBuffer r →
  (∀ n, target r arg = TNetwork n → n ∉ networks r) →
  networks (removed arg r) = networks r ∧ networkMaps (removed arg r) = networkMaps r.
Proof.
  intros Hreg Harg. pose proof (registered_indexed _ _ Hreg) as [Hl Hne].
  unfold removed. rewrite removeNetwork_tables. simpl.
  destruct (target r arg) as [n| |] eqn:Et.
  - specialize (Harg n eq_refl). split; [by apply spliceOut_absent|].
    apply map_eq. intros k. apply option_list_eq.
    + by apply lookup_unindex.
    + apply Hne.
    + rewrite (proj1 (lookup_unindex n _ k Hne)). apply removeFirst_absent.
      rewrite Hl. intros [? _]%occurrences_registered. done.
  - split; [done|]. apply map_eq. intros k. by apply lookup_unindex_other.
  - split; [done|]. apply map_eq. intros k. by apply lookup_unindex_other.
Qed.

End Registry.

(** ** The properties on the registry of the module *)

Definition no_network : Network :=
  mkNetwork 0 JUndefined JUndefined JUndefined JUndefined JUndefined JUndefined
    JUndefined JUndefined None None None.

(** [var testnet = get('testnet')] and [var regtest = get('regtest')] *)
Definition testnet : Network := default no_network (networks loaded !! 1%nat).

Definition regtest : Network := default no_network (networks loaded !! 3%nat).

(** A network that shares no indexable value with those of the module. *)
Definition side_data : gmap string jsval :=
  object
    [ ("name", JStr "sidenet"); ("alias", JStr "side");
      ("pubkeyhash", JNum (Num 0x21)); ("privatekey", JNum (Num 0xa1));
      ("scripthash", JNum (Num 0x17)); ("xpubkey", JNum (Num 0x0488b21f));
      ("xprivkey", JNum (Num 0x0488ade5)) ].

Definition side : Network :=
  match (addNetwork integerAsBuffer_be (mkData side_data None) loaded).1 with
  | Return n => n
  | Throw _ => no_network
  end.

Lemma loaded_without (k : string) :
  forallb (λ n, bool_decide (k ∉ keys n)) (networks loaded) = true →
  ∀ n, n ∈ networks loaded → k ∉ keys n.
Proof.
  intros H n Hn. rewrite forallb_forall in H.
  apply list_elem_of_In, H in Hn. by apply bool_decide_eq_true in Hn.
Qed.

Lemma get_returns_only_registered_witness : livenet ∈ networks loaded.
Proof.
  apply (get_returns_only_registered integerAsBuffer_be loaded
           (ArgValue (JNum (Num 0x16))) NoKeys livenet loaded_registered).
  by vm_compute.
Defined.

Lemma get_of_unknown_value_witness :
  (∀ n, get loaded (ArgValue (JStr "bitcoin")) NoKeys ≠ Return (Found n))
  ∧ (inherited "bitcoin" = None →
     get loaded (ArgValue (JStr "bitcoin")) NoKeys = Return Undefined).
Proof.
  apply (get_of_unknown_value integerAsBuffer_be loaded (JStr "bitcoin")
           loaded_registered).
  apply loaded_without. by vm_compute.
Defined.


Lemma add_rejects_inherited_name_witness :
  ∃ e r', addNetwork integerAsBuffer_be
            (mkData (object [("name", JStr "valueOf"); ("alias", JStr "v")]) None) loaded
          = (Throw e, r')
          ∧ networks r' = networks loaded ∧ networkMaps r' = networkMaps loaded.
Proof.
  apply (add_rejects_inherited_name integerAsBuffer_be loaded
           (object [("name", JStr "valueOf"); ("alias", JStr "v")]) None "valueOf"
           loaded_registered).
  - by vm_compute.
  - by vm_compute; eexists.
Defined.

Lemma add_only_appends_witness :
  (∃ nets, networks (addNetwork integerAsBuffer_be testnet_data loaded).2
           = networks loaded ++ nets)
  ∧ (∀ k, ∃ l, default [] (networkMaps (addNetwork integerAsBuffer_be testnet_data loaded).2 !! k)
               = default [] (networkMaps loaded !! k) ++ l)
  ∧ (∀ n r1, register integerAsBuffer_be (props testnet_data) loaded = (Return n, r1) →
       n ∈ networks (addNetwork integerAsBuffer_be testnet_data loaded).2).
Proof.
  apply (add_only_appends integerAsBuffer_be loaded
           (addNetwork integerAsBuffer_be testnet_data loaded).2 testnet_data
           (addNetwork integerAsBuffer_be testnet_data loaded).1).
  by destruct (addNetwork integerAsBuffer_be testnet_data loaded).
Defined.

Lemma registered_networks_are_distinct_witness :
  NoDup (networks loaded) ∧ NoDup (net_id <$> networks loaded)
  ∧ ∀ n, n ∈ networks loaded → (net_id n < created loaded)%nat.
Proof.
  apply (registered_networks_are_distinct integerAsBuffer_be loaded loaded_registered).
Defined.

Lemma add_then_get_witness :
  get (addNetwork integerAsBuffer_be (mkData side_data None) loaded).2
      (ArgValue (JStr "sidenet")) NoKeys = Return (Found side).
Proof.
  apply (add_then_get integerAsBuffer_be loaded
           (addNetwork integerAsBuffer_be (mkData side_data None) loaded).2
           (mkData side_data None) side (JStr "sidenet") loaded_registered).
  - by vm_compute.
  - vm_compute. by left.
  - reflexivity.
  - apply loaded_without. by vm_compute.
Defined.

Lemma livenet_registered : livenet ∈ networks loaded.
Proof. apply list_elem_of_lookup. exists 0%nat. by vm_compute. Qed.

Lemma remove_unregisters_witness :
  networks (removed (ArgNetwork livenet) loaded) = filter (λ x, x ≠ livenet) (networks loaded)
  ∧ (livenet ∉ networks (removed (ArgNetwork livenet) loaded))
  ∧ (∀ v, typeof_object v = false →
       get loaded (ArgValue v) NoKeys = Return (Found livenet) →
       removeNetwork (ArgValue v) loaded = removeNetwork (ArgNetwork livenet) loaded).
Proof.
  apply (remove_unregisters integerAsBuffer_be loaded livenet loaded_registered
           livenet_registered).
Defined.

Lemma remove_keeps_the_index_witness : indexed (removed (ArgNetwork regtest) loaded).
Proof.
  apply (remove_keeps_the_index integerAsBuffer_be loaded regtest loaded_registered).
  apply (bool_decide_eq_true_1 _). by vm_compute.
Defined.

Lemma add_then_remove_witness :
  networks (removed (ArgNetwork side)
              (addNetwork integerAsBuffer_be (mkData side_data None) loaded).2)
    = networks loaded
  ∧ networkMaps (removed (ArgNetwork side)
                   (addNetwork integerAsBuffer_be (mkData side_data None) loaded).2)
    = networkMaps loaded.
Proof.
  apply (add_then_remove integerAsBuffer_be loaded
           (addNetwork integerAsBuffer_be (mkData side_data None) loaded).2
           side_data side loaded_registered).
  - by vm_compute.
  - apply (bool_decide_eq_true_1 _). by vm_compute.
Defined.

Lemma remove_leaves_second_entry_witness :
  (testnet ∉ networks (removed (ArgNetwork testnet) loaded))
  ∧ get (removed (ArgNetwork testnet) loaded) (ArgValue (name testnet)) NoKeys
    = Return (Found testnet).
Proof.
  apply (remove_leaves_second_entry integerAsBuffer_be loaded testnet loaded_registered).
  - reflexivity.
  - reflexivity.
  - by vm_compute.
Defined.

Lemma remove_of_unregistered_witness :
  networks (removed (ArgValue (JStr "bitcoin")) loaded) = networks loaded
  ∧ networkMaps (removed (ArgValue (JStr "bitcoin")) loaded) = networkMaps loaded.
Proof.
  apply (remove_of_unregistered integerAsBuffer_be loaded (ArgValue (JStr "bitcoin"))
           loaded_registered).
  intros n. by vm_compute.
Defined.

End NetworksMore.
